(** * Confidential DAO voting: the FHEMVoting contract and the
      documentation generator, embedded and verified.

    Part I ([Module Voting]) embeds [contracts/FHEMVoting.sol]: storage as
    finite maps read with Solidity's zero default, every external function as
    a state-passing function into a [result] (a revert carries no state),
    checked [uint256] arithmetic written out, keccak256 and the handles of
    the FHEVM taken as an interface, and the access-control list of the
    FHEVM, which decides whether [FHE.add] may read its operands, written
    out.

    Part II embeds [scripts/generate-docs.ts] ([Module GenerateDocs], over
    the string operations of [Module JS]) and the example registry of
    [scripts/create-fhevm-example.ts] ([Module CreateExample]): the file
    system as a finite map, the script body in a state, exit and exception
    monad, property lookup with its prototype chain, and the regular
    expressions of the two scanners as recursive functions.

    The properties follow in [Module VotingSpec] and [Module DocsSpec]. *)

From Stdlib Require Import ZArith List String Ascii Bool Lia.
From Stdlib Require Import Init.Byte DecimalString.
From stdpp Require Import base option gmap strings list fin_maps.

Local Open Scope Z_scope.

(* ===================================================================== *)
(** * Part I: FHEMVoting.sol                                              *)
(* ===================================================================== *)

Module Voting.

(** ** Solidity values *)

Definition address := Z.
Definition bytes32 := Z.

(** [type euint32 is bytes32]: an encrypted 32-bit integer is a handle. *)
Definition euint32 := Z.

Definition MAX_UINT256 : Z := 2 ^ 256 - 1.

Definition is_uint256 (x : Z) : Prop := 0 <= x <= MAX_UINT256.

(** Explicit narrowing conversion [uint32(x)]: truncation. *)
Definition uint32 (x : Z) : Z := x mod 2 ^ 32.

Definition days : Z := 86400.
Definition VOTING_DURATION : Z := 7 * days.
Definition MIN_VOTING_POWER : Z := 100.

(** ** Outcome of a call *)

Inductive result (A : Type) : Type :=
| Ok (a : A)
| Revert (reason : string)
| Panic (code : Z).
Arguments Ok {A} a.
Arguments Revert {A} reason.
Arguments Panic {A} code.

#[global] Instance result_ret : MRet result := fun _ a => Ok a.
#[global] Instance result_bind : MBind result := fun _ _ f r =>
  match r with
  | Ok a => f a
  | Revert m => Revert m
  | Panic c => Panic c
  end.

Definition succeeds {A} (r : result A) : Prop :=
  match r with Ok _ => True | _ => False end.

Definition reverts {A} (r : result A) : Prop :=
  match r with Ok _ => False | _ => True end.

Definition require (c : bool) (reason : string) : result unit :=
  if c then Ok tt else Revert reason.

(** Checked addition of Solidity 0.8: overflow is Panic(0x11). *)
Definition checked_add (a b : Z) : result Z :=
  if a + b <=? MAX_UINT256 then Ok (a + b) else Panic 17.

(** ** The platform: keccak256 and the FHEVM library *)

Class Keccak := keccak256 : list byte -> bytes32.

(** The handles that the FHEVM computes: for the trivial encryption of a
    plaintext and for the sum of two ciphertexts. A handle that the FHEVM
    returns is initialised, that is, not the zero handle. Whether a contract
    may use a handle is decided by the access-control list, below. *)
Class FHE := {
  FHE_asEuint32 : Z -> euint32;
  FHE_add : euint32 -> euint32 -> euint32;
  FHE_asEuint32_initialized : forall v, FHE_asEuint32 v <> 0;
  FHE_add_initialized : forall a b, FHE_add a b <> 0;
}.

(** ** abi.encodePacked(bool, uint256, address) *)

Definition byte_of_Z (z : Z) : byte :=
  default x00 (Byte.of_N (Z.to_N (z mod 256))).

Fixpoint be_bytes (n : nat) (x : Z) : list byte :=
  match n with
  | O => []
  | S k => be_bytes k (x / 256) ++ [byte_of_Z x]
  end.

Definition encodePacked (support : bool) (nonce : Z) (sender : address) : list byte :=
  [if support then x01 else x00] ++ be_bytes 32 nonce ++ be_bytes 20 sender.
Arguments encodePacked : simpl never.

(** ** Storage *)

Record Proposal := mkProposal {
  id : Z;
  title : string;
  description : string;
  creator : address;
  createdAt : Z;
  votingEnd : Z;
  encryptedYesCount : euint32;
  encryptedNoCount : euint32;
  executed : bool;
  active : bool;
}.

Record VoteCommitment := mkVoteCommitment {
  voteHash : bytes32;
  revealed : bool;
}.

#[global] Instance Proposal_inhabited : Inhabited Proposal :=
  populate (mkProposal 0 "" "" 0 0 0 0 0 false false).
#[global] Instance VoteCommitment_inhabited : Inhabited VoteCommitment :=
  populate (mkVoteCommitment 0 false).

(** Grants of the access-control list: the account may use the handle. *)
Definition Grants := list (euint32 * address).

(** [acl] is the list of persistent grants made through FHE.allowThis and
    FHE.allow, newest first. *)
Record State := mkState {
  proposals : gmap Z Proposal;
  voteCommitments : gmap (Z * address) VoteCommitment;
  voterWeight : gmap address Z;
  proposalCount : Z;
  owner : address;
  votingOpen : bool;
  acl : Grants;
}.

Record Env := mkEnv {
  msg_sender : address;
  block_timestamp : Z;
  this : address;
}.

Inductive Event : Type :=
| ProposalCreated (proposalId : Z) (title : string) (creator : address) (votingEnd : Z)
| VoteCommitted (proposalId : Z) (voter : address) (voteHash : bytes32)
| VoteRevealed (proposalId : Z) (voter : address) (support : bool) (weight : Z)
| ProposalExecuted (proposalId : Z) (passed : bool) (timestamp : Z).

(** Field updates. *)

Definition set_proposals (f : gmap Z Proposal) (s : State) : State :=
  mkState f (voteCommitments s) (voterWeight s) (proposalCount s) (owner s) (votingOpen s) (acl s).
Definition set_voteCommitments (f : gmap (Z * address) VoteCommitment) (s : State) : State :=
  mkState (proposals s) f (voterWeight s) (proposalCount s) (owner s) (votingOpen s) (acl s).
Definition set_voterWeight (f : gmap address Z) (s : State) : State :=
  mkState (proposals s) (voteCommitments s) f (proposalCount s) (owner s) (votingOpen s) (acl s).
Definition set_proposalCount (n : Z) (s : State) : State :=
  mkState (proposals s) (voteCommitments s) (voterWeight s) n (owner s) (votingOpen s) (acl s).
Definition set_votingOpen (b : bool) (s : State) : State :=
  mkState (proposals s) (voteCommitments s) (voterWeight s) (proposalCount s) (owner s) b (acl s).
Definition set_acl (l : Grants) (s : State) : State :=
  mkState (proposals s) (voteCommitments s) (voterWeight s) (proposalCount s) (owner s) (votingOpen s) l.

Definition set_executed (b : bool) (p : Proposal) : Proposal :=
  mkProposal (id p) (title p) (description p) (creator p) (createdAt p) (votingEnd p)
             (encryptedYesCount p) (encryptedNoCount p) b (active p).
Definition set_active (b : bool) (p : Proposal) : Proposal :=
  mkProposal (id p) (title p) (description p) (creator p) (createdAt p) (votingEnd p)
             (encryptedYesCount p) (encryptedNoCount p) (executed p) b.
Definition set_encryptedYesCount (h : euint32) (p : Proposal) : Proposal :=
  mkProposal (id p) (title p) (description p) (creator p) (createdAt p) (votingEnd p)
             h (encryptedNoCount p) (executed p) (active p).
Definition set_encryptedNoCount (h : euint32) (p : Proposal) : Proposal :=
  mkProposal (id p) (title p) (description p) (creator p) (createdAt p) (votingEnd p)
             (encryptedYesCount p) h (executed p) (active p).
Definition set_voteHash (h : bytes32) (c : VoteCommitment) : VoteCommitment :=
  mkVoteCommitment h (revealed c).
Definition set_revealed (b : bool) (c : VoteCommitment) : VoteCommitment :=
  mkVoteCommitment (voteHash c) b.

(** Storage reads: a mapping yields the zero value at a key never written. *)

Definition proposal_at (s : State) (proposalId : Z) : Proposal :=
  proposals s !!! proposalId.
Definition commitment_at (s : State) (proposalId : Z) (voter : address) : VoteCommitment :=
  voteCommitments s !!! (proposalId, voter).
Definition weight_of (s : State) (voter : address) : Z :=
  default 0 (voterWeight s !! voter).

Definition exists_proposal (s : State) (proposalId : Z) : bool :=
  (proposalId <=? proposalCount s) && (0 <? proposalId).

(** ** The contract *)

Section Contract.
Context `{!Keccak, !FHE}.

(** *** The FHEVM library, as the contract calls it

    A handle may be used by an account that holds a grant on it: a
    persistent one, stored by [FHE.allow], or a transient one, which the
    FHEVM gives to the caller on every result and which lasts until the end
    of the transaction. *)

Definition isAllowed (persistent transient : Grants) (handle : euint32) (account : address)
  : bool :=
  bool_decide ((handle, account) ∈ transient) || bool_decide ((handle, account) ∈ persistent).

(** [FHE.asEuint32(v)] *)
Definition lib_asEuint32 (e : Env) (v : Z) (transient : Grants) : euint32 * Grants :=
  (FHE_asEuint32 v, (FHE_asEuint32 v, this e) :: transient).

(** An operand that was never initialised (the zero handle) stands for the
    trivial encryption of 0. *)
Definition operand (e : Env) (h : euint32) (transient : Grants) : euint32 * Grants :=
  if h =? 0 then lib_asEuint32 e 0 transient else (h, transient).

(** [FHE.add(a, b)]: the contract must be allowed on both operands. *)
Definition lib_add (e : Env) (persistent : Grants) (a b : euint32) (transient : Grants)
  : result (euint32 * Grants) :=
  let '(a, transient) := operand e a transient in
  let '(b, transient) := operand e b transient in
  require (isAllowed persistent transient a (this e)) "ACLNotAllowed" ;;
  require (isAllowed persistent transient b (this e)) "ACLNotAllowed" ;;
  Ok (FHE_add a b, (FHE_add a b, this e) :: transient).

(** [FHE.allow(handle, account)] and [FHE.allowThis(handle)]: the contract
    must itself be allowed on the handle. *)
Definition lib_allow (e : Env) (transient : Grants) (handle : euint32) (account : address)
    (s : State) : result State :=
  require (isAllowed (acl s) transient handle (this e)) "SenderNotAllowed" ;;
  Ok (set_acl ((handle, account) :: acl s) s).

Definition lib_allowThis (e : Env) (transient : Grants) (handle : euint32) (s : State)
  : result State :=
  lib_allow e transient handle (this e) s.

(** *** The contract *)

Definition constructor (e : Env) : State :=
  mkState ∅ ∅ ∅ 0 (msg_sender e) true [].

Definition onlyOwner (e : Env) (s : State) : result unit :=
  require (bool_decide (msg_sender e = owner s)) "Only owner can operate".

Definition votingIsOpen (s : State) : result unit :=
  require (votingOpen s) "Voting system is closed".

Definition setVoterWeight (e : Env) (voter : address) (weight : Z) (s : State)
  : result (State * list Event) :=
  onlyOwner e s ;;
  Ok (set_voterWeight (<[voter := weight]> (voterWeight s)) s, []).

Definition setMultipleVoterWeights (e : Env) (voters : list address) (weights : list Z)
    (s : State) : result (State * list Event) :=
  onlyOwner e s ;;
  require (bool_decide (length voters = length weights)) "Array length mismatch" ;;
  Ok (set_voterWeight
        (fold_left (fun m vw => <[fst vw := snd vw]> m) (combine voters weights) (voterWeight s))
        s, []).

Definition createProposal (e : Env) (title description : string) (s : State)
  : result (State * list Event) :=
  votingIsOpen s ;;
  require (MIN_VOTING_POWER <=? weight_of s (msg_sender e)) "Insufficient voting power" ;;
  proposalId ← checked_add (proposalCount s) 1 ;
  vEnd ← checked_add (block_timestamp e) VOTING_DURATION ;
  let old := proposal_at s proposalId in
  let '(yes, transient) := lib_asEuint32 e 0 [] in
  let '(no, transient) := lib_asEuint32 e 0 transient in
  let newProposal :=
    mkProposal proposalId title description (msg_sender e) (block_timestamp e) vEnd
               yes no (executed old) true in
  Ok (set_proposals (<[proposalId := newProposal]> (proposals s))
        (set_proposalCount proposalId s),
      [ProposalCreated proposalId title (msg_sender e) vEnd]).

Definition commitVote (e : Env) (proposalId : Z) (vHash : bytes32) (s : State)
  : result (State * list Event) :=
  votingIsOpen s ;;
  require (0 <? weight_of s (msg_sender e)) "No voting permission" ;;
  require (exists_proposal s proposalId) "Proposal does not exist" ;;
  let proposal := proposal_at s proposalId in
  require (active proposal) "Proposal not active" ;;
  require (block_timestamp e <? votingEnd proposal) "Voting period ended" ;;
  require (voteHash (commitment_at s proposalId (msg_sender e)) =? 0) "Vote already committed" ;;
  Ok (set_voteCommitments
        (<[(proposalId, msg_sender e) :=
             set_voteHash vHash (commitment_at s proposalId (msg_sender e))]> (voteCommitments s))
        s,
      [VoteCommitted proposalId (msg_sender e) vHash]).

Definition revealVote (e : Env) (proposalId : Z) (support : bool) (nonce : Z) (s : State)
  : result (State * list Event) :=
  require (exists_proposal s proposalId) "Proposal does not exist" ;;
  let proposal := proposal_at s proposalId in
  require (votingEnd proposal <=? block_timestamp e) "Voting period not ended" ;;
  let commitment := commitment_at s proposalId (msg_sender e) in
  require (negb (voteHash commitment =? 0)) "No vote commitment found" ;;
  require (negb (revealed commitment)) "Vote already revealed" ;;
  let expectedHash := keccak256 (encodePacked support nonce (msg_sender e)) in
  require (expectedHash =? voteHash commitment) "Vote verification failed" ;;
  let s1 := set_voteCommitments
              (<[(proposalId, msg_sender e) := set_revealed true commitment]> (voteCommitments s)) s in
  let weight := weight_of s (msg_sender e) in
  let '(encryptedWeight, transient) := lib_asEuint32 e (uint32 weight) [] in
  s4 ← (if support then
          '(c, transient) ← lib_add e (acl s1) (encryptedYesCount proposal) encryptedWeight
                              transient ;
          let s2 := set_proposals
                      (<[proposalId := set_encryptedYesCount c proposal]> (proposals s1)) s1 in
          s3 ← lib_allowThis e transient c s2 ;
          lib_allow e transient c (msg_sender e) s3
        else
          '(c, transient) ← lib_add e (acl s1) (encryptedNoCount proposal) encryptedWeight
                              transient ;
          let s2 := set_proposals
                      (<[proposalId := set_encryptedNoCount c proposal]> (proposals s1)) s1 in
          s3 ← lib_allowThis e transient c s2 ;
          lib_allow e transient c (msg_sender e) s3) ;
  Ok (s4, [VoteRevealed proposalId (msg_sender e) support weight]).

Definition executeProposal (e : Env) (proposalId : Z) (s : State)
  : result (State * list Event) :=
  require (exists_proposal s proposalId) "Proposal does not exist" ;;
  let proposal := proposal_at s proposalId in
  deadline ← checked_add (votingEnd proposal) (1 * days) ;
  require (deadline <=? block_timestamp e) "Reveal period not ended" ;;
  require (negb (executed proposal)) "Proposal already executed" ;;
  require (active proposal) "Proposal not active" ;;
  Ok (set_proposals (<[proposalId := set_executed true proposal]> (proposals s)) s,
      [ProposalExecuted proposalId true (block_timestamp e)]).

Definition setVotingOpen (e : Env) (open : bool) (s : State) : result (State * list Event) :=
  onlyOwner e s ;;
  Ok (set_votingOpen open s, []).

Definition pauseProposal (e : Env) (proposalId : Z) (s : State) : result (State * list Event) :=
  onlyOwner e s ;;
  require (exists_proposal s proposalId) "Proposal does not exist" ;;
  Ok (set_proposals (<[proposalId := set_active false (proposal_at s proposalId)]> (proposals s)) s,
      []).

(** Views. *)

Definition generateVoteHash (e : Env) (support : bool) (nonce : Z) : bytes32 :=
  keccak256 (encodePacked support nonce (msg_sender e)).

Definition hasUserVoted (s : State) (proposalId : Z) (user : address) : bool :=
  negb (voteHash (commitment_at s proposalId user) =? 0).

Definition hasUserRevealed (s : State) (proposalId : Z) (user : address) : bool :=
  revealed (commitment_at s proposalId user).

Definition getVotingStatus (e : Env) (s : State) (proposalId : Z) : result string :=
  if (proposalCount s <? proposalId) || (proposalId =? 0) then Ok "Proposal does not exist"%string
  else
    let proposal := proposal_at s proposalId in
    if negb (active proposal) then Ok "Proposal not active"%string
    else if executed proposal then Ok "Executed"%string
    else if block_timestamp e <? votingEnd proposal then Ok "Voting in progress"%string
    else
      deadline ← checked_add (votingEnd proposal) (1 * days) ;
      if block_timestamp e <? deadline then Ok "Reveal phase"%string
      else Ok "Awaiting execution"%string.

Definition getProposal (s : State) (proposalId : Z)
  : result (Z * string * string * address * Z * Z * bool * bool) :=
  require (exists_proposal s proposalId) "Proposal does not exist" ;;
  let proposal := proposal_at s proposalId in
  Ok (id proposal, title proposal, description proposal, creator proposal,
      createdAt proposal, votingEnd proposal, executed proposal, active proposal).

Definition getCurrentTime (e : Env) : Z := block_timestamp e.

(** ** Transactions *)

Inductive Call : Type :=
| CallSetVoterWeight (voter : address) (weight : Z)
| CallSetMultipleVoterWeights (voters : list address) (weights : list Z)
| CallCreateProposal (title description : string)
| CallCommitVote (proposalId : Z) (vHash : bytes32)
| CallRevealVote (proposalId : Z) (support : bool) (nonce : Z)
| CallExecuteProposal (proposalId : Z)
| CallSetVotingOpen (open : bool)
| CallPauseProposal (proposalId : Z).

Definition call (e : Env) (c : Call) (s : State) : result (State * list Event) :=
  match c with
  | CallSetVoterWeight v w => setVoterWeight e v w s
  | CallSetMultipleVoterWeights vs ws => setMultipleVoterWeights e vs ws s
  | CallCreateProposal t d => createProposal e t d s
  | CallCommitVote p h => commitVote e p h s
  | CallRevealVote p b n => revealVote e p b n s
  | CallExecuteProposal p => executeProposal e p s
  | CallSetVotingOpen b => setVotingOpen e b s
  | CallPauseProposal p => pauseProposal e p s
  end.

(** A transaction that reverts leaves the storage as it was. *)
Definition transact (e : Env) (c : Call) (s : State) : State :=
  match call e c s with
  | Ok (s', _) => s'
  | _ => s
  end.

Definition run (txs : list (Env * Call)) (s : State) : State :=
  fold_left (fun st ec => transact (fst ec) (snd ec) st) txs s.

Definition reachable (s : State) : Prop :=
  exists e0 txs, s = run txs (constructor e0).

(** The events of a transaction (none when it reverts) and of a sequence of
    transactions, oldest first. *)
Definition emitted (e : Env) (c : Call) (s : State) : list Event :=
  match call e c s with
  | Ok (_, evs) => evs
  | _ => []
  end.

Fixpoint run_log (txs : list (Env * Call)) (s : State) : list Event :=
  match txs with
  | [] => []
  | (e, c) :: rest => emitted e c s ++ run_log rest (transact e c s)
  end.

End Contract.

(** ** Vocabulary of the specification *)

(** The five conditions on which [revealVote] itself refuses a reveal. A
    reveal that passes them can still revert, inside [FHE.add]: see
    [counter_allowed]. *)
Definition reveal_blocked `{!Keccak} (e : Env) (proposalId : Z) (support : bool) (nonce : Z)
    (s : State) : Prop :=
  (proposalId = 0 \/ proposalCount s < proposalId)
  \/ block_timestamp e < votingEnd (proposal_at s proposalId)
  \/ voteHash (commitment_at s proposalId (msg_sender e)) = 0
  \/ revealed (commitment_at s proposalId (msg_sender e)) = true
  \/ keccak256 (encodePacked support nonce (msg_sender e))
     <> voteHash (commitment_at s proposalId (msg_sender e)).


(** The same storage with the proposal's two encrypted counters overwritten. *)
Definition with_counters (yes no : euint32) (proposalId : Z) (s : State) : State :=
  set_proposals
    (<[proposalId := set_encryptedYesCount yes
                       (set_encryptedNoCount no (proposal_at s proposalId))]> (proposals s)) s.


(** Every existing proposal closes seven days after its creation. *)
Definition window_inv (s : State) : Prop :=
  forall q, exists_proposal s q = true ->
    votingEnd (proposal_at s q) = createdAt (proposal_at s q) + VOTING_DURATION.

Definition tally (support : bool) (p : Proposal) : euint32 :=
  if support then encryptedYesCount p else encryptedNoCount p.

(** The counter as [FHE.add] takes it: the trivial encryption of 0 where the
    stored handle is the zero handle. *)
Definition initialised `{!FHE} (h : euint32) : euint32 :=
  if h =? 0 then FHE_asEuint32 0 else h.

(** The contract may read the counter that a reveal of the caller is about to
    add to: the stored handle is the zero handle, or it is the handle just
    given to the caller's encrypted weight, or the access-control list holds
    a persistent grant of it to the contract. *)
Definition counter_allowed `{!FHE} (e : Env) (proposalId : Z) (support : bool) (s : State)
  : bool :=
  let c := tally support (proposal_at s proposalId) in
  (c =? 0)
  || (c =? FHE_asEuint32 (uint32 (weight_of s (msg_sender e))))
  || bool_decide ((c, this e) ∈ acl s).

(** The storage that a reveal leaves when it goes through. *)
Definition revealed_state `{!FHE} (e : Env) (proposalId : Z) (support : bool) (s : State)
  : State :=
  let proposal := proposal_at s proposalId in
  let commitment := commitment_at s proposalId (msg_sender e) in
  let s1 := set_voteCommitments
              (<[(proposalId, msg_sender e) := set_revealed true commitment]> (voteCommitments s))
              s in
  let c := FHE_add (initialised (tally support proposal))
                   (FHE_asEuint32 (uint32 (weight_of s (msg_sender e)))) in
  set_acl ((c, msg_sender e) :: (c, this e) :: acl s1)
    (set_proposals
       (<[proposalId := (if support then set_encryptedYesCount c else set_encryptedNoCount c)
                          proposal]> (proposals s1)) s1).

(** What the VoteRevealed events credit to one side of one proposal: the
    32-bit truncation of each reported weight. *)
Definition revealed_weight (proposalId : Z) (support : bool) (ev : Event) : Z :=
  match ev with
  | VoteRevealed p _ b w =>
      if (p =? proposalId) && Bool.eqb b support then uint32 w else 0
  | _ => 0
  end.

Definition revealed_total (proposalId : Z) (support : bool) (evs : list Event) : Z :=
  fold_right (fun ev acc => revealed_weight proposalId support ev + acc) 0 evs.

(** A decryption for which the FHE library is homomorphic: the trivial
    encryption decrypts to its plaintext and [FHE.add] to the 32-bit sum. *)
Definition homomorphic `{!FHE} (decrypt : euint32 -> Z) : Prop :=
  (forall v, 0 <= v < 2 ^ 32 -> decrypt (FHE_asEuint32 v) = v)
  /\ (forall a b, decrypt (FHE_add a b) = (decrypt a + decrypt b) mod 2 ^ 32).

(** The log credits only proposals that exist, and each encrypted counter
    decrypts to what the log credits to it, modulo 2^32. *)
Definition tally_inv `{!FHE} (decrypt : euint32 -> Z) (s : State) (log : list Event) : Prop :=
  (forall p v b w, In (VoteRevealed p v b w) log -> exists_proposal s p = true)
  /\ (forall q b, exists_proposal s q = true ->
        decrypt (tally b (proposal_at s q)) = revealed_total q b log mod 2 ^ 32).

(** The proposals table holds the proposals 1..proposalCount, each under its
    own id, and nothing else. *)
Definition proposals_wf (s : State) : Prop :=
  0 <= proposalCount s
  /\ forall q, if exists_proposal s q
               then id (proposal_at s q) = q
               else proposals s !! q = None.

(** The two counters of every existing proposal hold handles that the FHEVM
    returned. *)
Definition counters_initialised (s : State) : Prop :=
  forall q, exists_proposal s q = true ->
    encryptedYesCount (proposal_at s q) <> 0 /\ encryptedNoCount (proposal_at s q) <> 0.

(** The fields of a proposal that are set at creation. *)
Definition metadata (p : Proposal) : Z * string * string * address * Z * Z :=
  (id p, title p, description p, creator p, createdAt p, votingEnd p).

(** The batch of single-weight calls that a batch of weights stands for. *)
Definition weight_calls (e : Env) (voters : list address) (weights : list Z)
  : list (Env * Call) :=
  map (fun vw => (e, CallSetVoterWeight (fst vw) (snd vw))) (combine voters weights).

(** ** A concrete platform, to run the contract on inputs

    The hash is a stand-in (a polynomial in the bytes, in 256 bits); the
    handles of the FHE instance carry the plaintext in their low 32 bits,
    with the 32-bit wrap-around of [FHE.add], under a tag that tells a sum
    from a trivial encryption. *)

Definition sample_keccak : Keccak := fun bs =>
  fold_left (fun acc b => (acc * 257 + Z.of_N (Byte.to_N b) + 1) mod 2 ^ 256) bs 0.

Definition sample_FHE : FHE.
Proof.
  refine {| FHE_asEuint32 := fun v => 2 ^ 32 + v mod 2 ^ 32;
            FHE_add := fun a b => 2 ^ 33 + (a + b) mod 2 ^ 32 |}.
  - intros v. pose proof (Z.mod_pos_bound v (2 ^ 32)). lia.
  - intros a b. pose proof (Z.mod_pos_bound (a + b) (2 ^ 32)). lia.
Defined.

Definition sample_decrypt (h : euint32) : Z := h mod 2 ^ 32.

(** ** A run of the contract: deploy, register, propose, commit, reveal,
       execute *)

Section Scenario.
#[local] Existing Instances sample_keccak sample_FHE.

Definition deployer : address := 1.
Definition alice : address := 2.
Definition bob : address := 3.
Definition t0 : Z := 1700000000.
Definition env (who : address) (t : Z) : Env := mkEnv who t 4096.

Definition alice_hash : bytes32 := generateVoteHash (env alice t0) true 7.

Definition st_open : State :=
  run [(env deployer t0, CallSetVoterWeight deployer 100);
       (env deployer t0, CallSetVoterWeight alice (2 ^ 32 + 5));
       (env deployer t0, CallCreateProposal "Raise quorum" "Raise the quorum to 60%")]
      (constructor (env deployer t0)).

Definition st_committed : State :=
  run [(env alice (t0 + 10), CallCommitVote 1 alice_hash)] st_open.

(** A second voter, whose weight is a multiple of 2^32: the handle of his
    encrypted weight is the handle of the trivial encryption of 0, which is
    what the counters of a new proposal hold, so his reveal goes through and
    leaves a counter that the contract is allowed on. *)
Definition bob_hash : bytes32 := generateVoteHash (env bob t0) true 9.

Definition st_ready : State :=
  run [(env deployer (t0 + 15), CallSetVoterWeight bob (2 ^ 32));
       (env bob (t0 + 20), CallCommitVote 1 bob_hash)] st_committed.

Definition st_primed : State :=
  run [(env bob (t0 + VOTING_DURATION), CallRevealVote 1 true 9)] st_ready.

Definition st_revealed : State :=
  run [(env alice (t0 + VOTING_DURATION), CallRevealVote 1 true 7)] st_primed.

Definition st_executed : State :=
  run [(env deployer (t0 + VOTING_DURATION + days), CallExecuteProposal 1)] st_revealed.

End Scenario.

End Voting.

(* ===================================================================== *)
(** * Part II: scripts/generate-docs.ts and the example registry          *)
(* ===================================================================== *)

(** ** JavaScript strings

    A string is the UTF-8 encoding of the JavaScript string, byte by byte.
    The patterns of the script are ASCII except for the white space and line
    terminator classes, whose multi-byte members are matched as byte
    sequences. *)

Module JS.
Local Open Scope string_scope.
Local Open Scope nat_scope.

Definition dquote : string := String "034"%char EmptyString.
Definition nl : string := String "010"%char EmptyString.
Definition esc : string := String "027"%char EmptyString.

Definition bytes (l : list nat) : string :=
  fold_right (fun n s => String (ascii_of_nat n) s) EmptyString l.

(** [s.startsWith(p)], returning what follows the prefix. *)
Fixpoint strip_prefix (p s : string) : option string :=
  match p, s with
  | EmptyString, _ => Some s
  | String a p', String b s' => if Ascii.eqb a b then strip_prefix p' s' else None
  | String _ _, EmptyString => None
  end.

Definition startsWith (p s : string) : bool :=
  match strip_prefix p s with Some _ => true | None => false end.

(** [s.includes(sub)] *)
Fixpoint includes (sub s : string) : bool :=
  startsWith sub s ||
  match s with
  | EmptyString => false
  | String _ r => includes sub r
  end.

(** [s.split("\n")] *)
Fixpoint split_lines (s : string) : list string :=
  match s with
  | EmptyString => [EmptyString]
  | String c r =>
      if Ascii.eqb c "010"%char then EmptyString :: split_lines r
      else match split_lines r with
           | l :: ls => String c l :: ls
           | [] => [String c EmptyString]
           end
  end.

(** [s.padEnd(n)] *)
Definition padEnd (n : nat) (s : string) : string :=
  s +:+ bytes (repeat 32 (n - String.length s)).

(** Template-literal rendering of a number and of a possibly undefined string. *)
Definition string_of_nat (n : nat) : string :=
  DecimalString.NilZero.string_of_uint (Nat.to_uint n).

Definition render (v : option string) : string :=
  match v with Some s => s | None => "undefined" end.

(** *** Character classes *)

(** Members of [\s] that take more than one byte: U+00A0, U+1680,
    U+2000..U+200A, U+2028, U+2029, U+202F, U+205F, U+3000, U+FEFF. *)
Definition wide_space : list string :=
  bytes [194; 160] :: bytes [225; 154; 128]
  :: map (fun k => bytes [226; 128; 128 + k]) (seq 0 11)
  ++ [bytes [226; 128; 168]; bytes [226; 128; 169]; bytes [226; 128; 175];
      bytes [226; 129; 159]; bytes [227; 128; 128]; bytes [239; 187; 191]].

Definition ascii_space (c : ascii) : bool :=
  let n := nat_of_ascii c in
  (9 <=? n) && (n <=? 13) || (n =? 32).

(** Number of bytes of the [\s] character at the head of [s]; 0 if none. *)
Definition space_len (s : string) : nat :=
  match s with
  | EmptyString => 0
  | String c _ =>
      if ascii_space c then 1
      else match find (fun w => startsWith w s) wide_space with
           | Some w => String.length w
           | None => 0
           end
  end.

(** [\w] *)
Definition word_char (c : ascii) : bool :=
  let n := nat_of_ascii c in
  (48 <=? n) && (n <=? 57) || (65 <=? n) && (n <=? 90)
  || (97 <=? n) && (n <=? 122) || (n =? 95).

(** The head of [s] is a line terminator: LF, CR, U+2028, U+2029. *)
Definition line_terminator (s : string) : bool :=
  match s with
  | EmptyString => false
  | String c _ =>
      Ascii.eqb c "010"%char || Ascii.eqb c "013"%char
      || startsWith (bytes [226; 128; 168]) s || startsWith (bytes [226; 128; 169]) s
  end.

Fixpoint drop (n : nat) (s : string) : string :=
  match n, s with
  | S k, String _ r => drop k r
  | _, _ => s
  end.

(** Greedy [\s*]: [pending] bytes of the current character are still to be
    passed. *)
Fixpoint skip_spaces_from (pending : nat) (s : string) : string :=
  match s with
  | EmptyString => EmptyString
  | String _ r =>
      match pending with
      | S k => skip_spaces_from k r
      | O => match space_len s with
             | O => s
             | S k => skip_spaces_from k r
             end
      end
  end.

Definition skip_spaces (s : string) : string := skip_spaces_from 0 s.

(** Greedy [\w+] at the head: the word and what follows. *)
Fixpoint take_word (s : string) : string :=
  match s with
  | String c r => if word_char c then String c (take_word r) else EmptyString
  | EmptyString => EmptyString
  end.

End JS.

(** ** scripts/create-fhevm-example.ts: the registry of examples *)

Module CreateExample.
Local Open Scope string_scope.

Record ExampleConfig := mkExampleConfig {
  contract : string;
  test : string;
  description : string;
}.

(** An object literal: its own properties, in insertion order. *)
Definition EXAMPLES_MAP : list (string * ExampleConfig) :=
  [("fhe-counter",
    mkExampleConfig "contracts/basic/FHECounter.sol" "test/basic/FHECounter.ts"
      "Basic encrypted counter demonstrating FHE operations, permissions, and arithmetic");
   ("encrypt-single-value",
    mkExampleConfig "contracts/basic/EncryptSingleValue.sol" "test/basic/EncryptSingleValue.ts"
      "Demonstrates encrypted input validation, proof verification, and common pitfalls");
   ("fhevm-voting",
    mkExampleConfig "base-template/contracts/FHEMVoting.sol" "base-template/test/FHEMVoting.ts"
      "Advanced voting system with commit-reveal, weighted votes, and multi-phase governance")].

End CreateExample.

(** ** scripts/generate-docs.ts *)

Module GenerateDocs.
Import JS.
Local Open Scope string_scope.
Local Open Scope nat_scope.

Record DocConfig := mkDocConfig {
  name : string;
  description : string;
  contractFile : string;
  testFile : string;
  category : string;
}.

Definition DOCS_CONFIG : list (string * DocConfig) :=
  [("fhevm-voting",
    mkDocConfig "FHEVM Voting System"
      "Privacy-preserving voting using Fully Homomorphic Encryption"
      "base-template/contracts/FHEMVoting.sol"
      "base-template/test/FHEMVoting.ts"
      "Advanced Examples")].

(** [Object.keys(o)] and the own-property lookup. *)
Definition keys {A} (o : list (string * A)) : list string := map fst o.

Fixpoint own {A} (o : list (string * A)) (k : string) : option A :=
  match o with
  | [] => None
  | (k', v) :: rest => if String.eqb k' k then Some v else own rest k
  end.

(** *** What [DOCS_CONFIG[key]] evaluates to

    The registry is an object literal, so a key it does not own is looked up
    on Object.prototype before the access gives undefined. *)

Inductive value : Type :=
| VUndefined
| VConfig (c : DocConfig)
| VFunction (fname : string)
| VObjectPrototype.

Definition Object_prototype : list (string * value) :=
  [("constructor", VFunction "Object");
   ("__defineGetter__", VFunction "__defineGetter__");
   ("__defineSetter__", VFunction "__defineSetter__");
   ("hasOwnProperty", VFunction "hasOwnProperty");
   ("__lookupGetter__", VFunction "__lookupGetter__");
   ("__lookupSetter__", VFunction "__lookupSetter__");
   ("isPrototypeOf", VFunction "isPrototypeOf");
   ("propertyIsEnumerable", VFunction "propertyIsEnumerable");
   ("toString", VFunction "toString");
   ("valueOf", VFunction "valueOf");
   ("__proto__", VObjectPrototype);
   ("toLocaleString", VFunction "toLocaleString")].

Definition get (o : list (string * DocConfig)) (k : string) : value :=
  match own o k with
  | Some c => VConfig c
  | None => match own Object_prototype k with
            | Some v => v
            | None => VUndefined
            end
  end.

Definition truthy (v : value) : bool :=
  match v with VUndefined => false | _ => true end.

(** Member accesses [config.name], [config.description], ...: a function has
    a [name] and none of the other fields; Object.prototype has none. *)
Definition get_name (v : value) : option string :=
  match v with
  | VConfig c => Some (name c)
  | VFunction f => Some f
  | _ => None
  end.

Definition get_field (f : DocConfig -> string) (v : value) : option string :=
  match v with
  | VConfig c => Some (f c)
  | _ => None
  end.

(** *** extractNatSpec *)

(** [line.replace(/^\s*\/\/\/\s?/, "")] *)
Definition doc_line (line : string) : string :=
  match strip_prefix "///" (skip_spaces line) with
  | Some r => drop (space_len r) r
  | None => line
  end.

Definition has_declaration (line : string) : bool :=
  includes "function " line || includes "modifier " line || includes "contract " line.

(** [/(?:function|modifier|contract)\s+(\w+)/] anchored at the head of [s]. *)
Definition declaration_at (s : string) : option string :=
  let keyword :=
    match strip_prefix "function" s with
    | Some r => Some r
    | None => match strip_prefix "modifier" s with
              | Some r => Some r
              | None => strip_prefix "contract" s
              end
    end in
  match keyword with
  | Some r =>
      match space_len r with
      | O => None
      | S _ => match take_word (skip_spaces r) with
               | EmptyString => None
               | w => Some w
               end
      end
  | None => None
  end.

(** [line.match(...)]: the leftmost match, its capture group. *)
Fixpoint declaration_name (s : string) : option string :=
  match declaration_at s with
  | Some w => Some w
  | None => match s with
            | EmptyString => None
            | String _ r => declaration_name r
            end
  end.

Definition bind_declaration (line docBlock : string) (m : gmap string string)
  : gmap string string :=
  match declaration_name line with
  | Some functionName => <[functionName := docBlock]> m
  | None => m
  end.

(** The outer loop ([scan]), the loop that collects a run of [///] lines
    ([collect]) and the loop that looks for the next declaration
    ([find_declaration]); after a declaration line the outer loop resumes on
    the line that follows it. *)
Fixpoint scan (lines : list string) (m : gmap string string) : gmap string string :=
  match lines with
  | [] => m
  | l :: rest =>
      if includes "///" l then collect rest (doc_line l +:+ nl) m else scan rest m
  end
with collect (lines : list string) (docBlock : string) (m : gmap string string)
  : gmap string string :=
  match lines with
  | [] => m
  | l :: rest =>
      if includes "///" l then collect rest (docBlock +:+ doc_line l +:+ nl) m
      else if has_declaration l then scan rest (bind_declaration l docBlock m)
      else find_declaration rest docBlock m
  end
with find_declaration (lines : list string) (docBlock : string) (m : gmap string string)
  : gmap string string :=
  match lines with
  | [] => m
  | l :: rest =>
      if has_declaration l then scan rest (bind_declaration l docBlock m)
      else find_declaration rest docBlock m
  end.

Definition extractNatSpec (content : string) : gmap string string :=
  scan (split_lines content) ∅.

(** *** extractTestPatterns *)

(** The lazy [.+?] once its first character is taken, up to the closing
    quote and comma: the rest of the capture and what follows the match. *)
Fixpoint lazy_title (s : string) : option (string * string) :=
  match strip_prefix (dquote +:+ ",") s with
  | Some rest => Some (EmptyString, rest)
  | None =>
      match s with
      | EmptyString => None
      | String c r =>
          if line_terminator s then None
          else match lazy_title r with
               | Some (cap, rest) => Some (String c cap, rest)
               | None => None
               end
      end
  end.

(** [/it\("(.+?)",/] anchored at the head of [s]. *)
Definition test_at (s : string) : option (string * string) :=
  match strip_prefix ("it(" +:+ dquote) s with
  | Some (String c r as body) =>
      if line_terminator body then None
      else match lazy_title r with
           | Some (cap, rest) => Some (String c cap, rest)
           | None => None
           end
  | _ => None
  end.

(** The [exec] loop of the global regular expression: [skip] is the distance
    from the current position to [lastIndex]. *)
Fixpoint scan_tests (skip : nat) (s : string) : list string :=
  match s with
  | EmptyString => []
  | String _ r =>
      match skip with
      | S k => scan_tests k r
      | O => match test_at s with
             | Some (cap, rest) =>
                 cap :: scan_tests (String.length s - String.length rest - 1) r
             | None => scan_tests 0 r
             end
      end
  end.

Definition extractTestPatterns (content : string) : list string := scan_tests 0 content.

(** *** The process: file system, standard output, exit and exceptions *)

Inductive node : Type :=
| File (content : string)
| Dir.

Record World := mkWorld {
  fs : gmap string node;
  stdout : list string;
}.

Inductive outcome (A : Type) : Type :=
| Done (a : A)
| Exit (code : Z)
| Throw (err : string).
Arguments Done {A} a.
Arguments Exit {A} code.
Arguments Throw {A} err.

Definition M (A : Type) : Type := World -> World * outcome A.

#[global] Instance M_ret : MRet M := fun _ a w => (w, Done a).
#[global] Instance M_bind : MBind M := fun _ _ f m w =>
  match m w with
  | (w', Done a) => f a w'
  | (w', Exit c) => (w', Exit c)
  | (w', Throw e) => (w', Throw e)
  end.

Definition process_exit {A} (code : Z) : M A := fun w => (w, Exit code).
Definition throw {A} (err : string) : M A := fun w => (w, Throw err).

(** [try { body } catch (err) { handler }]: [process.exit] is not caught. *)
Definition try_catch {A} (body : M A) (handler : string -> M A) : M A := fun w =>
  match body w with
  | (w', Throw e) => handler e w'
  | r => r
  end.

Fixpoint for_each {A} (l : list A) (f : A -> M unit) : M unit :=
  match l with
  | [] => mret tt
  | x :: rest => f x ;; for_each rest f
  end.

Definition console_log (line : string) : M unit := fun w =>
  (mkWorld (fs w) (stdout w ++ [line]), Done tt).

(** [fs.existsSync]: false for a path that is not a string. *)
Definition existsSync (p : option string) : M bool := fun w =>
  (w, Done match p with
           | Some path => bool_decide (is_Some (fs w !! path))
           | None => false
           end).

(** The path as Node appends it to the message of a failed [open] or
    [mkdir]; a failed [read] names no path. *)
Definition quoted (path : string) : string := "'" +:+ path +:+ "'".

Definition readFileSync (p : option string) : M string := fun w =>
  match p with
  | Some path =>
      match fs w !! path with
      | Some (File content) => (w, Done content)
      | Some Dir => (w, Throw "Error: EISDIR: illegal operation on a directory, read")
      | None => (w, Throw ("Error: ENOENT: no such file or directory, open " +:+ quoted path))
      end
  | None =>
      (w, Throw ("TypeError [ERR_INVALID_ARG_TYPE]: The " +:+ dquote +:+ "path" +:+ dquote
                 +:+ " argument must be of type string or an instance of Buffer or URL."
                 +:+ " Received undefined"))
  end.

(** [fs.mkdirSync(p, { recursive: true })] *)
Definition mkdirSync (path : string) : M unit := fun w =>
  match fs w !! path with
  | Some (File _) => (w, Throw ("Error: EEXIST: file already exists, mkdir " +:+ quoted path))
  | _ => (mkWorld (<[path := Dir]> (fs w)) (stdout w), Done tt)
  end.

(** The text before the last slash, if there is a slash. *)
Fixpoint parent (path : string) : option string :=
  match path with
  | EmptyString => None
  | String c r =>
      match parent r with
      | Some d => Some (String c d)
      | None => if Ascii.eqb c "/"%char then Some EmptyString else None
      end
  end.

Definition writeFileSync (path data : string) : M unit := fun w =>
  match fs w !! path with
  | Some Dir =>
      (w, Throw ("Error: EISDIR: illegal operation on a directory, open " +:+ quoted path))
  | _ =>
      let written := (mkWorld (<[path := File data]> (fs w)) (stdout w), Done tt) in
      match parent path with
      | None => written
      | Some d =>
          match fs w !! d with
          | Some Dir => written
          | Some (File _) =>
              (w, Throw ("Error: ENOTDIR: not a directory, open " +:+ quoted path))
          | None =>
              (w, Throw ("Error: ENOENT: no such file or directory, open " +:+ quoted path))
          end
      end
  end.

(** [path.join(dir, file)] for a [file] that is a single segment, as every
    name that reaches it is. *)
Definition path_join (dir file : string) : string := dir +:+ "/" +:+ file.

(** *** Logging *)

Inductive Color : Type := Reset | Green | Blue | Yellow | Red | Cyan.

Definition color_code (c : Color) : string :=
  match c with
  | Reset => esc +:+ "[0m"
  | Green => esc +:+ "[32m"
  | Blue => esc +:+ "[34m"
  | Yellow => esc +:+ "[33m"
  | Red => esc +:+ "[31m"
  | Cyan => esc +:+ "[36m"
  end.

Definition log (message : string) (color : Color) : M unit :=
  console_log (color_code color +:+ message +:+ color_code Reset).

Definition error {A} (message : string) : M A :=
  log ("❌ Error: " +:+ message) Red ;; process_exit 1.

Definition success (message : string) : M unit := log ("✅ " +:+ message) Green.

Definition info (message : string) : M unit := log ("ℹ️  " +:+ message) Blue.

Definition showHelp : M unit :=
  log "FHEVM Documentation Generator" Cyan ;;
  log ("==============================" +:+ nl) Cyan ;;
  console_log (String.concat nl
    ["Usage: npx ts-node scripts/generate-docs.ts [example-name]";
     "";
     "Arguments:";
     "  example-name    Name of the example (optional)";
     "";
     "Options:";
     "  --all           Generate documentation for all examples";
     "  --help          Show this help message";
     "  --list          List available examples";
     "";
     "Available Examples:"]) ;;
  for_each DOCS_CONFIG (fun entry =>
    console_log ("  " +:+ padEnd 20 (fst entry) +:+ " " +:+ description (snd entry))) ;;
  console_log (String.concat nl
    ["";
     "Examples:";
     "  npx ts-node scripts/generate-docs.ts fhevm-voting";
     "  npx ts-node scripts/generate-docs.ts --all"]).

Definition listExamples : M unit :=
  log "Available Documentation Examples:" Cyan ;;
  log ("==================================" +:+ nl) Cyan ;;
  for_each DOCS_CONFIG (fun entry =>
    log ("📚 " +:+ fst entry) Green ;;
    console_log ("   " +:+ description (snd entry)) ;;
    console_log ("   Category: " +:+ category (snd entry) +:+ nl)).

(** *** generateDocumentation

    The text appended to [doc], statement by statement. The literal of the
    line that ends the Encrypted Arithmetic list is read as the double-quoted
    literal it opens. *)

Definition FUNCTION_NAMES : list string :=
  ["createProposal"; "commitVote"; "revealVote"; "executeProposal"].

(** Title, description, Overview and Key Concepts. *)
Definition doc_header (config : value) : string :=
  String.concat ""
    ["# " +:+ render (get_name config) +:+ nl +:+ nl;
     render (get_field description config) +:+ nl +:+ nl;
     "## Overview" +:+ nl +:+ nl;
     "This example demonstrates secure voting using FHEVM encryption." +:+ nl +:+ nl;
     "## Key Concepts" +:+ nl +:+ nl;
     "### 1. Fully Homomorphic Encryption (FHEVM)" +:+ nl;
     "- Encrypt data on-chain" +:+ nl;
     "- Perform computations on encrypted values" +:+ nl;
     "- Decrypt results only by authorized parties" +:+ nl +:+ nl;
     "### 2. Commit-Reveal Voting" +:+ nl;
     "- **Commit Phase**: Voters submit vote commitments (hashes)" +:+ nl;
     "- **Reveal Phase**: Voters reveal actual votes with verification" +:+ nl;
     "- Prevents vote selling and coercion" +:+ nl +:+ nl;
     "### 3. Weighted Voting" +:+ nl;
     "- Different voting power for different participants" +:+ nl;
     "- Governance token integration" +:+ nl;
     "- Batch weight assignment" +:+ nl +:+ nl].

(** One Key Functions entry per listed function that has a NatSpec block. *)
Definition function_entry (natSpecMap : gmap string string) (funcName : string) : string :=
  match natSpecMap !! funcName with
  | Some docBlock => "#### " +:+ funcName +:+ nl +:+ docBlock +:+ nl +:+ nl
  | None => ""
  end.

(** The Smart Contract section, from the text of the contract file. *)
Definition contract_section (contractContent : string) : string :=
  let natSpecMap := extractNatSpec contractContent in
  String.concat ""
    ["## Smart Contract" +:+ nl +:+ nl;
     "### Key Functions" +:+ nl +:+ nl;
     String.concat "" (map (function_entry natSpecMap) FUNCTION_NAMES);
     "### Data Structures" +:+ nl +:+ nl;
     "The contract manages:" +:+ nl;
     "- **Proposals**: Voting items with voting windows" +:+ nl;
     "- **Vote Commitments**: Hash-based vote privacy" +:+ nl;
     "- **Voter Weights**: Weighted voting power system" +:+ nl +:+ nl].

(** A titled list of at most five test titles, or nothing when there is none. *)
Definition test_group (heading : string) (tests : list string) : string :=
  if (0 <? length tests)%nat then
    heading +:+ nl
    +:+ String.concat "" (map (fun t => "- " +:+ t +:+ nl) (firstn 5 tests))
    +:+ nl
  else "".

(** The Testing section, from the text of the test file. *)
Definition testing_section (testContent : string) : string :=
  let testPatterns := extractTestPatterns testContent in
  let successTests := filter (fun p => includes "✅" p = true) testPatterns in
  let failureTests := filter (fun p => includes "❌" p = true) testPatterns in
  String.concat ""
    ["## Testing" +:+ nl +:+ nl;
     "The test suite includes " +:+ string_of_nat (length testPatterns)
       +:+ " comprehensive tests covering:" +:+ nl +:+ nl;
     test_group "### Success Cases (✅)" successTests;
     test_group "### Error Handling (❌)" failureTests;
     "### Running Tests" +:+ nl +:+ nl;
     "```bash" +:+ nl;
     "npm test" +:+ nl;
     "```" +:+ nl +:+ nl;
     "With coverage report:" +:+ nl +:+ nl;
     "```bash" +:+ nl;
     "npm run coverage" +:+ nl;
     "```" +:+ nl +:+ nl].

(** Patterns, Security, Best Practices, Quick Start, Resources, License. The
    statement of line 271, which ends the Encrypted Arithmetic list, is taken
    with its literal closed; as written it does not parse (see [line_271] and
    [generate_docs]). *)
Definition doc_footer : string :=
  String.concat ""
    ["## FHEVM Patterns Demonstrated" +:+ nl +:+ nl;
     "### 1. Encrypted Value Operations" +:+ nl;
     "```solidity" +:+ nl;
     "// Create encrypted value" +:+ nl;
     "euint32 encryptedVotes = FHE.asEuint32(0);" +:+ nl;
     nl;
     "// Add encrypted values" +:+ nl;
     "encryptedVotes = FHE.add(encryptedVotes, encryptedWeight);" +:+ nl;
     nl;
     "// Grant permissions" +:+ nl;
     "FHE.allowThis(encryptedVotes);" +:+ nl;
     "FHE.allow(encryptedVotes, msg.sender);" +:+ nl;
     "```" +:+ nl +:+ nl;
     "### 2. Access Control with FHE" +:+ nl;
     "- **FHE.allowThis()**: Contract can access encrypted value" +:+ nl;
     "- **FHE.allow()**: User can decrypt their own values" +:+ nl;
     "- Prevents unauthorized access to encrypted data" +:+ nl +:+ nl;
     "### 3. Encrypted Arithmetic" +:+ nl;
     "- FHE.add for vote accumulation" +:+ nl;
     "- FHE.sub for subtraction operations" +:+ nl;
     "- FHE.eq for equality comparisons" +:+ nl +:+ nl;
     "## Security Considerations" +:+ nl +:+ nl;
     "### Vote Privacy" +:+ nl;
     "- Votes are encrypted during commit phase" +:+ nl;
     "- Only participants can decrypt their own votes" +:+ nl;
     "- Double-spending (double voting) prevented" +:+ nl +:+ nl;
     "### Cryptographic Security" +:+ nl;
     "- Keccak-256 hashing for vote commitments" +:+ nl;
     "- Nonce prevents vote prediction" +:+ nl;
     "- Hash verification prevents tampering" +:+ nl +:+ nl;
     "### Smart Contract Security" +:+ nl;
     "- Access control for administrative functions" +:+ nl;
     "- State validation throughout voting phases" +:+ nl;
     "- Emergency proposal pause functionality" +:+ nl +:+ nl;
     "## Best Practices" +:+ nl +:+ nl;
     "### For Developers" +:+ nl;
     "1. Always use both FHE.allowThis() and FHE.allow()" +:+ nl;
     "2. Verify vote commitments before tallying" +:+ nl;
     "3. Use cryptographically secure random nonces" +:+ nl;
     "4. Test encrypted operations thoroughly" +:+ nl +:+ nl;
     "### For Users" +:+ nl;
     "1. Save your nonce immediately after committing" +:+ nl;
     "2. Don't reuse nonces across different votes" +:+ nl;
     "3. Verify contract address before voting" +:+ nl;
     "4. Keep private keys secure" +:+ nl +:+ nl;
     "## Quick Start" +:+ nl +:+ nl;
     "```bash" +:+ nl;
     "# Install dependencies" +:+ nl;
     "npm install" +:+ nl;
     nl;
     "# Compile contracts" +:+ nl;
     "npm run compile" +:+ nl;
     nl;
     "# Run tests" +:+ nl;
     "npm test" +:+ nl;
     nl;
     "# Deploy locally" +:+ nl;
     "npx hardhat run scripts/deploy.ts --network localhost" +:+ nl;
     "```" +:+ nl +:+ nl;
     "## Resources" +:+ nl +:+ nl;
     "- [FHEVM Documentation](https://docs.zama.ai/fhevm)" +:+ nl;
     "- [FHEVM GitHub Repository](https://github.com/zama-ai/fhevm)" +:+ nl;
     "- [Zama Community](https://www.zama.ai/community)" +:+ nl;
     "- [Discord Server](https://discord.com/invite/zama)" +:+ nl +:+ nl;
     "## License" +:+ nl +:+ nl;
     "BSD-3-Clause-Clear License" +:+ nl +:+ nl;
     "---" +:+ nl +:+ nl;
     "**Built for the Zama FHEVM Bounty Program**" +:+ nl +:+ nl;
     "*Advancing privacy-preserving blockchain governance with Fully Homomorphic Encryption*"
       +:+ nl].

(** Reading a member of [undefined] throws a TypeError. *)
Definition generateDocumentation (exampleName : string) (config : value) : M string :=
  match config with
  | VUndefined => throw "TypeError: Cannot read properties of undefined (reading 'name')"
  | _ =>
      let doc := doc_header config in
      hasContract ← existsSync (get_field contractFile config) ;
      doc ← (if hasContract : bool then
               contractContent ← readFileSync (get_field contractFile config) ;
               mret (doc +:+ contract_section contractContent)
             else mret doc) ;
      hasTest ← existsSync (get_field testFile config) ;
      doc ← (if hasTest : bool then
               testContent ← readFileSync (get_field testFile config) ;
               mret (doc +:+ testing_section testContent)
             else mret doc) ;
      mret (doc +:+ doc_footer)
  end.

(** *** generateSummary *)

Definition summary_entry (example : string) : string :=
  let config := get DOCS_CONFIG example in
  if truthy config then
    "- [" +:+ render (get_name config) +:+ "](" +:+ example +:+ ".md)" +:+ nl
  else "".

Definition generateSummary (examples : list string) : string :=
  String.concat ""
    ["# FHEVM Voting Examples Documentation" +:+ nl +:+ nl;
     "## Introduction" +:+ nl +:+ nl;
     "This documentation covers FHEVM voting examples demonstrating privacy-preserving governance."
       +:+ nl +:+ nl;
     "## Table of Contents" +:+ nl +:+ nl;
     String.concat "" (map summary_entry examples);
     nl +:+ "## Quick Links" +:+ nl +:+ nl;
     "- [FHEVM Documentation](https://docs.zama.ai/fhevm)" +:+ nl;
     "- [GitHub Repository](https://github.com/zama-ai/fhevm-secure-voting)" +:+ nl;
     "- [Zama Community](https://www.zama.ai/community)" +:+ nl].

(** *** Main execution *)

Definition has_arg (flag : string) (args : list string) : bool :=
  existsb (String.eqb flag) args.

Definition examplesDir : string := "examples".

Definition selected_examples (args : list string) : M (list string) :=
  if has_arg "--all" args then
    info "Generating documentation for all examples..." ;;
    mret (keys DOCS_CONFIG)
  else
    match args with
    | exampleName :: _ =>
        (if negb (truthy (get DOCS_CONFIG exampleName))
         then error ("Unknown example: " +:+ exampleName)
         else mret tt) ;;
        mret [exampleName]
    | [] => error "No example specified. Use --help for usage information."
    end.

Definition generate_one (exampleName : string) : M unit :=
  let config := get DOCS_CONFIG exampleName in
  info ("Generating documentation for: " +:+ exampleName) ;;
  documentation ← generateDocumentation exampleName config ;
  let docFilePath := path_join examplesDir (exampleName +:+ ".md") in
  writeFileSync docFilePath documentation ;;
  success ("Documentation generated: " +:+ docFilePath).

Definition generate_all (args : list string) : M unit :=
  dirExists ← existsSync (Some examplesDir) ;
  (if negb dirExists then mkdirSync examplesDir else mret tt) ;;
  exampleNames ← selected_examples args ;
  for_each exampleNames generate_one ;;
  (if has_arg "--all" args || (1 <? length exampleNames)%nat then
     let summary := generateSummary exampleNames in
     let summaryPath := path_join examplesDir "SUMMARY.md" in
     writeFileSync summaryPath summary ;;
     success ("Summary generated: " +:+ summaryPath)
   else mret tt) ;;
  success "Documentation generation complete!" ;;
  info ("View documentation in: " +:+ examplesDir +:+ "/").

(** [args] is [process.argv.slice(2)]. *)
Definition main (args : list string) : M unit :=
  (if has_arg "--help" args || has_arg "-h" args
   then showHelp ;; process_exit 0 else mret tt) ;;
  (if has_arg "--list" args || has_arg "-l" args
   then listExamples ;; process_exit 0 else mret tt) ;;
  try_catch (generate_all args)
    (fun err => error ("Documentation generation failed: " +:+ err)).

(** The exit code of the process: 0 when the script runs to its end. An
    exception cannot escape [main], whose handler exits with 1. *)
Definition exit_code (r : outcome unit) : Z :=
  match r with
  | Done _ => 0
  | Exit code => code
  | Throw _ => 1
  end.

(** The flags that [main] recognises. *)
Definition FLAGS : list string := ["--help"; "-h"; "--list"; "-l"; "--all"].

(** *** The line that ends the Encrypted Arithmetic list, as source text

    ECMAScript ends a double-quoted string literal at the next unescaped
    double quote; a line terminator met before it leaves the literal
    unterminated, which is a syntax error. *)

Definition line_271 : string :=
  "  doc += " +:+ dquote +:+ "- FHE.eq for equality comparisons\n\n`;" +:+ nl.

Definition line_270 : string :=
  "  doc += " +:+ dquote +:+ "- FHE.sub for subtraction operations\n" +:+ dquote +:+ ";" +:+ nl.

Inductive literal : Type :=
| Closed (body rest : string)
| Unterminated.

Definition literal_cons (c : ascii) (l : literal) : literal :=
  match l with
  | Closed body rest => Closed (String c body) rest
  | Unterminated => Unterminated
  end.

(** The characters of a double-quoted literal, after its opening quote, as
    written in the source: a backslash escapes the character that follows it
    (a line terminator included, CR LF counting as one). *)
Fixpoint double_quoted (escaped : bool) (s : string) : literal :=
  match s with
  | EmptyString => Unterminated
  | String c r =>
      if escaped then
        match r with
        | String d r2 =>
            if Ascii.eqb c "013"%char && Ascii.eqb d "010"%char
            then literal_cons c (literal_cons d (double_quoted false r2))
            else literal_cons c (double_quoted false r)
        | EmptyString => literal_cons c (double_quoted false r)
        end
      else if Ascii.eqb c "034"%char then Closed EmptyString r
      else if line_terminator s then Unterminated
      else literal_cons c (double_quoted (Ascii.eqb c "\"%char) r)
  end.

(** The first double-quoted literal of a line, if the line opens one. *)
Fixpoint first_literal (s : string) : option literal :=
  match s with
  | EmptyString => None
  | String c r =>
      if Ascii.eqb c "034"%char then Some (double_quoted false r) else first_literal r
  end.

(** *** The script as it is shipped

    ts-node compiles the whole file before it runs any statement of it. A
    statement that does not parse stops it there: no statement of the script
    runs, the diagnostic goes to standard error, and the process ends with
    exit code 1. [doc_footer], and with it [generateDocumentation],
    [generate_all] and [main], are the script with the literal of line 271
    closed as the literals of the lines around it are. *)



(** *** Vocabulary of the specification *)

(** At [path] there is nothing, or a regular file. *)
Definition absent_or_file (w : World) (path : string) : Prop :=
  fs w !! path = None \/ exists content, fs w !! path = Some (File content).

(** The section that a file contributes to the page. *)
Definition section_of (w : World) (path : string) (section : string -> string) : string :=
  match fs w !! path with
  | Some (File content) => section content
  | _ => ""
  end.

Definition empty_world : World := mkWorld ∅ [].

(** The two tests on the arguments that [main] makes before anything else. *)
Definition wants_help (args : list string) : bool :=
  has_arg "--help" args || has_arg "-h" args.

Definition wants_list (args : list string) : bool :=
  has_arg "--list" args || has_arg "-l" args.

(** Where the page of an example and the summary are written. *)
Definition page_path (exampleName : string) : string :=
  path_join examplesDir (exampleName +:+ ".md").

Definition summary_path : string := path_join examplesDir "SUMMARY.md".

(** The page of a configuration over a file system: the header, the section
    of each of its two files that is there, the footer. *)
Definition page (c : DocConfig) (w : World) : string :=
  ((doc_header (VConfig c) +:+ section_of w (contractFile c) contract_section)
   +:+ section_of w (testFile c) testing_section) +:+ doc_footer.

(** What makes the run for one example fail: a directory where a source file
    or the page is expected, or a regular file where the examples directory
    is expected. *)
Definition unreadable (c : DocConfig) (w : World) : Prop :=
  fs w !! contractFile c = Some Dir \/ fs w !! testFile c = Some Dir.

Definition unwritable (exampleName : string) (w : World) : Prop :=
  (exists content, fs w !! examplesDir = Some (File content))
  \/ fs w !! page_path exampleName = Some Dir.

(** The examples directory and what is under it. *)
Definition inside_examples (path : string) : bool :=
  String.eqb path examplesDir || startsWith (examplesDir +:+ "/") path.

(** A step of the script that can end the process only with exit code 1,
    that writes only inside the examples directory, and that removes
    nothing. *)
Definition contained {A} (m : M A) : Prop :=
  forall w,
    match snd (m w) with Exit code => code = 1%Z | _ => True end
    /\ (forall p, inside_examples p = false -> fs (fst (m w)) !! p = fs w !! p)
    /\ (forall p, is_Some (fs w !! p) -> is_Some (fs (fst (m w)) !! p)).

(** A step that only prints. *)
Definition prints_only (m : M unit) : Prop :=
  forall w, snd (m w) = Done tt /\ fs (fst (m w)) = fs w.

(** A step that prints the given lines and does nothing else. *)
Definition prints (m : M unit) (lines : list string) : Prop :=
  forall w, m w = (mkWorld (fs w) (stdout w ++ lines), Done tt).

(** A string of [\w] characters. *)
Fixpoint all_word (s : string) : bool :=
  match s with
  | EmptyString => true
  | String c r => word_char c && all_word r
  end.

(** A test title that holds no double quote and no line terminator. *)
Fixpoint plain_title (t : string) : bool :=
  match t with
  | EmptyString => true
  | String c r => negb (Ascii.eqb c "034"%char) && negb (line_terminator t) && plain_title r
  end.

(** The text of a test declaration, from [it(] to the comma after the title. *)
Definition test_declaration (t : string) : string :=
  "it(" +:+ dquote +:+ t +:+ dquote +:+ ",".

(** What every entry of a NatSpec map satisfies: the name is a non-empty
    string of [\w] characters and the block ends with a line feed. *)
Definition documented (m : gmap string string) : Prop :=
  forall k v, m !! k = Some v ->
    k <> "" /\ all_word k = true /\ exists body, v = body +:+ nl.

(** [n] spaces of indentation. *)
Definition indent (n : nat) : string := bytes (repeat 32%nat n).

End GenerateDocs.

Module VotingSpec.
Import Voting.

Section Properties.
Context `{!Keccak, !FHE}.

(** ** Inversion of [require] and of checked addition *)

Lemma require_Ok c m u : require c m = Ok u <-> c = true.
Proof. destruct c, u; simpl; split; congruence. Qed.

Lemma checked_add_Ok a b r : checked_add a b = Ok r <-> (a + b <= MAX_UINT256 /\ r = a + b).
Proof.
  unfold checked_add. destruct (Z.leb_spec (a + b) MAX_UINT256); split.
  - intros [= <-]. split; [assumption | reflexivity].
  - intros [_ ->]. reflexivity.
  - discriminate.
  - intros [Hle _]. lia.
Qed.

Ltac req H :=
  match type of H with
  | context [require ?c _] =>
      let E := fresh "E" in destruct c eqn:E; simpl in H; try discriminate H
  | context [checked_add ?a ?b] =>
      let E := fresh "E" in destruct (checked_add a b) eqn:E; simpl in H; try discriminate H
  end.

Ltac boolp :=
  repeat match goal with
  | H : negb _ = true |- _ => apply negb_true_iff in H
  | H : negb _ = false |- _ => apply negb_false_iff in H
  | H : (_ <=? _) = true |- _ => apply Z.leb_le in H
  | H : (_ <=? _) = false |- _ => apply Z.leb_gt in H
  | H : (_ <? _) = true |- _ => apply Z.ltb_lt in H
  | H : (_ <? _) = false |- _ => apply Z.ltb_ge in H
  | H : (_ =? _) = true |- _ => apply Z.eqb_eq in H
  | H : (_ =? _) = false |- _ => apply Z.eqb_neq in H
  | H : bool_decide _ = true |- _ => apply bool_decide_eq_true in H
  | H : bool_decide _ = false |- _ => apply bool_decide_eq_false in H
  | H : checked_add _ _ = Ok _ |- _ => apply checked_add_Ok in H as [? ->]
  end.

(** ** The access-control list *)

Lemma isAllowed_head persistent transient h a :
  isAllowed persistent ((h, a) :: transient) h a = true.
Proof.
  unfold isAllowed. rewrite bool_decide_eq_true_2 by (apply elem_of_cons; left; reflexivity).
  reflexivity.
Qed.

Lemma isAllowed_tail persistent transient g h a :
  isAllowed persistent transient h a = true ->
  isAllowed persistent (g :: transient) h a = true.
Proof.
  unfold isAllowed. intros Ha. apply orb_true_iff in Ha as [Ha|Ha].
  - apply bool_decide_eq_true in Ha.
    rewrite bool_decide_eq_true_2 by (apply elem_of_cons; right; exact Ha). reflexivity.
  - rewrite Ha. apply orb_true_r.
Qed.

Lemma isAllowed_single persistent h h' a :
  isAllowed persistent [(h', a)] h a = (h =? h') || bool_decide ((h, a) ∈ persistent).
Proof.
  unfold isAllowed. f_equal. destruct (Z.eqb_spec h h') as [->|Hne].
  - apply bool_decide_eq_true_2, list_elem_of_singleton. reflexivity.
  - apply bool_decide_eq_false_2. rewrite list_elem_of_singleton. congruence.
Qed.

(** [FHE.add] of a stored counter and a weight that was just encrypted. *)
Lemma lib_add_weight e persistent c v :
  exists transient,
    lib_add e persistent c (FHE_asEuint32 v) [(FHE_asEuint32 v, this e)]
    = if (c =? 0) || (c =? FHE_asEuint32 v) || bool_decide ((c, this e) ∈ persistent)
      then Ok (FHE_add (initialised c) (FHE_asEuint32 v),
               (FHE_add (initialised c) (FHE_asEuint32 v), this e) :: transient)
      else Revert "ACLNotAllowed".
Proof.
  unfold lib_add, operand, lib_asEuint32, initialised.
  assert (Hv : (FHE_asEuint32 v =? 0) = false)
    by (apply Z.eqb_neq, FHE_asEuint32_initialized).
  destruct (c =? 0) eqn:Hc0; rewrite Hv; eexists.
  - rewrite isAllowed_head, (isAllowed_tail _ _ _ _ _ (isAllowed_head _ [] _ _)).
    reflexivity.
  - rewrite (isAllowed_head persistent [] (FHE_asEuint32 v) (this e)),
      (isAllowed_single persistent c (FHE_asEuint32 v) (this e)). cbn [orb].
    destruct ((c =? FHE_asEuint32 v) || bool_decide ((c, this e) ∈ persistent)); reflexivity.
Qed.

Lemma lib_allow_fresh e transient c account s :
  lib_allow e ((c, this e) :: transient) c account s
  = Ok (set_acl ((c, account) :: acl s) s).
Proof. unfold lib_allow. rewrite isAllowed_head. reflexivity. Qed.

(** ** Inversion of the three voting entry points *)

(** What [revealVote] does once its five requirements are met. *)
Lemma revealVote_tally e pid support nonce s :
  exists_proposal s pid = true ->
  votingEnd (proposal_at s pid) <= block_timestamp e ->
  voteHash (commitment_at s pid (msg_sender e)) <> 0 ->
  revealed (commitment_at s pid (msg_sender e)) = false ->
  keccak256 (encodePacked support nonce (msg_sender e))
    = voteHash (commitment_at s pid (msg_sender e)) ->
  revealVote e pid support nonce s
  = if counter_allowed e pid support s
    then Ok (revealed_state e pid support s,
             [VoteRevealed pid (msg_sender e) support (weight_of s (msg_sender e))])
    else Revert "ACLNotAllowed".
Proof.
  intros Hex Ht Hh Hr Hk. unfold revealVote.
  rewrite Hex, Hr, Hk. simpl.
  apply Z.leb_le in Ht. rewrite Ht. simpl.
  apply Z.eqb_neq in Hh. rewrite Hh. simpl.
  rewrite Z.eqb_refl. simpl.
  unfold counter_allowed, revealed_state, lib_allowThis.
  destruct support; cbn [tally];
    match goal with
    | |- context [lib_add e ?per ?c (FHE_asEuint32 ?v) _] =>
        destruct (lib_add_weight e per c v) as [transient ->];
        change per with (acl s);
        destruct ((c =? 0) || (c =? FHE_asEuint32 v) || bool_decide ((c, this e) ∈ acl s))
    end; cbn; rewrite ?lib_allow_fresh; cbn; rewrite ?lib_allow_fresh; reflexivity.
Qed.

Lemma revealVote_Ok e pid support nonce s out :
  revealVote e pid support nonce s = Ok out ->
  exists_proposal s pid = true
  /\ votingEnd (proposal_at s pid) <= block_timestamp e
  /\ voteHash (commitment_at s pid (msg_sender e)) <> 0
  /\ revealed (commitment_at s pid (msg_sender e)) = false
  /\ keccak256 (encodePacked support nonce (msg_sender e))
     = voteHash (commitment_at s pid (msg_sender e))
  /\ counter_allowed e pid support s = true
  /\ out = (revealed_state e pid support s,
            [VoteRevealed pid (msg_sender e) support (weight_of s (msg_sender e))]).
Proof.
  intros Hr.
  assert (Hreq : exists_proposal s pid = true
                 /\ votingEnd (proposal_at s pid) <= block_timestamp e
                 /\ voteHash (commitment_at s pid (msg_sender e)) <> 0
                 /\ revealed (commitment_at s pid (msg_sender e)) = false
                 /\ keccak256 (encodePacked support nonce (msg_sender e))
                    = voteHash (commitment_at s pid (msg_sender e))).
  { unfold revealVote in Hr.
    destruct (exists_proposal s pid); [| discriminate Hr].
    destruct (Z.leb_spec (votingEnd (proposal_at s pid)) (block_timestamp e));
      [| discriminate Hr].
    destruct (Z.eqb_spec (voteHash (commitment_at s pid (msg_sender e))) 0);
      [discriminate Hr |].
    destruct (revealed (commitment_at s pid (msg_sender e))); [discriminate Hr |].
    destruct (Z.eqb_spec (keccak256 (encodePacked support nonce (msg_sender e)))
                (voteHash (commitment_at s pid (msg_sender e)))); [| discriminate Hr].
    repeat split; assumption. }
  destruct Hreq as (Hex & Ht & Hh & Hrv & Hk).
  rewrite (revealVote_tally e pid support nonce s Hex Ht Hh Hrv Hk) in Hr.
  destruct (counter_allowed e pid support s); [| discriminate Hr].
  injection Hr as <-. repeat split; assumption.
Qed.

Lemma commitVote_Ok e pid h s out :
  commitVote e pid h s = Ok out ->
  votingOpen s = true
  /\ 0 < weight_of s (msg_sender e)
  /\ exists_proposal s pid = true
  /\ active (proposal_at s pid) = true
  /\ block_timestamp e < votingEnd (proposal_at s pid)
  /\ voteHash (commitment_at s pid (msg_sender e)) = 0
  /\ out = (set_voteCommitments
              (<[(pid, msg_sender e) :=
                   set_voteHash h (commitment_at s pid (msg_sender e))]> (voteCommitments s)) s,
            [VoteCommitted pid (msg_sender e) h]).
Proof.
  unfold commitVote, votingIsOpen. intros Hr. repeat req Hr. boolp.
  injection Hr as <-.
  repeat split; try assumption; lia.
Qed.

Lemma executeProposal_Ok e pid s out :
  executeProposal e pid s = Ok out ->
  exists_proposal s pid = true
  /\ votingEnd (proposal_at s pid) + 1 * days <= block_timestamp e
  /\ executed (proposal_at s pid) = false
  /\ active (proposal_at s pid) = true
  /\ out = (set_proposals (<[pid := set_executed true (proposal_at s pid)]> (proposals s)) s,
            [ProposalExecuted pid true (block_timestamp e)]).
Proof.
  unfold executeProposal. intros Hr. repeat req Hr. boolp.
  injection Hr as <-.
  repeat split; try assumption; lia.
Qed.

Lemma revealed_state_tally e pid support s :
  tally support (proposal_at (revealed_state e pid support s) pid)
  = FHE_add (initialised (tally support (proposal_at s pid)))
            (FHE_asEuint32 (uint32 (weight_of s (msg_sender e))))
  /\ tally (negb support) (proposal_at (revealed_state e pid support s) pid)
     = tally (negb support) (proposal_at s pid).
Proof.
  unfold revealed_state, proposal_at; cbn [proposals set_acl set_proposals].
  rewrite lookup_total_insert_eq. destruct support; split; reflexivity.
Qed.

(** ** The commitment check of revealVote *)

(** C1. A call revealVote(proposalId, support, nonce) succeeds only if
    keccak256(abi.encodePacked(support, nonce, msg.sender)), which is what
    generateVoteHash returns to that caller, equals the hash stored for the
    caller on the proposal; when the recomputed hash differs the call reverts
    and the transaction leaves the storage as it was. *)
Theorem revealVote_requires_matching_hash e pid support nonce s :
  (succeeds (revealVote e pid support nonce s) ->
     generateVoteHash e support nonce = voteHash (commitment_at s pid (msg_sender e)))
  /\ (generateVoteHash e support nonce <> voteHash (commitment_at s pid (msg_sender e)) ->
     reverts (revealVote e pid support nonce s)
     /\ transact e (CallRevealVote pid support nonce) s = s).
Proof.
  unfold generateVoteHash. split.
  - destruct (revealVote e pid support nonce s) as [out| |] eqn:Hr; simpl; try tauto.
    intros _. apply revealVote_Ok in Hr. tauto.
  - intros Hne. unfold transact; simpl.
    destruct (revealVote e pid support nonce s) as [out| |] eqn:Hr; simpl; try tauto.
    apply revealVote_Ok in Hr. tauto.
Qed.

(** ** When revealVote reverts *)


(** ** What executeProposal does *)

Lemma executeProposal_succeeds e pid s :
  exists_proposal s pid = true ->
  is_uint256 (block_timestamp e) ->
  votingEnd (proposal_at s pid) + 1 * days <= block_timestamp e ->
  executed (proposal_at s pid) = false ->
  active (proposal_at s pid) = true ->
  executeProposal e pid s
  = Ok (set_proposals (<[pid := set_executed true (proposal_at s pid)]> (proposals s)) s,
        [ProposalExecuted pid true (block_timestamp e)]).
Proof.
  intros Hex [_ Hmax] Ht Hx Ha. unfold executeProposal, checked_add.
  rewrite Hex, Hx, Ha. simpl.
  replace (votingEnd (proposal_at s pid) + 1 * days <=? MAX_UINT256) with true
    by (symmetry; apply Z.leb_le; lia).
  simpl. apply Z.leb_le in Ht. rewrite Ht. reflexivity.
Qed.

(** C9. A successful executeProposal finds the proposal's executed flag
    false and leaves it true, and it changes nothing else: the other nine
    fields of the proposal, every other proposal, every commitment, weight,
    counter, grant and switch are as before. It emits ProposalExecuted with
    passed = true; the same event comes out whatever the two encrypted
    counters and the table of commitments and reveals hold. *)
Theorem executeProposal_effect e pid s s' evs :
  executeProposal e pid s = Ok (s', evs) ->
  executed (proposal_at s pid) = false
  /\ executed (proposal_at s' pid) = true
  /\ proposal_at s' pid
     = mkProposal (id (proposal_at s pid)) (title (proposal_at s pid))
         (description (proposal_at s pid)) (creator (proposal_at s pid))
         (createdAt (proposal_at s pid)) (votingEnd (proposal_at s pid))
         (encryptedYesCount (proposal_at s pid)) (encryptedNoCount (proposal_at s pid))
         true (active (proposal_at s pid))
  /\ (forall q, q <> pid -> proposal_at s' q = proposal_at s q)
  /\ (voteCommitments s' = voteCommitments s /\ voterWeight s' = voterWeight s
      /\ proposalCount s' = proposalCount s /\ owner s' = owner s
      /\ votingOpen s' = votingOpen s /\ acl s' = acl s)
  /\ evs = [ProposalExecuted pid true (block_timestamp e)]
  /\ (forall yes no vc, exists s2,
        executeProposal e pid (set_voteCommitments vc (with_counters yes no pid s))
        = Ok (s2, [ProposalExecuted pid true (block_timestamp e)])).
Proof.
  intros Hr. pose proof Hr as Hinv.
  apply executeProposal_Ok in Hinv as (Hex & Ht & Hx & Ha & Hout).
  injection Hout as -> ->.
  assert (Hp : proposal_at
                 (set_proposals (<[pid := set_executed true (proposal_at s pid)]> (proposals s)) s)
                 pid
               = mkProposal (id (proposal_at s pid)) (title (proposal_at s pid))
                   (description (proposal_at s pid)) (creator (proposal_at s pid))
                   (createdAt (proposal_at s pid)) (votingEnd (proposal_at s pid))
                   (encryptedYesCount (proposal_at s pid)) (encryptedNoCount (proposal_at s pid))
                   true (active (proposal_at s pid))).
  { unfold proposal_at; simpl. apply lookup_total_insert_eq. }
  split; [exact Hx |]. split; [rewrite Hp; reflexivity |]. split; [exact Hp |].
  split; [| split; [| split]].
  - intros q Hq. unfold proposal_at; simpl. apply lookup_total_insert_ne. congruence.
  - simpl. tauto.
  - reflexivity.
  - intros yes no vc.
    unfold executeProposal in *.
    assert (Hp2 : proposal_at (set_voteCommitments vc (with_counters yes no pid s)) pid
                  = set_encryptedYesCount yes (set_encryptedNoCount no (proposal_at s pid))).
    { unfold proposal_at, with_counters; simpl. apply lookup_total_insert_eq. }
    rewrite Hp2.
    change (exists_proposal (set_voteCommitments vc (with_counters yes no pid s)) pid)
      with (exists_proposal s pid).
    simpl. rewrite Hex in *. simpl in *.
    destruct (checked_add (votingEnd (proposal_at s pid)) (1 * days)) as [d| |]; simpl in *;
      try discriminate Hr.
    destruct (d <=? block_timestamp e); simpl in *; try discriminate Hr.
    rewrite Hx, Ha. simpl. eauto.
Qed.

(** ** What any call can do to a proposal *)

Lemma call_frame e c s s' evs :
  call e c s = Ok (s', evs) ->
  forall q,
    (executed (proposal_at s q) = true -> executed (proposal_at s' q) = true)
    /\ (exists_proposal s' q = true ->
        (exists_proposal s q = true
         /\ createdAt (proposal_at s' q) = createdAt (proposal_at s q)
         /\ votingEnd (proposal_at s' q) = votingEnd (proposal_at s q))
        \/ votingEnd (proposal_at s' q) = createdAt (proposal_at s' q) + VOTING_DURATION).
Proof.
  intros Hc q.
  destruct c; simpl in Hc.
  - unfold setVoterWeight, onlyOwner in Hc. repeat req Hc. injection Hc as <- <-.
    split; [tauto | intros; left; tauto].
  - unfold setMultipleVoterWeights, onlyOwner in Hc. repeat req Hc. injection Hc as <- <-.
    split; [tauto | intros; left; tauto].
  - unfold createProposal, votingIsOpen in Hc. repeat req Hc. boolp. injection Hc as <- <-.
    unfold proposal_at, exists_proposal; simpl.
    rewrite lookup_total_insert.
    destruct (decide (proposalCount s + 1 = q)) as [<-|Hq]; simpl.
    + split; [tauto | intros; right; reflexivity].
    + split; [tauto |]. intros Hex. left.
      apply andb_true_iff in Hex as [Hle Hpos]. apply Z.leb_le in Hle. apply Z.ltb_lt in Hpos.
      split; [| tauto].
      apply andb_true_iff. split; [apply Z.leb_le | apply Z.ltb_lt]; lia.
  - apply commitVote_Ok in Hc as (_ & _ & _ & _ & _ & _ & Hout). injection Hout as -> ->.
    split; [tauto | intros; left; tauto].
  - apply revealVote_Ok in Hc as (_ & _ & _ & _ & _ & _ & Hout). injection Hout as -> ->.
    unfold revealed_state.
    unfold proposal_at, exists_proposal.
    destruct support; simpl; rewrite lookup_total_insert;
      (destruct (decide (proposalId = q)) as [<-|Hq]; simpl;
       (split; [tauto | intros; left; tauto])).
  - apply executeProposal_Ok in Hc as (_ & _ & _ & _ & Hout). injection Hout as -> ->.
    unfold proposal_at, exists_proposal; simpl. rewrite lookup_total_insert.
    destruct (decide (proposalId = q)) as [<-|Hq]; simpl;
      (split; [tauto | intros; left; tauto]).
  - unfold setVotingOpen, onlyOwner in Hc. repeat req Hc. injection Hc as <- <-.
    split; [tauto | intros; left; tauto].
  - unfold pauseProposal, onlyOwner in Hc. repeat req Hc. injection Hc as <- <-.
    unfold proposal_at, exists_proposal; simpl. rewrite lookup_total_insert.
    destruct (decide (proposalId = q)) as [<-|Hq]; simpl;
      (split; [tauto | intros; left; tauto]).
Qed.

Lemma transact_frame e c s q :
  (executed (proposal_at s q) = true -> executed (proposal_at (transact e c s) q) = true)
  /\ (exists_proposal (transact e c s) q = true ->
      (exists_proposal s q = true
       /\ createdAt (proposal_at (transact e c s) q) = createdAt (proposal_at s q)
       /\ votingEnd (proposal_at (transact e c s) q) = votingEnd (proposal_at s q))
      \/ votingEnd (proposal_at (transact e c s) q)
         = createdAt (proposal_at (transact e c s) q) + VOTING_DURATION).
Proof.
  unfold transact. destruct (call e c s) as [[s' evs]| |] eqn:Hc.
  - exact (call_frame e c s s' evs Hc q).
  - split; [tauto | intros; left; tauto].
  - split; [tauto | intros; left; tauto].
Qed.

Lemma run_app txs1 txs2 s : run (txs1 ++ txs2) s = run txs2 (run txs1 s).
Proof. unfold run. apply fold_left_app. Qed.

Lemma run_executed_stable txs s q :
  executed (proposal_at s q) = true -> executed (proposal_at (run txs s) q) = true.
Proof.
  revert s. induction txs as [|[e c] txs IH]; intros s Hx; simpl; [exact Hx|].
  apply IH. apply transact_frame. exact Hx.
Qed.

Lemma window_inv_transact e c s : window_inv s -> window_inv (transact e c s).
Proof.
  intros Hinv q Hex.
  destruct (proj2 (transact_frame e c s q) Hex) as [(Hex0 & Hc & Hv)|Hnew].
  - rewrite Hc, Hv. apply Hinv. exact Hex0.
  - exact Hnew.
Qed.

Lemma window_inv_run txs s : window_inv s -> window_inv (run txs s).
Proof.
  revert s. induction txs as [|[e c] txs IH]; intros s Hinv; simpl; [exact Hinv|].
  apply IH. apply window_inv_transact. exact Hinv.
Qed.

Lemma window_inv_reachable s : reachable s -> window_inv s.
Proof.
  intros (e0 & txs & ->). apply window_inv_run.
  intros q Hex. unfold exists_proposal, constructor in Hex; simpl in Hex.
  apply andb_true_iff in Hex as [H1 H2]. apply Z.leb_le in H1. apply Z.ltb_lt in H2. lia.
Qed.

(** ** The counters hold handles of the FHEVM *)

Lemma counters_initialised_transact e c s :
  counters_initialised s -> counters_initialised (transact e c s).
Proof.
  intros Hinv. unfold transact.
  destruct (call e c s) as [[s' evs]| |] eqn:Hc; [| exact Hinv ..].
  intros q Hex.
  destruct c; simpl in Hc.
  - unfold setVoterWeight, onlyOwner in Hc. repeat req Hc. injection Hc as <- <-.
    exact (Hinv q Hex).
  - unfold setMultipleVoterWeights, onlyOwner in Hc. repeat req Hc. injection Hc as <- <-.
    exact (Hinv q Hex).
  - unfold createProposal, votingIsOpen in Hc. repeat req Hc. boolp. injection Hc as <- <-.
    revert Hex. unfold proposal_at, exists_proposal; simpl.
    rewrite lookup_total_insert.
    destruct (decide (proposalCount s + 1 = q)) as [<-|Hq]; simpl; intros Hex.
    + split; apply FHE_asEuint32_initialized.
    + apply (Hinv q). unfold exists_proposal.
      apply andb_true_iff in Hex as [Hle Hpos]. apply Z.leb_le in Hle. apply Z.ltb_lt in Hpos.
      apply andb_true_iff. split; [apply Z.leb_le | apply Z.ltb_lt]; lia.
  - apply commitVote_Ok in Hc as (_ & _ & _ & _ & _ & _ & Hout). injection Hout as -> ->.
    exact (Hinv q Hex).
  - apply revealVote_Ok in Hc as (_ & _ & _ & _ & _ & _ & Hout). injection Hout as -> ->.
    specialize (Hinv q Hex). revert Hinv.
    unfold revealed_state, proposal_at; simpl. rewrite lookup_total_insert.
    destruct (decide (proposalId = q)) as [<-|Hq]; simpl; [| tauto].
    destruct support; simpl; intros [Hy Hn]; split;
      first [apply FHE_add_initialized | assumption].
  - apply executeProposal_Ok in Hc as (_ & _ & _ & _ & Hout). injection Hout as -> ->.
    specialize (Hinv q Hex). revert Hinv.
    unfold proposal_at; simpl. rewrite lookup_total_insert.
    destruct (decide (proposalId = q)) as [<-|Hq]; simpl; tauto.
  - unfold setVotingOpen, onlyOwner in Hc. repeat req Hc. injection Hc as <- <-.
    exact (Hinv q Hex).
  - unfold pauseProposal, onlyOwner in Hc. repeat req Hc. injection Hc as <- <-.
    specialize (Hinv q Hex). revert Hinv.
    unfold proposal_at; simpl. rewrite lookup_total_insert.
    destruct (decide (proposalId = q)) as [<-|Hq]; simpl; tauto.
Qed.

Lemma counters_initialised_reachable s : reachable s -> counters_initialised s.
Proof.
  intros (e0 & txs & ->).
  assert (Hinit : counters_initialised (constructor e0)).
  { intros q Hex. unfold exists_proposal, constructor in Hex; simpl in Hex.
    apply andb_true_iff in Hex as [H1 H2]. apply Z.leb_le in H1. apply Z.ltb_lt in H2. lia. }
  revert Hinit. generalize (constructor e0).
  induction txs as [|[e c] txs IH]; intros s Hs; simpl; [exact Hs |].
  apply IH, counters_initialised_transact, Hs.
Qed.

(** ** The weight that revealVote tallies *)

(** C10. For a voter of stored weight w, a successful revealVote replaces the
    chosen encrypted counter by the FHE sum of that counter (of the trivial
    encryption of 0 if the counter holds the zero handle, which it never does
    in a state reached from the constructor) and the encryption of
    w mod 2^32, leaves the other counter alone, and emits VoteRevealed with
    the full weight w; for a uint256 w the tallied and the reported weight
    agree exactly when w < 2^32. *)
Theorem revealVote_tallies_truncated_weight e pid support nonce s s' evs :
  revealVote e pid support nonce s = Ok (s', evs) ->
  let w := default 0 (voterWeight s !! msg_sender e) in
  tally support (proposal_at s' pid)
  = FHE_add (initialised (tally support (proposal_at s pid))) (FHE_asEuint32 (w mod 2 ^ 32))
  /\ (reachable s ->
      tally support (proposal_at s' pid)
      = FHE_add (tally support (proposal_at s pid)) (FHE_asEuint32 (w mod 2 ^ 32)))
  /\ tally (negb support) (proposal_at s' pid) = tally (negb support) (proposal_at s pid)
  /\ evs = [VoteRevealed pid (msg_sender e) support w]
  /\ (is_uint256 w -> (w mod 2 ^ 32 = w <-> w < 2 ^ 32)).
Proof.
  intros Hr w. apply revealVote_Ok in Hr as (Hex & _ & _ & _ & _ & _ & Hout).
  injection Hout as -> ->.
  destruct (revealed_state_tally e pid support s) as [Hsum Hother].
  split; [exact Hsum | split; [| split; [exact Hother | split; [reflexivity |]]]].
  - intros Hreach. rewrite Hsum. f_equal.
    destruct (counters_initialised_reachable s Hreach pid Hex) as [Hy Hn].
    unfold initialised.
    destruct support; cbn [tally];
      [apply Z.eqb_neq in Hy; rewrite Hy | apply Z.eqb_neq in Hn; rewrite Hn]; reflexivity.
  - intros [Hlo _]. split.
    + intros Hm. rewrite <- Hm. apply Z.mod_pos_bound. lia.
    + intros Hlt. apply Z.mod_small. lia.
Qed.

(** ** The execution gate *)

(** C3. For an existing proposal, executeProposal reverts whenever
    block.timestamp < votingEnd + 1 day; if the proposal is active and not yet
    executed it succeeds as soon as block.timestamp >= votingEnd + 1 day; and
    once it has succeeded, executeProposal on the same proposal reverts, at
    any time and after any further transactions. *)
Theorem executeProposal_time_gate e pid s :
  exists_proposal s pid = true ->
  is_uint256 (block_timestamp e) ->
  (block_timestamp e < votingEnd (proposal_at s pid) + 1 * days ->
     reverts (executeProposal e pid s))
  /\ (votingEnd (proposal_at s pid) + 1 * days <= block_timestamp e ->
      executed (proposal_at s pid) = false ->
      active (proposal_at s pid) = true ->
      succeeds (executeProposal e pid s))
  /\ (forall s' evs, executeProposal e pid s = Ok (s', evs) ->
      forall txs e', reverts (executeProposal e' pid (run txs s'))).
Proof.
  intros Hex Hts. split; [| split].
  - intros Hlt.
    destruct (executeProposal e pid s) as [out| |] eqn:Hr; simpl; try exact I.
    apply executeProposal_Ok in Hr as (_ & Ht & _). lia.
  - intros Ht Hx Ha.
    rewrite (executeProposal_succeeds e pid s Hex Hts Ht Hx Ha). exact I.
  - intros s' evs Hr txs e'.
    apply executeProposal_Ok in Hr as (_ & _ & _ & _ & Hout). injection Hout as Hs' _.
    assert (Hx : executed (proposal_at (run txs s') pid) = true).
    { apply run_executed_stable. rewrite Hs'. unfold proposal_at; simpl.
      rewrite lookup_total_insert_eq. reflexivity. }
    destruct (executeProposal e' pid (run txs s')) as [out| |] eqn:Hr2; simpl; try exact I.
    apply executeProposal_Ok in Hr2 as (_ & _ & Hx2 & _). congruence.
Qed.

(** ** The three phases *)

(** C5. For every proposal of a reachable state: votingEnd is createdAt + 7
    days; commitVote can succeed only while block.timestamp < votingEnd and
    revealVote only once block.timestamp >= votingEnd, so no timestamp lets
    both a commit and a reveal through; executeProposal can succeed only from
    votingEnd + 1 day on. *)
Theorem phases_disjoint_and_ordered s pid :
  reachable s ->
  exists_proposal s pid = true ->
  votingEnd (proposal_at s pid) = createdAt (proposal_at s pid) + 7 * days
  /\ (forall e h, succeeds (commitVote e pid h s) ->
        block_timestamp e < votingEnd (proposal_at s pid))
  /\ (forall e b n, succeeds (revealVote e pid b n s) ->
        votingEnd (proposal_at s pid) <= block_timestamp e)
  /\ (forall e1 h e2 b n, block_timestamp e1 = block_timestamp e2 ->
        ~ (succeeds (commitVote e1 pid h s) /\ succeeds (revealVote e2 pid b n s)))
  /\ (forall e, succeeds (executeProposal e pid s) ->
        votingEnd (proposal_at s pid) + 1 * days <= block_timestamp e).
Proof.
  intros Hreach Hex.
  assert (Hc : forall e h, succeeds (commitVote e pid h s) ->
                 block_timestamp e < votingEnd (proposal_at s pid)).
  { intros e h Hs. destruct (commitVote e pid h s) as [out| |] eqn:Hr; simpl in Hs; try tauto.
    apply commitVote_Ok in Hr. tauto. }
  assert (Hv : forall e b n, succeeds (revealVote e pid b n s) ->
                 votingEnd (proposal_at s pid) <= block_timestamp e).
  { intros e b n Hs. destruct (revealVote e pid b n s) as [out| |] eqn:Hr; simpl in Hs; try tauto.
    apply revealVote_Ok in Hr. tauto. }
  split; [| split; [| split; [| split]]].
  - apply (window_inv_reachable s Hreach pid Hex).
  - exact Hc.
  - exact Hv.
  - intros e1 h e2 b n Heq [H1 H2]. apply Hc in H1. apply Hv in H2. lia.
  - intros e Hs. destruct (executeProposal e pid s) as [out| |] eqn:Hr; simpl in Hs; try tauto.
    apply executeProposal_Ok in Hr. tauto.
Qed.

(** ** Committing once *)

Lemma call_commitment_frame e c s s' evs q v :
  call e c s = Ok (s', evs) ->
  voteHash (commitment_at s q v) <> 0 ->
  voteHash (commitment_at s' q v) = voteHash (commitment_at s q v).
Proof.
  intros Hc Hne.
  destruct c; simpl in Hc.
  - unfold setVoterWeight, onlyOwner in Hc. repeat req Hc. injection Hc as <- <-. reflexivity.
  - unfold setMultipleVoterWeights, onlyOwner in Hc. repeat req Hc. injection Hc as <- <-.
    reflexivity.
  - unfold createProposal, votingIsOpen in Hc. repeat req Hc. injection Hc as <- <-. reflexivity.
  - apply commitVote_Ok in Hc as (_ & _ & _ & _ & _ & Hz & Hout). injection Hout as -> ->.
    unfold commitment_at in *; simpl. rewrite lookup_total_insert.
    destruct (decide ((proposalId, msg_sender e) = (q, v))) as [Heq|Hq]; simpl;
      [inversion Heq; subst; contradiction | reflexivity].
  - apply revealVote_Ok in Hc as (_ & _ & _ & _ & _ & _ & Hout). injection Hout as -> ->.
    unfold revealed_state.
    unfold commitment_at.
    destruct support; simpl; rewrite lookup_total_insert;
      (destruct (decide ((proposalId, msg_sender e) = (q, v))) as [Heq|Hq];
       [inversion Heq; subst; reflexivity | reflexivity]).
  - apply executeProposal_Ok in Hc as (_ & _ & _ & _ & Hout). injection Hout as -> ->.
    reflexivity.
  - unfold setVotingOpen, onlyOwner in Hc. repeat req Hc. injection Hc as <- <-. reflexivity.
  - unfold pauseProposal, onlyOwner in Hc. repeat req Hc. injection Hc as <- <-. reflexivity.
Qed.

Lemma run_commitment_stable txs s q v :
  voteHash (commitment_at s q v) <> 0 ->
  voteHash (commitment_at (run txs s) q v) = voteHash (commitment_at s q v).
Proof.
  revert s. induction txs as [|[e c] txs IH]; intros s Hne; simpl; [reflexivity|].
  assert (Hstep : voteHash (commitment_at (transact e c s) q v) = voteHash (commitment_at s q v)).
  { unfold transact. destruct (call e c s) as [[s' evs]| |] eqn:Hc; try reflexivity.
    exact (call_commitment_frame e c s s' evs q v Hc Hne). }
  rewrite IH; [exact Hstep | congruence].
Qed.

(** A commitment with a non-zero hash is final: every later commitVote of the
    same address on the same proposal reverts, and the stored hash stays. *)
Lemma commitVote_nonzero_is_final e pid h s s' evs :
  h <> 0 ->
  commitVote e pid h s = Ok (s', evs) ->
  forall txs,
    voteHash (commitment_at (run txs s') pid (msg_sender e)) = h
    /\ forall e' h', msg_sender e' = msg_sender e ->
         reverts (commitVote e' pid h' (run txs s')).
Proof.
  intros Hh Hc txs.
  apply commitVote_Ok in Hc as (_ & _ & _ & _ & _ & _ & Hout). injection Hout as -> ->.
  match goal with |- context [run txs ?st] => set (s1 := st) end.
  assert (H1 : voteHash (commitment_at s1 pid (msg_sender e)) = h).
  { unfold s1, commitment_at; simpl. rewrite lookup_total_insert_eq. reflexivity. }
  assert (H2 : voteHash (commitment_at (run txs s1) pid (msg_sender e)) = h).
  { rewrite run_commitment_stable; [exact H1 | congruence]. }
  split; [exact H2|].
  intros e' h' Hs.
  destruct (commitVote e' pid h' (run txs s1)) as [out| |] eqn:Hr; simpl; try exact I.
  apply commitVote_Ok in Hr as (_ & _ & _ & _ & _ & Hz & _). rewrite Hs in Hz. congruence.
Qed.

(** From commit to reveal: whatever happens in between, the reveal of an
    address that committed a non-zero hash [h] goes through only with a vote
    and a nonce that hash to [h]. *)
Lemma reveal_opens_the_commitment e pid h s s' evs :
  h <> 0 ->
  commitVote e pid h s = Ok (s', evs) ->
  forall txs e' support nonce,
    msg_sender e' = msg_sender e ->
    succeeds (revealVote e' pid support nonce (run txs s')) ->
    generateVoteHash e' support nonce = h.
Proof.
  intros Hh Hc txs e' support nonce Hs Hok.
  assert (Hnow : voteHash (commitment_at s' pid (msg_sender e)) = h).
  { apply commitVote_Ok in Hc as (_ & _ & _ & _ & _ & _ & Hout).
    injection Hout as Hs' _. subst s'.
    unfold commitment_at; simpl. rewrite lookup_total_insert_eq. reflexivity. }
  assert (Hstored : voteHash (commitment_at (run txs s') pid (msg_sender e)) = h).
  { rewrite run_commitment_stable; [exact Hnow | congruence]. }
  destruct (revealVote e' pid support nonce (run txs s')) as [out| |] eqn:Hr;
    simpl in Hok; try tauto.
  apply revealVote_Ok in Hr as (_ & _ & _ & _ & Hk & _).
  unfold generateVoteHash. rewrite Hk, Hs. exact Hstored.
Qed.

(** A commit of the zero hash leaves the caller free to commit again. *)
Lemma commitVote_after_zero_commit e pid h s :
  succeeds (commitVote e pid 0 s) ->
  succeeds (commitVote e pid h (transact e (CallCommitVote pid 0) s)).
Proof.
  intros Hs. unfold transact; simpl.
  destruct (commitVote e pid 0 s) as [[s' evs]| |] eqn:Hr; simpl in Hs; try tauto.
  apply commitVote_Ok in Hr as (Ho & Hw & Hex & Ha & Ht & Hz & Hout). injection Hout as -> ->.
  unfold commitVote, votingIsOpen.
  change (votingOpen (set_voteCommitments _ s)) with (votingOpen s).
  change (weight_of (set_voteCommitments _ s)) with (weight_of s).
  change (exists_proposal (set_voteCommitments _ s)) with (exists_proposal s).
  change (proposal_at (set_voteCommitments _ s)) with (proposal_at s).
  rewrite Ho, Hex, Ha. simpl.
  apply Z.ltb_lt in Hw, Ht. rewrite Hw, Ht. simpl.
  match goal with
  | |- context [voteHash (commitment_at ?st pid (msg_sender e)) =? 0] =>
      assert (Hc0 : voteHash (commitment_at st pid (msg_sender e)) = 0)
        by (unfold commitment_at; simpl; rewrite lookup_total_insert_eq; reflexivity);
      rewrite Hc0
  end.
  simpl. exact I.
Qed.

End Properties.

(** ** The properties on the concrete run *)

Section OnTheRun.
#[local] Existing Instances sample_keccak sample_FHE.

Example st_open_proposal :
  proposalCount st_open = 1
  /\ votingEnd (proposal_at st_open 1) = t0 + 604800
  /\ active (proposal_at st_open 1) = true.
Proof. vm_compute. repeat split. Qed.

Example st_committed_hash :
  voteHash (commitment_at st_committed 1 alice) = alice_hash /\ alice_hash <> 0.
Proof. vm_compute. split; [reflexivity | discriminate]. Qed.

Example st_primed_tally :
  sample_decrypt (encryptedYesCount (proposal_at st_primed 1)) = 0
  /\ revealed (commitment_at st_primed 1 bob) = true
  /\ (encryptedYesCount (proposal_at st_primed 1), 4096) ∈ acl st_primed.
Proof.
  split; [vm_compute; reflexivity | split; [vm_compute; reflexivity |]].
  apply (bool_decide_unpack _). vm_compute. exact I.
Qed.

Example st_revealed_tally :
  sample_decrypt (encryptedYesCount (proposal_at st_revealed 1)) = 5
  /\ revealed (commitment_at st_revealed 1 alice) = true.
Proof. vm_compute. split; reflexivity. Qed.

Example st_executed_flag : executed (proposal_at st_executed 1) = true.
Proof. vm_compute. reflexivity. Qed.

Lemma st_primed_reachable : reachable st_primed.
Proof.
  exists (env deployer t0),
    [(env deployer t0, CallSetVoterWeight deployer 100);
     (env deployer t0, CallSetVoterWeight alice (2 ^ 32 + 5));
     (env deployer t0, CallCreateProposal "Raise quorum" "Raise the quorum to 60%");
     (env alice (t0 + 10), CallCommitVote 1 alice_hash);
     (env deployer (t0 + 15), CallSetVoterWeight bob (2 ^ 32));
     (env bob (t0 + 20), CallCommitVote 1 bob_hash);
     (env bob (t0 + VOTING_DURATION), CallRevealVote 1 true 9)].
  vm_compute. reflexivity.
Qed.

Lemma revealVote_requires_matching_hash_witness :
  generateVoteHash (env alice (t0 + VOTING_DURATION)) true 7
  = voteHash (commitment_at st_primed 1 alice)
  /\ (reverts (revealVote (env alice (t0 + VOTING_DURATION)) 1 true 8 st_primed)
      /\ transact (env alice (t0 + VOTING_DURATION)) (CallRevealVote 1 true 8) st_primed
         = st_primed).
Proof.
  split.
  - apply (proj1 (revealVote_requires_matching_hash
                    (env alice (t0 + VOTING_DURATION)) 1 true 7 st_primed)).
    vm_compute. exact I.
  - apply (proj2 (revealVote_requires_matching_hash
                    (env alice (t0 + VOTING_DURATION)) 1 true 8 st_primed)).
    vm_compute. discriminate.
Defined.


(** C4 (where the code departs from it). revealVote is meant to revert only
    for an id out of range, a block time before votingEnd, a missing
    commitment, a repeated reveal or a hash that does not match.
    createProposal stores the two counters without FHE.allowThis, so the
    contract holds no grant on them once the creating transaction is over: on
    the run above alice, who committed in time, reveals after votingEnd with
    the vote and nonce she committed to, none of the five conditions holds,
    and FHE.add refuses the counter. The reveal goes through once another
    reveal, of a weight whose 32-bit truncation is 0, has left a counter that
    the contract was granted. *)
Theorem first_reveal_is_refused :
  let e := env alice (t0 + VOTING_DURATION) in
  ~ reveal_blocked e 1 true 7 st_committed
  /\ acl st_committed = []
  /\ counter_allowed e 1 true st_committed = false
  /\ revealVote e 1 true 7 st_committed = Revert "ACLNotAllowed"
  /\ hasUserRevealed (transact e (CallRevealVote 1 true 7) st_committed) 1 alice = false
  /\ succeeds (revealVote e 1 true 7 st_primed).
Proof.
  split; [| vm_compute; repeat split].
  unfold reveal_blocked. vm_compute.
  intros [[Hb|Hb]|[Hb|[Hb|[Hb|Hb]]]]; try discriminate Hb. apply Hb. reflexivity.
Qed.

Lemma executeProposal_time_gate_witness :
  reverts (executeProposal (env deployer (t0 + VOTING_DURATION + days - 1)) 1 st_revealed)
  /\ succeeds (executeProposal (env deployer (t0 + VOTING_DURATION + days)) 1 st_revealed)
  /\ reverts (executeProposal (env alice (t0 + 1000 * days)) 1
                (run [(env deployer (t0 + 100 * days), CallPauseProposal 1)] st_executed)).
Proof.
  assert (Hex : exists_proposal st_revealed 1 = true) by (vm_compute; reflexivity).
  assert (Hu1 : is_uint256 (block_timestamp (env deployer (t0 + VOTING_DURATION + days - 1))))
    by (vm_compute; split; discriminate).
  assert (Hu2 : is_uint256 (block_timestamp (env deployer (t0 + VOTING_DURATION + days))))
    by (vm_compute; split; discriminate).
  pose proof (executeProposal_time_gate
                (env deployer (t0 + VOTING_DURATION + days - 1)) 1 st_revealed Hex Hu1)
    as (Hearly & _ & _).
  pose proof (executeProposal_time_gate
                (env deployer (t0 + VOTING_DURATION + days)) 1 st_revealed Hex Hu2)
    as (_ & Hdue & Honce).
  split; [| split].
  - apply Hearly. vm_compute. reflexivity.
  - apply Hdue.
    + vm_compute. discriminate.
    + vm_compute. reflexivity.
    + vm_compute. reflexivity.
  - apply (Honce st_executed [ProposalExecuted 1 true (t0 + VOTING_DURATION + days)]).
    vm_compute. reflexivity.
Defined.

Lemma phases_disjoint_and_ordered_witness :
  votingEnd (proposal_at st_primed 1) = createdAt (proposal_at st_primed 1) + 7 * days
  /\ ~ (succeeds (commitVote (env deployer (t0 + VOTING_DURATION)) 1 5 st_primed)
        /\ succeeds (revealVote (env alice (t0 + VOTING_DURATION)) 1 true 7 st_primed)).
Proof.
  assert (Hex : exists_proposal st_primed 1 = true) by (vm_compute; reflexivity).
  destruct (phases_disjoint_and_ordered st_primed 1 st_primed_reachable Hex)
    as (H1 & _ & _ & H4 & _).
  split; [exact H1|].
  apply H4. vm_compute. reflexivity.
Defined.

Lemma executeProposal_effect_witness :
  executed (proposal_at st_revealed 1) = false
  /\ executed (proposal_at st_executed 1) = true
  /\ voteCommitments st_executed = voteCommitments st_revealed.
Proof.
  destruct (executeProposal_effect (env deployer (t0 + VOTING_DURATION + days)) 1 st_revealed
              st_executed [ProposalExecuted 1 true (t0 + VOTING_DURATION + days)])
    as (H0 & H1 & _ & _ & (H3 & _) & _).
  - vm_compute. reflexivity.
  - split; [exact H0 | split; [exact H1 | exact H3]].
Defined.

Lemma revealVote_tallies_truncated_weight_witness :
  tally true (proposal_at st_revealed 1)
  = FHE_add (tally true (proposal_at st_primed 1)) (FHE_asEuint32 5)
  /\ sample_decrypt (tally true (proposal_at st_revealed 1)) = 5.
Proof.
  destruct (revealVote_tallies_truncated_weight (env alice (t0 + VOTING_DURATION)) 1 true 7
              st_primed st_revealed [VoteRevealed 1 alice true (2 ^ 32 + 5)])
    as (_ & H2 & _).
  - vm_compute. reflexivity.
  - specialize (H2 st_primed_reachable).
    split; [rewrite H2; vm_compute; reflexivity | vm_compute; reflexivity].
Defined.

(** C2 (where the code departs from it). A second commitVote by the same
    address on the same proposal is meant to revert whatever was committed
    first. On the run above alice first commits the zero hash: the call
    succeeds, hasUserVoted still answers false, and her second commitVote
    succeeds as well and stores a different hash. *)
Theorem commitVote_twice_after_zero_hash :
  let e := env alice (t0 + 10) in
  let s1 := transact e (CallCommitVote 1 0) st_open in
  let s2 := transact e (CallCommitVote 1 alice_hash) s1 in
  commitVote e 1 0 st_open = Ok (s1, [VoteCommitted 1 alice 0])
  /\ hasUserVoted s1 1 alice = false
  /\ commitVote e 1 alice_hash s1 = Ok (s2, [VoteCommitted 1 alice alice_hash])
  /\ voteHash (commitment_at s1 1 alice) = 0
  /\ voteHash (commitment_at s2 1 alice) = alice_hash
  /\ alice_hash <> 0.
Proof.
  vm_compute. repeat split; discriminate.
Qed.

Lemma commitVote_nonzero_is_final_witness :
  voteHash (commitment_at st_revealed 1 alice) = alice_hash
  /\ reverts (commitVote (env alice (t0 + 20)) 1 12345 st_revealed).
Proof.
  destruct (commitVote_nonzero_is_final (env alice (t0 + 10)) 1 alice_hash st_open
              st_committed [VoteCommitted 1 alice alice_hash]
              ltac:(vm_compute; discriminate) ltac:(vm_compute; reflexivity)
              [(env deployer (t0 + 15), CallSetVoterWeight bob (2 ^ 32));
               (env bob (t0 + 20), CallCommitVote 1 bob_hash);
               (env bob (t0 + VOTING_DURATION), CallRevealVote 1 true 9);
               (env alice (t0 + VOTING_DURATION), CallRevealVote 1 true 7)]) as [H1 H2].
  split; [exact H1 | apply H2; vm_compute; reflexivity].
Defined.

End OnTheRun.

End VotingSpec.

Module DocsSpec.
Import JS CreateExample GenerateDocs.
Local Open Scope string_scope.

(** ** The two registries *)




Example registries_paths_of_fhevm_voting :
  contractFile <$> own DOCS_CONFIG "fhevm-voting" = Some "base-template/contracts/FHEMVoting.sol"
  /\ contract <$> own EXAMPLES_MAP "fhevm-voting" = Some "base-template/contracts/FHEMVoting.sol".
Proof. split; reflexivity. Qed.

(** ** Names that the registry does not own *)

Lemma has_arg_single flag name : has_arg flag [name] = String.eqb flag name.
Proof. unfold has_arg; simpl. apply orb_false_r. Qed.

Lemma not_a_flag name flag : ~ In name FLAGS -> In flag FLAGS -> String.eqb flag name = false.
Proof.
  intros Hn Hf. apply String.eqb_neq. intros ->. contradiction.
Qed.

(** A name for which [DOCS_CONFIG[name]] is undefined ends the process with
    exit code 1; the run creates the examples directory at most. *)
Lemma main_rejects_undefined_name name w :
  get DOCS_CONFIG name = VUndefined ->
  ~ In name FLAGS ->
  exit_code (snd (main [name] w)) = 1
  /\ forall p, p <> examplesDir -> fs (fst (main [name] w)) !! p = fs w !! p.
Proof.
  intros Hget Hflag.
  unfold main, generate_all, selected_examples.
  rewrite !has_arg_single.
  rewrite !(not_a_flag name) by (assumption || (simpl; tauto)).
  rewrite Hget. simpl.
  unfold try_catch, mbind, M_bind, existsSync, mkdirSync, error, log, console_log, process_exit.
  simpl.
  destruct (fs w !! examplesDir) as [[content|]|] eqn:Hdir; simpl.
  - split; [reflexivity | tauto].
  - split; [reflexivity | tauto].
  - rewrite ?Hdir. simpl. split; [reflexivity |].
    intros p Hp. apply lookup_insert_ne. congruence.
Qed.

Lemma main_rejects_undefined_name_witness :
  exit_code (snd (main ["fhe-counter"] empty_world)) = 1
  /\ fs (fst (main ["fhe-counter"] empty_world)) !! "examples/fhe-counter.md" = None.
Proof.
  destruct (main_rejects_undefined_name "fhe-counter" empty_world) as [Hc Hfs].
  - vm_compute. reflexivity.
  - vm_compute. intros [H|[H|[H|[H|[H|[]]]]]]; discriminate H.
  - split; [exact Hc |].
    rewrite Hfs; [vm_compute; reflexivity | vm_compute; discriminate].
Defined.



(** With the literal of line 271 closed, the guard of the main execution
    would not stop every such argument: it tests the truthiness of
    DOCS_CONFIG[name], and for the name toString that is the function
    inherited from Object.prototype. On an empty directory that run passes
    the guard, writes examples/toString.md and ends with exit code 0. *)
Lemma main_toString_writes_a_page :
  ~ In "toString" (keys DOCS_CONFIG)
  /\ ~ In "toString" FLAGS
  /\ get DOCS_CONFIG "toString" = VFunction "toString"
  /\ exit_code (snd (main ["toString"] empty_world)) = 0
  /\ fs (fst (main ["toString"] empty_world)) !! "examples/toString.md"
     = Some (File (doc_header (VFunction "toString") +:+ doc_footer)).
Proof.
  split; [| split; [| split; [| split]]].
  - vm_compute. intros [H|[]]. discriminate H.
  - vm_compute. intros [H|[H|[H|[H|[H|[]]]]]]; discriminate H.
  - reflexivity.
  - vm_compute. reflexivity.
  - vm_compute. reflexivity.
Qed.

(** With the literal closed, every property name of Object.prototype passes
    the guard in the same way. *)
Lemma main_documents_every_inherited_name :
  Forall (fun name =>
            exit_code (snd (main [name] empty_world)) = 0
            /\ is_Some (fs (fst (main [name] empty_world))
                         !! path_join examplesDir (name +:+ ".md")))
         (keys Object_prototype).
Proof.
  unfold keys, Object_prototype; simpl.
  repeat (apply Forall_cons; split;
          [split; [vm_compute; reflexivity | vm_compute; eexists; reflexivity] |]).
  apply Forall_nil. exact I.
Qed.

(** ** generateDocumentation *)

Lemma app_empty_r (s : string) : s +:+ "" = s.
Proof.
  induction s as [|c s IH]; [reflexivity |].
  change (String c (s +:+ "") = String c s). f_equal. exact IH.
Qed.

(** Read with the literal of line 271 closed, generateDocumentation returns a
    page for every configuration and every file system in which each of the
    two paths is absent or a regular file: the header, the section of each
    file that is there, the footer; the file system is left as it was. *)
Lemma generateDocumentation_total exampleName c w :
  absent_or_file w (contractFile c) ->
  absent_or_file w (testFile c) ->
  generateDocumentation exampleName (VConfig c) w
  = (w, Done (((doc_header (VConfig c)
                +:+ section_of w (contractFile c) contract_section)
               +:+ section_of w (testFile c) testing_section)
              +:+ doc_footer)).
Proof.
  intros Hc Ht.
  unfold generateDocumentation, section_of, mbind, M_bind, mret, M_ret, existsSync, readFileSync.
  simpl.
  destruct Hc as [Hc|[cc Hc]], Ht as [Ht|[tc Ht]];
    repeat (rewrite ?Hc, ?Ht; simpl); rewrite ?app_empty_r; reflexivity.
Qed.

Lemma generateDocumentation_total_witness :
  exists page, generateDocumentation "fhevm-voting"
                 (get DOCS_CONFIG "fhevm-voting") empty_world = (empty_world, Done page).
Proof.
  eexists.
  apply (generateDocumentation_total "fhevm-voting"
           (mkDocConfig "FHEVM Voting System"
              "Privacy-preserving voting using Fully Homomorphic Encryption"
              "base-template/contracts/FHEMVoting.sol"
              "base-template/test/FHEMVoting.ts" "Advanced Examples") empty_world).
  - left. vm_compute. reflexivity.
  - left. vm_compute. reflexivity.
Defined.

(** A directory at the path of the test file makes the call throw. *)
Example generateDocumentation_directory :
  snd (generateDocumentation "fhevm-voting" (get DOCS_CONFIG "fhevm-voting")
         (mkWorld (<["base-template/test/FHEMVoting.ts" := Dir]> ∅) []))
  = Throw "Error: EISDIR: illegal operation on a directory, read".
Proof. vm_compute. reflexivity. Qed.

(** C8 (where the code departs from it). generateDocumentation is meant to
    return a Markdown string for every configuration and every state of the
    file system. The statement on line 271 of its body opens a double-quoted
    literal that no double quote closes before the end of the line (a
    backtick stands where the quote should be), while the statement on line
    270 is well formed: as written the function body is not valid
    TypeScript, so no call returns. *)
Theorem line_271_is_unterminated :
  first_literal line_271 = Some Unterminated
  /\ first_literal line_270
     = Some (Closed "- FHE.sub for subtraction operations\n" (";" +:+ nl)).
Proof. split; vm_compute; reflexivity. Qed.

End DocsSpec.

(* ===================================================================== *)
(** * Further properties of FHEMVoting.sol                                 *)
(* ===================================================================== *)

Module VotingMore.
Import Voting VotingSpec.

Section Administration.
Context `{!Keccak, !FHE}.

Ltac req H :=
  match type of H with
  | context [require ?c _] =>
      let E := fresh "E" in destruct c eqn:E; simpl in H; try discriminate H
  | context [checked_add ?a ?b] =>
      let E := fresh "E" in destruct (checked_add a b) eqn:E; simpl in H; try discriminate H
  end.

Ltac boolp :=
  repeat match goal with
  | H : negb _ = true |- _ => apply negb_true_iff in H
  | H : negb _ = false |- _ => apply negb_false_iff in H
  | H : (_ <=? _) = true |- _ => apply Z.leb_le in H
  | H : (_ <=? _) = false |- _ => apply Z.leb_gt in H
  | H : (_ <? _) = true |- _ => apply Z.ltb_lt in H
  | H : (_ <? _) = false |- _ => apply Z.ltb_ge in H
  | H : (_ =? _) = true |- _ => apply Z.eqb_eq in H
  | H : (_ =? _) = false |- _ => apply Z.eqb_neq in H
  | H : bool_decide _ = true |- _ => apply bool_decide_eq_true in H
  | H : bool_decide _ = false |- _ => apply bool_decide_eq_false in H
  | H : andb _ _ = true |- _ => apply andb_true_iff in H as [? ?]
  | H : checked_add _ _ = Ok _ |- _ => apply checked_add_Ok in H as [? ->]
  end.

(** Unfold the call of [Hc : call e c s = Ok (s', evs)] into its guards and
    its result. *)
Ltac open_call Hc :=
  simpl in Hc;
  first
    [ apply revealVote_Ok in Hc as (? & ? & ? & ? & ? & ? & Hc);
      injection Hc as -> ->; unfold revealed_state
    | unfold setVoterWeight, setMultipleVoterWeights, createProposal, commitVote,
        executeProposal, setVotingOpen, pauseProposal, onlyOwner, votingIsOpen in Hc;
      repeat req Hc;
      injection Hc as <- <- ].

(** Read a proposal or a commitment back from a storage that was just
    written. *)
Ltac read_back :=
  unfold proposal_at, commitment_at, weight_of, exists_proposal in *; simpl in *;
  rewrite ?lookup_total_insert in *.

(** ** The owner *)

Lemma call_owner e c s s' evs : call e c s = Ok (s', evs) -> owner s' = owner s.
Proof.
  intros Hc. destruct c; open_call Hc; reflexivity.
Qed.

Lemma transact_owner e c s : owner (transact e c s) = owner s.
Proof.
  unfold transact. destruct (call e c s) as [[s' evs]| |] eqn:Hc; try reflexivity.
  exact (call_owner e c s s' evs Hc).
Qed.

(** The deployer is the owner, and stays the owner whatever is called. *)
Theorem owner_is_the_deployer e0 txs : owner (run txs (constructor e0)) = msg_sender e0.
Proof.
  assert (Hrun : forall s, owner (run txs s) = owner s).
  { induction txs as [|[e c] txs IH]; intros s; simpl; [reflexivity|].
    rewrite IH. apply transact_owner. }
  rewrite Hrun. reflexivity.
Qed.

(** A caller other than the owner changes no voting weight and not the
    voting switch, and pauses no existing proposal. *)
Theorem only_the_owner_administers e c s :
  msg_sender e <> owner s ->
  voterWeight (transact e c s) = voterWeight s
  /\ votingOpen (transact e c s) = votingOpen s
  /\ forall q, exists_proposal s q = true ->
       active (proposal_at (transact e c s) q) = active (proposal_at s q).
Proof.
  intros Hno. unfold transact.
  destruct (call e c s) as [[s' evs]| |] eqn:Hc; try (repeat split; reflexivity).
  destruct c; open_call Hc; boolp; try contradiction.
  - split; [reflexivity | split; [simpl; congruence |]].
    intros q Hq. read_back.
    destruct (decide (proposalCount s + 1 = q)) as [<-|Hne]; [| reflexivity].
    boolp. lia.
  - split; [reflexivity | split; [simpl; congruence |]]. intros q Hq. reflexivity.
  - destruct support; (split; [reflexivity | split; [reflexivity |]]; intros q Hq; read_back;
      destruct (decide (proposalId = q)) as [<-|Hne]; reflexivity).
  - split; [reflexivity | split; [reflexivity |]]. intros q Hq. read_back.
    destruct (decide (proposalId = q)) as [<-|Hne]; reflexivity.
Qed.

(** ** What happens to a proposal once it exists *)

Lemma call_existing e c s s' evs q :
  call e c s = Ok (s', evs) ->
  exists_proposal s q = true ->
  exists_proposal s' q = true
  /\ metadata (proposal_at s' q) = metadata (proposal_at s q)
  /\ (active (proposal_at s q) = false -> active (proposal_at s' q) = false).
Proof.
  intros Hc Hq. destruct c; open_call Hc; boolp;
    try (split; [exact Hq | split; [reflexivity | tauto]]).
  - read_back. boolp.
    destruct (decide (proposalCount s + 1 = q)) as [<-|Hne]; [lia |].
    split; [| split; [reflexivity | tauto]].
    apply andb_true_iff. split; [apply Z.leb_le | apply Z.ltb_lt]; lia.
  - destruct support; read_back;
      (destruct (decide (proposalId = q)) as [<-|Hne];
       (split; [exact Hq | split; [reflexivity | tauto]])).
  - read_back. destruct (decide (proposalId = q)) as [<-|Hne];
      (split; [exact Hq | split; [reflexivity | tauto]]).
  - read_back. destruct (decide (proposalId = q)) as [<-|Hne];
      (split; [exact Hq | split; [reflexivity | simpl; tauto]]).
Qed.

Lemma run_existing txs s q :
  exists_proposal s q = true ->
  exists_proposal (run txs s) q = true
  /\ metadata (proposal_at (run txs s) q) = metadata (proposal_at s q)
  /\ (active (proposal_at s q) = false -> active (proposal_at (run txs s) q) = false).
Proof.
  revert s. induction txs as [|[e c] txs IH]; intros s Hq; simpl; [tauto|].
  assert (Hstep : exists_proposal (transact e c s) q = true
                  /\ metadata (proposal_at (transact e c s) q) = metadata (proposal_at s q)
                  /\ (active (proposal_at s q) = false ->
                      active (proposal_at (transact e c s) q) = false)).
  { unfold transact. destruct (call e c s) as [[s' evs]| |] eqn:Hc; try tauto.
    exact (call_existing e c s s' evs q Hc Hq). }
  destruct Hstep as (Hq' & Hm & Ha).
  destruct (IH _ Hq') as (Hq2 & Hm2 & Ha2).
  split; [exact Hq2 | split; [congruence | auto]].
Qed.

(** A proposal, once created, stays in the table, and its id, title,
    description, creator, creation time and voting end never change. *)
Theorem proposal_metadata_is_immutable txs s q :
  exists_proposal s q = true ->
  exists_proposal (run txs s) q = true
  /\ metadata (proposal_at (run txs s) q) = metadata (proposal_at s q).
Proof. intros Hq. destruct (run_existing txs s q Hq) as (H1 & H2 & _). tauto. Qed.

(** There is no way back from a pause: a paused proposal stays paused, and
    every later commitVote and executeProposal on it reverts. *)
Theorem pause_is_permanent e q s s' evs :
  pauseProposal e q s = Ok (s', evs) ->
  forall txs,
    active (proposal_at (run txs s') q) = false
    /\ (forall e' h, reverts (commitVote e' q h (run txs s')))
    /\ (forall e', reverts (executeProposal e' q (run txs s'))).
Proof.
  intros Hp txs.
  assert (Hs' : exists_proposal s' q = true /\ active (proposal_at s' q) = false).
  { unfold pauseProposal, onlyOwner in Hp. repeat req Hp. injection Hp as <- <-.
    read_back. rewrite decide_True by reflexivity. split; [assumption | reflexivity]. }
  destruct Hs' as [Hq Ha].
  destruct (run_existing txs s' q Hq) as (_ & _ & Hstay). specialize (Hstay Ha).
  split; [exact Hstay | split].
  - intros e' h.
    destruct (commitVote e' q h (run txs s')) as [out| |] eqn:Hr; simpl; try exact I.
    apply commitVote_Ok in Hr as (_ & _ & _ & Hact & _). congruence.
  - intros e'.
    destruct (executeProposal e' q (run txs s')) as [out| |] eqn:Hr; simpl; try exact I.
    apply executeProposal_Ok in Hr as (_ & _ & _ & Hact & _). congruence.
Qed.

(** ** The proposals table *)

Lemma exists_proposal_spec s q :
  exists_proposal s q = true <-> 0 < q <= proposalCount s.
Proof.
  unfold exists_proposal. rewrite andb_true_iff, Z.leb_le, Z.ltb_lt. lia.
Qed.

Lemma proposals_wf_same_count s s' :
  proposalCount s' = proposalCount s ->
  proposals s' = proposals s ->
  proposals_wf s -> proposals_wf s'.
Proof.
  intros Hc Hp [Hnn Hwf]. split; [lia |]. intros q. specialize (Hwf q).
  unfold exists_proposal, proposal_at in *. rewrite Hc, Hp. exact Hwf.
Qed.

Lemma proposals_wf_update s s' k p :
  proposalCount s' = proposalCount s ->
  proposals s' = <[k := p]> (proposals s) ->
  exists_proposal s k = true ->
  id p = k ->
  proposals_wf s -> proposals_wf s'.
Proof.
  intros Hc Hp Hk Hid [Hnn Hwf]. split; [lia |]. intros q. specialize (Hwf q).
  unfold exists_proposal, proposal_at in *. rewrite Hc, Hp.
  destruct (decide (k = q)) as [<-|Hne].
  - rewrite Hk. rewrite lookup_total_insert_eq. exact Hid.
  - destruct ((q <=? proposalCount s) && (0 <? q)).
    + rewrite lookup_total_insert_ne by assumption. exact Hwf.
    + rewrite lookup_insert_ne by assumption. exact Hwf.
Qed.

Ltac wf_write Hwf :=
  match goal with
  | Hex : exists_proposal ?s ?k = true |- proposals_wf _ =>
      let Hid := fresh "Hid" in
      pose proof (proj2 Hwf k) as Hid; rewrite Hex in Hid;
      eapply (proposals_wf_update s _ k);
      [reflexivity | reflexivity | exact Hex | exact Hid | exact Hwf]
  end.

Lemma proposals_wf_transact e c s : proposals_wf s -> proposals_wf (transact e c s).
Proof.
  intros Hwf. unfold transact.
  destruct (call e c s) as [[s' evs]| |] eqn:Hc; try assumption.
  destruct c; open_call Hc;
    try (apply (proposals_wf_same_count s); [reflexivity | reflexivity | exact Hwf]).
  - boolp. destruct Hwf as [Hnn Hq]. split; [simpl; lia |].
    intros q. specialize (Hq q).
    unfold exists_proposal, proposal_at in *; simpl.
    destruct (decide (proposalCount s + 1 = q)) as [<-|Hne].
    + replace ((proposalCount s + 1 <=? proposalCount s + 1) && (0 <? proposalCount s + 1))
        with true by (symmetry; apply andb_true_iff; split;
                      [apply Z.leb_le | apply Z.ltb_lt]; lia).
      rewrite lookup_total_insert_eq. reflexivity.
    + destruct ((q <=? proposalCount s) && (0 <? q)) eqn:Hex.
      * boolp.
        replace ((q <=? proposalCount s + 1) && (0 <? q)) with true
          by (symmetry; apply andb_true_iff; split; [apply Z.leb_le | apply Z.ltb_lt]; lia).
        rewrite lookup_total_insert_ne by assumption. exact Hq.
      * replace ((q <=? proposalCount s + 1) && (0 <? q)) with false.
        { rewrite lookup_insert_ne by assumption. exact Hq. }
        symmetry. apply andb_false_iff. apply andb_false_iff in Hex as [Hex|Hex].
        -- left. apply Z.leb_gt. apply Z.leb_gt in Hex. lia.
        -- right. exact Hex.
  - destruct support; wf_write Hwf.
  - wf_write Hwf.
  - wf_write Hwf.
Qed.

Lemma proposals_wf_reachable s : reachable s -> proposals_wf s.
Proof.
  intros (e0 & txs & ->).
  assert (Hrun : forall s, proposals_wf s -> proposals_wf (run txs s)).
  { induction txs as [|[e c] txs IH]; intros s Hs; simpl; [exact Hs|].
    apply IH. apply proposals_wf_transact. exact Hs. }
  apply Hrun. split; [simpl; lia |].
  intros q. unfold exists_proposal, constructor; simpl.
  destruct ((q <=? 0) && (0 <? q)) eqn:Hex; [boolp; lia | reflexivity].
Qed.

(** ** Creating and reading a proposal *)

(** createProposal goes through exactly when voting is open, the caller
    holds at least MIN_VOTING_POWER, and neither the counter nor the end of
    the voting window overflows. *)
Theorem createProposal_succeeds_iff e t d s :
  succeeds (createProposal e t d s) <->
  votingOpen s = true
  /\ MIN_VOTING_POWER <= weight_of s (msg_sender e)
  /\ proposalCount s + 1 <= MAX_UINT256
  /\ block_timestamp e + VOTING_DURATION <= MAX_UINT256.
Proof.
  unfold createProposal, votingIsOpen, checked_add. split.
  - intros Hs.
    destruct (votingOpen s); simpl in Hs; [| tauto].
    destruct (Z.leb_spec MIN_VOTING_POWER (weight_of s (msg_sender e))); simpl in Hs; [| tauto].
    destruct (Z.leb_spec (proposalCount s + 1) MAX_UINT256); simpl in Hs; [| tauto].
    destruct (Z.leb_spec (block_timestamp e + VOTING_DURATION) MAX_UINT256);
      simpl in Hs; [| tauto].
    tauto.
  - intros (Ho & Hw & Hc & Ht). rewrite Ho. simpl.
    apply Z.leb_le in Hw, Hc, Ht. rewrite Hw. simpl. rewrite Hc. simpl. rewrite Ht. simpl.
    exact I.
Qed.

(** In a reachable state a proposal that was just created reads back through
    getProposal as it was given: the next id, the title and description, the
    caller as creator, a window of seven days from the block time, not
    executed, active; every older proposal reads back as before. *)
Theorem created_proposal_reads_back e t d s s' evs :
  reachable s ->
  createProposal e t d s = Ok (s', evs) ->
  proposalCount s' = proposalCount s + 1
  /\ getProposal s' (proposalCount s + 1)
     = Ok (proposalCount s + 1, t, d, msg_sender e, block_timestamp e,
           block_timestamp e + 7 * days, false, true)
  /\ (forall q, exists_proposal s q = true -> getProposal s' q = getProposal s q)
  /\ getProposal s (proposalCount s + 1) = Revert "Proposal does not exist".
Proof.
  intros Hreach Hc.
  destruct (proposals_wf_reachable s Hreach) as [Hnn Hwf].
  unfold createProposal, votingIsOpen in Hc. repeat req Hc. boolp. injection Hc as <- <-.
  assert (Hfresh : exists_proposal s (proposalCount s + 1) = false).
  { unfold exists_proposal. apply andb_false_iff. left. apply Z.leb_gt. lia. }
  pose proof (Hwf (proposalCount s + 1)) as Hnone. rewrite Hfresh in Hnone.
  split; [reflexivity | split; [| split]].
  - unfold getProposal, exists_proposal, proposal_at; simpl.
    replace ((proposalCount s + 1 <=? proposalCount s + 1) && (0 <? proposalCount s + 1))
      with true by (symmetry; apply andb_true_iff; split;
                    [apply Z.leb_le | apply Z.ltb_lt]; lia).
    simpl. rewrite lookup_total_insert_eq. simpl.
    rewrite lookup_total_alt, Hnone. reflexivity.
  - intros q Hq. apply exists_proposal_spec in Hq.
    unfold getProposal, exists_proposal, proposal_at; simpl.
    replace ((q <=? proposalCount s + 1) && (0 <? q)) with true
      by (symmetry; apply andb_true_iff; split; [apply Z.leb_le | apply Z.ltb_lt]; lia).
    replace ((q <=? proposalCount s) && (0 <? q)) with true
      by (symmetry; apply andb_true_iff; split; [apply Z.leb_le | apply Z.ltb_lt]; lia).
    simpl. rewrite lookup_total_insert_ne by lia. reflexivity.
  - unfold getProposal. rewrite Hfresh. reflexivity.
Qed.

(** ** Committing *)

(** commitVote goes through exactly when voting is open, the caller has a
    positive weight, the proposal exists and is active, the block time is
    before votingEnd, and hasUserVoted is false for the caller. It then
    stores the hash for the caller and touches no other commitment and no
    proposal. *)
Theorem commitVote_succeeds_iff e pid h s :
  (succeeds (commitVote e pid h s) <->
     votingOpen s = true
     /\ 0 < weight_of s (msg_sender e)
     /\ exists_proposal s pid = true
     /\ active (proposal_at s pid) = true
     /\ block_timestamp e < votingEnd (proposal_at s pid)
     /\ hasUserVoted s pid (msg_sender e) = false)
  /\ (forall s' evs, commitVote e pid h s = Ok (s', evs) ->
        voteHash (commitment_at s' pid (msg_sender e)) = h
        /\ (forall q v, (q, v) <> (pid, msg_sender e) ->
              commitment_at s' q v = commitment_at s q v)
        /\ proposals s' = proposals s).
Proof.
  split; [split |].
  - intros Hs. destruct (commitVote e pid h s) as [out| |] eqn:Hr; simpl in Hs; try tauto.
    apply commitVote_Ok in Hr as (Ho & Hw & Hex & Ha & Ht & Hz & _).
    unfold hasUserVoted. rewrite Hz. repeat split; assumption.
  - intros (Ho & Hw & Hex & Ha & Ht & Hv).
    unfold hasUserVoted in Hv. apply negb_false_iff in Hv.
    unfold commitVote, votingIsOpen. rewrite Ho, Hex, Ha, Hv. simpl.
    apply Z.ltb_lt in Hw, Ht. rewrite Hw, Ht. simpl. exact I.
  - intros s' evs Hr.
    apply commitVote_Ok in Hr as (_ & _ & _ & _ & _ & _ & Hout). injection Hout as -> ->.
    split; [| split; [| reflexivity]].
    + unfold commitment_at; simpl. rewrite lookup_total_insert_eq. reflexivity.
    + intros q v Hne. unfold commitment_at; simpl.
      rewrite lookup_total_insert_ne by congruence. reflexivity.
Qed.

(** ** Revealing once *)

Lemma call_revealed_stable e c s s' evs q v :
  call e c s = Ok (s', evs) ->
  revealed (commitment_at s q v) = true ->
  revealed (commitment_at s' q v) = true.
Proof.
  intros Hc Hr. destruct c; open_call Hc; try exact Hr.
  - read_back. destruct (decide ((proposalId, msg_sender e) = (q, v))) as [Heq|Hne];
      [inversion Heq; subst; exact Hr | exact Hr].
  - destruct support; read_back;
      (destruct (decide ((proposalId, msg_sender e) = (q, v))) as [Heq|Hne];
       [reflexivity | exact Hr]).
Qed.

Lemma run_revealed_stable txs s q v :
  revealed (commitment_at s q v) = true ->
  revealed (commitment_at (run txs s) q v) = true.
Proof.
  revert s. induction txs as [|[e c] txs IH]; intros s Hr; simpl; [exact Hr|].
  apply IH. unfold transact.
  destruct (call e c s) as [[s' evs]| |] eqn:Hc; try exact Hr.
  exact (call_revealed_stable e c s s' evs q v Hc Hr).
Qed.

(** A vote is counted once: after a successful revealVote, hasUserRevealed
    answers true for the caller from then on, and every further revealVote of
    the same address on the same proposal reverts, whatever vote and nonce
    it gives and whatever was called in between. *)
Theorem reveal_at_most_once e pid support nonce s s' evs :
  revealVote e pid support nonce s = Ok (s', evs) ->
  forall txs,
    hasUserRevealed (run txs s') pid (msg_sender e) = true
    /\ forall e' support' nonce', msg_sender e' = msg_sender e ->
         reverts (revealVote e' pid support' nonce' (run txs s')).
Proof.
  intros Hr txs.
  assert (Hnow : revealed (commitment_at s' pid (msg_sender e)) = true).
  { apply revealVote_Ok in Hr as (_ & _ & _ & _ & _ & _ & Hout). injection Hout as -> ->.
    unfold revealed_state, commitment_at; simpl.
    rewrite lookup_total_insert_eq. reflexivity. }
  pose proof (run_revealed_stable txs s' pid (msg_sender e) Hnow) as Hlater.
  split; [exact Hlater |].
  intros e' support' nonce' Hs.
  destruct (revealVote e' pid support' nonce' (run txs s')) as [out| |] eqn:Hr2;
    simpl; try exact I.
  apply revealVote_Ok in Hr2 as (_ & _ & _ & Hrv & _). rewrite Hs in Hrv. congruence.
Qed.

(** In every reachable state an address that has revealed has committed:
    hasUserRevealed implies hasUserVoted. *)
Theorem revealed_implies_committed s q v :
  reachable s ->
  hasUserRevealed s q v = true -> hasUserVoted s q v = true.
Proof.
  intros (e0 & txs & ->).
  set (inv := fun st : State =>
                forall q v, revealed (commitment_at st q v) = true ->
                            voteHash (commitment_at st q v) <> 0).
  assert (Hstep : forall e c st, inv st -> inv (transact e c st)).
  { intros e c st Hinv q' v' Hr. unfold transact in *.
    destruct (call e c st) as [[s' evs]| |] eqn:Hc; try (apply Hinv; exact Hr).
    specialize (Hinv q' v').
    destruct c; open_call Hc; try (apply Hinv; exact Hr).
    - read_back. destruct (decide ((proposalId, msg_sender e) = (q', v'))) as [Heq|Hne];
        [| apply Hinv; exact Hr].
      inversion Heq; subst. simpl in *. boolp. exfalso. apply Hinv; assumption.
    - destruct support; read_back;
        (destruct (decide ((proposalId, msg_sender e) = (q', v'))) as [Heq|Hne];
         [inversion Heq; subst; simpl; boolp; assumption | apply Hinv; exact Hr]). }
  assert (Hrun : forall st, inv st -> inv (run txs st)).
  { induction txs as [|[e c] txs IH]; intros st Hst; simpl; [exact Hst|].
    apply IH. apply Hstep. exact Hst. }
  intros Hr. unfold hasUserVoted, hasUserRevealed in *.
  apply negb_true_iff. apply Z.eqb_neq.
  apply (Hrun (constructor e0)); [| exact Hr].
  intros q' v' Hr'. unfold commitment_at, constructor in Hr'; simpl in Hr'.
  rewrite lookup_total_empty in Hr'. discriminate Hr'.
Qed.

(** ** Weights in a batch *)

Lemma set_voterWeight_same s : set_voterWeight (voterWeight s) s = s.
Proof. destruct s; reflexivity. Qed.

Lemma run_weight_calls e pairs s :
  msg_sender e = owner s ->
  run (map (fun vw => (e, CallSetVoterWeight (fst vw) (snd vw))) pairs) s
  = set_voterWeight (fold_left (fun m vw => <[fst vw := snd vw]> m) pairs (voterWeight s)) s.
Proof.
  revert s. induction pairs as [|[v w] pairs IH]; intros s Ho; simpl.
  - symmetry. apply set_voterWeight_same.
  - assert (Hstep : transact e (CallSetVoterWeight v w) s
                    = set_voterWeight (<[v := w]> (voterWeight s)) s).
    { unfold transact; simpl. unfold setVoterWeight, onlyOwner.
      rewrite bool_decide_eq_true_2 by exact Ho. reflexivity. }
    rewrite Hstep. rewrite IH by exact Ho. reflexivity.
Qed.

(** setMultipleVoterWeights reverts on arrays of different lengths, and
    otherwise leaves the storage that the calls setVoterWeight(voters[i],
    weights[i]), made one after the other by the same caller, leave. *)
Theorem batch_weights_is_sequence e voters weights s :
  (length voters <> length weights ->
     reverts (setMultipleVoterWeights e voters weights s))
  /\ (forall s' evs, setMultipleVoterWeights e voters weights s = Ok (s', evs) ->
        s' = run (weight_calls e voters weights) s /\ evs = []).
Proof.
  split.
  - intros Hlen. unfold setMultipleVoterWeights, onlyOwner.
    destruct (bool_decide (msg_sender e = owner s)); simpl; [| exact I].
    rewrite bool_decide_eq_false_2 by exact Hlen. exact I.
  - intros s' evs Hc. unfold setMultipleVoterWeights, onlyOwner in Hc.
    repeat req Hc. boolp. injection Hc as <- <-.
    split; [| reflexivity]. unfold weight_calls.
    rewrite run_weight_calls by assumption. reflexivity.
Qed.

Lemma fold_insert_not_in (pairs : list (address * Z)) (m : gmap address Z) v :
  ~ In v (map fst pairs) ->
  fold_left (fun m vw => <[fst vw := snd vw]> m) pairs m !! v = m !! v.
Proof.
  revert m. induction pairs as [|[a w] pairs IH]; intros m Hn; simpl; [reflexivity|].
  simpl in Hn. rewrite IH by tauto.
  apply lookup_insert_ne. intros ->. tauto.
Qed.

(** After a batch, an address outside the batch keeps its weight, and an
    address listed once holds the weight given at its position. *)
Theorem batch_weights_read_back e voters weights s s' evs :
  setMultipleVoterWeights e voters weights s = Ok (s', evs) ->
  (forall v, ~ In v voters -> weight_of s' v = weight_of s v)
  /\ (NoDup voters ->
      forall i v w, voters !! i = Some v -> weights !! i = Some w -> weight_of s' v = w).
Proof.
  intros Hc. unfold setMultipleVoterWeights, onlyOwner in Hc.
  repeat req Hc. boolp. injection Hc as <- <-.
  match goal with Hl : length voters = length weights |- _ => rename Hl into Hlen end.
  unfold weight_of; simpl. split.
  - intros v Hn. f_equal. apply fold_insert_not_in.
    intros Hin. apply Hn. clear -Hin.
    revert weights Hin. induction voters as [|a vs IH]; intros [|w ws] Hin; simpl in *; try tauto.
    destruct Hin as [->|Hin]; [tauto | right; eapply IH; exact Hin].
  - intros Hnd. generalize (voterWeight s). revert weights Hlen.
    induction Hnd as [|a vs Ha Hnd IH]; intros [|w0 ws] Hlen m i v w Hv Hw;
      try discriminate Hlen; [destruct i; discriminate Hv |].
    simpl in Hlen. injection Hlen as Hlen. simpl.
    destruct i as [|i]; simpl in Hv, Hw.
    + injection Hv as ->. injection Hw as ->.
      rewrite fold_insert_not_in.
      * rewrite lookup_insert_eq. reflexivity.
      * intros Hin. apply Ha. apply list_elem_of_In.
        clear -Hin. revert ws Hin.
        induction vs as [|b vs IH2]; intros [|w' ws] Hin; simpl in *; try tauto.
        destruct Hin as [->|Hin]; [tauto | right; eapply IH2; exact Hin].
    + eapply IH; eassumption.
Qed.

(** ** The tally and the events *)

Lemma revealed_total_app q b evs1 evs2 :
  revealed_total q b (evs1 ++ evs2) = revealed_total q b evs1 + revealed_total q b evs2.
Proof.
  induction evs1 as [|ev evs1 IH]; simpl; [reflexivity|]. rewrite IH. lia.
Qed.

Lemma revealed_total_none q b log :
  (forall p v b' w, In (VoteRevealed p v b' w) log -> p <> q) ->
  revealed_total q b log = 0.
Proof.
  induction log as [|ev log IH]; intros Hlog; simpl; [reflexivity|].
  rewrite IH by (intros p v b' w Hin; apply (Hlog p v b' w); right; exact Hin).
  destruct ev as [| |p v b' w|]; simpl; try reflexivity.
  assert (Hne : p <> q) by (apply (Hlog p v b' w); left; reflexivity).
  apply Z.eqb_neq in Hne. rewrite Hne. reflexivity.
Qed.

Lemma tally_inv_quiet decrypt s s' log evs :
  (forall q, exists_proposal s' q = exists_proposal s q) ->
  (forall q b, tally b (proposal_at s' q) = tally b (proposal_at s q)) ->
  (forall q b, revealed_total q b evs = 0) ->
  (forall p v b w, ~ In (VoteRevealed p v b w) evs) ->
  tally_inv decrypt s log -> tally_inv decrypt s' (log ++ evs).
Proof.
  intros Hex Ht Hz Hno [Hlog Hsum]. split.
  - intros p v b w Hin. apply in_app_or in Hin as [Hin|Hin].
    + rewrite Hex. eapply Hlog; exact Hin.
    + destruct (Hno p v b w Hin).
  - intros q b Hq. rewrite Hex in Hq.
    rewrite revealed_total_app, Hz, Z.add_0_r, Ht. apply Hsum. exact Hq.
Qed.

Lemma tally_inv_transact decrypt e c s log :
  homomorphic decrypt ->
  counters_initialised s ->
  tally_inv decrypt s log ->
  tally_inv decrypt (transact e c s) (log ++ emitted e c s).
Proof.
  intros [Henc Hadd] Hci Hinv. unfold transact, emitted.
  destruct (call e c s) as [[s' evs]| |] eqn:Hc;
    try (rewrite app_nil_r; exact Hinv).
  destruct c; open_call Hc;
    try (apply (tally_inv_quiet decrypt s); try exact Hinv; try reflexivity;
         intros; simpl; tauto).
  - (* createProposal *)
    boolp. destruct Hinv as [Hlog Hsum]. split.
    + intros p v b w Hin. apply in_app_or in Hin as [Hin|Hin].
      * apply Hlog in Hin. apply exists_proposal_spec in Hin.
        apply exists_proposal_spec. simpl. lia.
      * simpl in Hin. destruct Hin as [Hin|[]]. discriminate Hin.
    + intros q b Hq. rewrite revealed_total_app. simpl. rewrite Z.add_0_r.
      apply exists_proposal_spec in Hq. simpl in Hq.
      unfold proposal_at; simpl.
      destruct (decide (proposalCount s + 1 = q)) as [<-|Hne].
      * rewrite lookup_total_insert_eq.
        rewrite revealed_total_none.
        { destruct b; simpl; rewrite Henc; try reflexivity; lia. }
        intros p v b' w Hin Heq. apply Hlog in Hin. apply exists_proposal_spec in Hin. lia.
      * rewrite lookup_total_insert_ne by assumption.
        apply Hsum. apply exists_proposal_spec. lia.
  - (* commitVote *)
    apply (tally_inv_quiet decrypt s); try exact Hinv; try reflexivity.
    intros p v b w Hin. simpl in Hin. destruct Hin as [Hin|[]]. discriminate Hin.
  - (* revealVote *)
    destruct Hinv as [Hlog Hsum].
    assert (Hpid : exists_proposal s proposalId = true) by assumption.
    split.
    + intros p v b w Hin. apply in_app_or in Hin as [Hin|Hin].
      * apply Hlog in Hin. destruct support; exact Hin.
      * simpl in Hin. destruct Hin as [Hin|[]]. injection Hin as <- _ _ _.
        destruct support; exact Hpid.
    + intros q b Hq.
      assert (Hq0 : exists_proposal s q = true) by (destruct support; exact Hq).
      rewrite revealed_total_app. simpl. rewrite Z.add_0_r.
      specialize (Hsum q b Hq0).
      assert (Hw : 0 <= uint32 (weight_of s (msg_sender e)) < 2 ^ 32)
        by (unfold uint32; apply Z.mod_pos_bound; lia).
      destruct (Hci proposalId Hpid) as [Hy Hn].
      assert (Hiy : initialised (encryptedYesCount (proposal_at s proposalId))
                    = encryptedYesCount (proposal_at s proposalId))
        by (unfold initialised; apply Z.eqb_neq in Hy; rewrite Hy; reflexivity).
      assert (Hin : initialised (encryptedNoCount (proposal_at s proposalId))
                    = encryptedNoCount (proposal_at s proposalId))
        by (unfold initialised; apply Z.eqb_neq in Hn; rewrite Hn; reflexivity).
      clear Hy Hn.
      destruct (Z.eqb_spec proposalId q) as [<-|Hne]; simpl.
      * destruct support, b; unfold proposal_at, tally in *; simpl;
          rewrite lookup_total_insert_eq; simpl;
          rewrite ?Hiy, ?Hin;
          rewrite ?Hadd, ?Henc by exact Hw; rewrite ?Hsum;
          rewrite ?Z.add_0_r, ?Z.add_mod_idemp_l by lia; reflexivity.
      * rewrite Z.add_0_r.
        destruct support; unfold proposal_at in *; simpl;
          rewrite lookup_total_insert_ne by assumption; exact Hsum.
  - (* executeProposal *)
    apply (tally_inv_quiet decrypt s); try exact Hinv; try reflexivity.
    + intros q b. unfold proposal_at; simpl.
      destruct (decide (proposalId = q)) as [<-|Hne].
      * rewrite lookup_total_insert_eq. destruct b; reflexivity.
      * rewrite lookup_total_insert_ne by assumption. reflexivity.
    + intros p v b w Hin. simpl in Hin. destruct Hin as [Hin|[]]. discriminate Hin.
  - (* pauseProposal *)
    apply (tally_inv_quiet decrypt s); try exact Hinv; try reflexivity.
    + intros q b. unfold proposal_at; simpl.
      destruct (decide (proposalId = q)) as [<-|Hne].
      * rewrite lookup_total_insert_eq. destruct b; reflexivity.
      * rewrite lookup_total_insert_ne by assumption. reflexivity.
    + intros p v b w Hin. destruct Hin.
Qed.

Lemma tally_inv_run decrypt txs s log :
  homomorphic decrypt ->
  counters_initialised s ->
  tally_inv decrypt s log ->
  tally_inv decrypt (run txs s) (log ++ run_log txs s).
Proof.
  intros Hhom. revert s log. induction txs as [|[e c] txs IH]; intros s log Hci Hinv; simpl.
  - rewrite app_nil_r. exact Hinv.
  - rewrite app_assoc. apply IH.
    + apply counters_initialised_transact. exact Hci.
    + apply tally_inv_transact; assumption.
Qed.

(** Under a decryption for which the library is homomorphic, each encrypted
    counter of each proposal decrypts, at any point of the contract's life, to
    the sum modulo 2^32 of the 32-bit truncations of the weights that the
    VoteRevealed events emitted so far report for that proposal and side. *)
Theorem tally_is_the_sum_of_revealed_weights decrypt e0 txs q b :
  homomorphic decrypt ->
  exists_proposal (run txs (constructor e0)) q = true ->
  decrypt (tally b (proposal_at (run txs (constructor e0)) q))
  = revealed_total q b (run_log txs (constructor e0)) mod 2 ^ 32.
Proof.
  intros Hhom Hq.
  assert (Hinit : tally_inv decrypt (constructor e0) []).
  { split; [intros p v b' w [] |].
    intros q' b' Hq'. apply exists_proposal_spec in Hq'. simpl in Hq'. lia. }
  assert (Hci : counters_initialised (constructor e0)).
  { intros q' Hq'. apply exists_proposal_spec in Hq'. simpl in Hq'. lia. }
  destruct (tally_inv_run decrypt txs (constructor e0) [] Hhom Hci Hinit) as [_ Hsum].
  apply Hsum. exact Hq.
Qed.

(** ** The status string *)

(** getVotingStatus agrees with the calls. It reads Awaiting execution
    whenever executeProposal is about to succeed; from then on, whatever is
    called, it reads Executed as long as the proposal is active and Proposal
    not active once it is paused (the active flag is tested first). It reads
    Voting in progress whenever commitVote is about to succeed on a proposal
    that is not executed; Proposal not active at any time after a pause; and
    Proposal does not exist for an id outside 1..proposalCount. *)
Theorem status_follows_the_calls e pid s :
  (0 <= pid -> exists_proposal s pid = false ->
     getVotingStatus e s pid = Ok "Proposal does not exist"%string)
  /\ (forall s' evs, executeProposal e pid s = Ok (s', evs) ->
        getVotingStatus e s pid = Ok "Awaiting execution"%string
        /\ (forall e', getVotingStatus e' s' pid = Ok "Executed"%string)
        /\ forall txs e',
             getVotingStatus e' (run txs s') pid
             = Ok (if active (proposal_at (run txs s') pid)
                   then "Executed"%string else "Proposal not active"%string))
  /\ (forall h, succeeds (commitVote e pid h s) ->
        executed (proposal_at s pid) = false ->
        getVotingStatus e s pid = Ok "Voting in progress"%string)
  /\ (forall e0 s' evs, pauseProposal e0 pid s = Ok (s', evs) ->
        forall txs e', getVotingStatus e' (run txs s') pid = Ok "Proposal not active"%string).
Proof.
  assert (Hhead : forall st, exists_proposal st pid = true ->
            (proposalCount st <? pid) || (pid =? 0) = false).
  { intros st Hex. apply exists_proposal_spec in Hex.
    apply orb_false_iff. split; [apply Z.ltb_ge | apply Z.eqb_neq]; lia. }
  split; [| split; [| split]].
  - intros Hpid Hex. unfold getVotingStatus.
    replace ((proposalCount s <? pid) || (pid =? 0)) with true; [reflexivity |].
    symmetry. apply orb_true_iff. unfold exists_proposal in Hex.
    apply andb_false_iff in Hex as [Hex|Hex].
    + left. apply Z.ltb_lt. apply Z.leb_gt in Hex. exact Hex.
    + right. apply Z.eqb_eq. apply Z.ltb_ge in Hex. lia.
  - intros s' evs Hx. unfold executeProposal in Hx.
    destruct (exists_proposal s pid) eqn:Hex; simpl in Hx; [| discriminate Hx].
    destruct (checked_add (votingEnd (proposal_at s pid)) (1 * days)) as [dl| |] eqn:Hdl;
      simpl in Hx; try discriminate Hx.
    destruct (dl <=? block_timestamp e) eqn:Hdue; simpl in Hx; [| discriminate Hx].
    destruct (executed (proposal_at s pid)) eqn:Hexe; simpl in Hx; [discriminate Hx |].
    destruct (active (proposal_at s pid)) eqn:Hact; simpl in Hx; [| discriminate Hx].
    injection Hx as <- <-.
    pose proof Hdl as Hdl'. apply checked_add_Ok in Hdl' as [_ ->].
    apply Z.leb_le in Hdue.
    assert (Hafter : forall txs e',
              getVotingStatus e'
                (run txs (set_proposals
                            (<[pid := set_executed true (proposal_at s pid)]> (proposals s)) s))
                pid
              = Ok (if active (proposal_at
                                 (run txs (set_proposals
                                             (<[pid := set_executed true (proposal_at s pid)]>
                                                (proposals s)) s)) pid)
                    then "Executed"%string else "Proposal not active"%string)).
    { intros txs e'.
      match goal with |- context [run txs ?st] => set (s1 := st) end.
      assert (Hex1 : exists_proposal s1 pid = true) by exact Hex.
      assert (Hx1 : executed (proposal_at s1 pid) = true).
      { unfold s1, proposal_at; simpl. rewrite lookup_total_insert_eq. reflexivity. }
      destruct (run_existing txs s1 pid Hex1) as (Hex2 & _ & _).
      pose proof (run_executed_stable txs s1 pid Hx1) as Hx2.
      unfold getVotingStatus. rewrite (Hhead _ Hex2), Hx2.
      destruct (active (proposal_at (run txs s1) pid)); reflexivity. }
    split; [| split; [| exact Hafter]].
    + unfold getVotingStatus. rewrite (Hhead s Hex), Hact, Hexe. simpl.
      replace (block_timestamp e <? votingEnd (proposal_at s pid)) with false
        by (symmetry; apply Z.ltb_ge; unfold days in *; lia).
      rewrite Hdl. simpl.
      replace (block_timestamp e <? votingEnd (proposal_at s pid) + 1 * days) with false
        by (symmetry; apply Z.ltb_ge; lia).
      reflexivity.
    + intros e'. unfold getVotingStatus.
      change (proposalCount (set_proposals _ s)) with (proposalCount s).
      rewrite (Hhead s Hex). unfold proposal_at; simpl.
      rewrite lookup_total_insert_eq. simpl.
      fold (proposal_at s pid). rewrite Hact. reflexivity.
  - intros h Hs Hexe.
    destruct (commitVote e pid h s) as [out| |] eqn:Hr; simpl in Hs; try tauto.
    apply commitVote_Ok in Hr as (_ & _ & Hex & Hact & Ht & _).
    unfold getVotingStatus. rewrite (Hhead s Hex), Hact, Hexe. simpl.
    apply Z.ltb_lt in Ht. rewrite Ht. reflexivity.
  - intros e0 s' evs Hp txs e'.
    assert (Hs' : exists_proposal s' pid = true /\ active (proposal_at s' pid) = false).
    { unfold pauseProposal, onlyOwner in Hp. repeat req Hp. injection Hp as <- <-.
      read_back. rewrite decide_True by reflexivity. split; [assumption | reflexivity]. }
    destruct Hs' as [Hq Ha].
    destruct (run_existing txs s' pid Hq) as (Hq2 & _ & Hstay). specialize (Hstay Ha).
    unfold getVotingStatus. rewrite (Hhead _ Hq2), Hstay. reflexivity.
Qed.

End Administration.

(** ** The commitment preimage *)

Section Packing.

Lemma byte_of_Z_to_N z : Byte.to_N (byte_of_Z z) = Z.to_N (z mod 256).
Proof.
  unfold byte_of_Z.
  destruct (Byte.of_N (Z.to_N (z mod 256))) as [b|] eqn:Hb; simpl.
  - apply Byte.to_of_N. exact Hb.
  - apply Byte.of_N_None_iff in Hb.
    pose proof (Z.mod_pos_bound z 256 ltac:(lia)). lia.
Qed.

Lemma byte_of_Z_inj x y : byte_of_Z x = byte_of_Z y -> x mod 256 = y mod 256.
Proof.
  intros Heq. apply (f_equal Byte.to_N) in Heq. rewrite !byte_of_Z_to_N in Heq.
  pose proof (Z.mod_pos_bound x 256 ltac:(lia)).
  pose proof (Z.mod_pos_bound y 256 ltac:(lia)). lia.
Qed.

Lemma be_bytes_length n x : length (be_bytes n x) = n.
Proof.
  revert x. induction n as [|n IH]; intros x; simpl; [reflexivity|].
  rewrite length_app, IH. simpl. lia.
Qed.

Lemma be_bytes_inj n x y :
  be_bytes n x = be_bytes n y -> x mod 256 ^ Z.of_nat n = y mod 256 ^ Z.of_nat n.
Proof.
  revert x y. induction n as [|n IH]; intros x y Heq.
  - simpl. rewrite !Z.mod_1_r. reflexivity.
  - simpl in Heq. apply app_inj_tail in Heq as [Hhi Hlo].
    apply IH in Hhi. apply byte_of_Z_inj in Hlo.
    rewrite Nat2Z.inj_succ, Z.pow_succ_r by lia.
    rewrite !(Z.rem_mul_r _ 256 (256 ^ Z.of_nat n)) by lia.
    rewrite Hhi, Hlo. reflexivity.
Qed.

(** abi.encodePacked(support, nonce, sender) is 53 bytes long and determines
    its three arguments: two packings of a uint256 nonce and a 160-bit address
    are equal only if the vote, the nonce and the address are. *)
Theorem encodePacked_is_injective b1 n1 a1 b2 n2 a2 :
  is_uint256 n1 -> is_uint256 n2 ->
  0 <= a1 < 2 ^ 160 -> 0 <= a2 < 2 ^ 160 ->
  length (encodePacked b1 n1 a1) = 53%nat
  /\ (encodePacked b1 n1 a1 = encodePacked b2 n2 a2 -> b1 = b2 /\ n1 = n2 /\ a1 = a2).
Proof.
  intros Hn1 Hn2 Ha1 Ha2. unfold encodePacked. split.
  - rewrite !length_app, !be_bytes_length. reflexivity.
  - intros Heq. change ([if b1 then x01 else x00] ++ be_bytes 32 n1 ++ be_bytes 20 a1)
      with ((if b1 then x01 else x00) :: (be_bytes 32 n1 ++ be_bytes 20 a1)) in Heq.
    change ([if b2 then x01 else x00] ++ be_bytes 32 n2 ++ be_bytes 20 a2)
      with ((if b2 then x01 else x00) :: (be_bytes 32 n2 ++ be_bytes 20 a2)) in Heq.
    pose proof (be_bytes_length 32 n1) as L1. pose proof (be_bytes_length 32 n2) as L2.
    remember (be_bytes 32 n1) as N1 eqn:HN1. remember (be_bytes 32 n2) as N2 eqn:HN2.
    remember (be_bytes 20 a1) as A1 eqn:HA1. remember (be_bytes 20 a2) as A2 eqn:HA2.
    injection Heq as Hb Hrest.
    apply app_inj_1 in Hrest as [Hn Ha]; [| congruence].
    subst N1 N2 A1 A2.
    apply be_bytes_inj in Hn, Ha.
    unfold is_uint256, MAX_UINT256 in *.
    change (256 ^ Z.of_nat 32) with (2 ^ 256) in Hn.
    change (256 ^ Z.of_nat 20) with (2 ^ 160) in Ha.
    rewrite !Z.mod_small in Hn by lia. rewrite !Z.mod_small in Ha by lia.
    split; [destruct b1, b2; congruence | split; assumption].
Qed.

End Packing.

(** ** The further properties on the concrete run *)

Section OnTheRun.
#[local] Existing Instances sample_keccak sample_FHE.

Lemma only_the_owner_administers_witness :
  voterWeight (transact (env alice t0) (CallSetVoterWeight alice 1000000) st_open)
  = voterWeight st_open
  /\ votingOpen (transact (env alice t0) (CallSetVotingOpen false) st_open) = votingOpen st_open
  /\ active (proposal_at (transact (env alice t0) (CallPauseProposal 1) st_open) 1)
     = active (proposal_at st_open 1).
Proof.
  assert (Hno : msg_sender (env alice t0) <> owner st_open) by (vm_compute; discriminate).
  split; [| split].
  - apply (only_the_owner_administers (env alice t0) (CallSetVoterWeight alice 1000000)
             st_open Hno).
  - apply (only_the_owner_administers (env alice t0) (CallSetVotingOpen false) st_open Hno).
  - apply (only_the_owner_administers (env alice t0) (CallPauseProposal 1) st_open Hno).
    vm_compute. reflexivity.
Defined.

Lemma proposal_metadata_is_immutable_witness :
  metadata (proposal_at
              (run [(env alice (t0 + 10), CallCommitVote 1 alice_hash);
                    (env deployer (t0 + 15), CallSetVoterWeight bob (2 ^ 32));
                    (env bob (t0 + 20), CallCommitVote 1 bob_hash);
                    (env bob (t0 + VOTING_DURATION), CallRevealVote 1 true 9);
                    (env alice (t0 + VOTING_DURATION), CallRevealVote 1 true 7);
                    (env deployer (t0 + VOTING_DURATION + days), CallExecuteProposal 1)]
                 st_open) 1)
  = metadata (proposal_at st_open 1).
Proof.
  exact (proj2 (proposal_metadata_is_immutable
           [(env alice (t0 + 10), CallCommitVote 1 alice_hash);
            (env deployer (t0 + 15), CallSetVoterWeight bob (2 ^ 32));
            (env bob (t0 + 20), CallCommitVote 1 bob_hash);
            (env bob (t0 + VOTING_DURATION), CallRevealVote 1 true 9);
            (env alice (t0 + VOTING_DURATION), CallRevealVote 1 true 7);
            (env deployer (t0 + VOTING_DURATION + days), CallExecuteProposal 1)] st_open 1
           ltac:(vm_compute; reflexivity))).
Defined.

Lemma pause_is_permanent_witness :
  reverts (commitVote (env alice (t0 + 10)) 1 alice_hash
             (run [(env deployer (t0 + 6), CallSetVotingOpen true)]
                (transact (env deployer (t0 + 5)) (CallPauseProposal 1) st_open)))
  /\ reverts (executeProposal (env deployer (t0 + 100 * days)) 1
                (run [(env deployer (t0 + 6), CallSetVotingOpen true)]
                   (transact (env deployer (t0 + 5)) (CallPauseProposal 1) st_open))).
Proof.
  assert (Hp : pauseProposal (env deployer (t0 + 5)) 1 st_open
               = Ok (transact (env deployer (t0 + 5)) (CallPauseProposal 1) st_open, []))
    by (vm_compute; reflexivity).
  destruct (pause_is_permanent (env deployer (t0 + 5)) 1 st_open
              (transact (env deployer (t0 + 5)) (CallPauseProposal 1) st_open) [] Hp
              [(env deployer (t0 + 6), CallSetVotingOpen true)]) as (_ & Hcommit & Hexec).
  split; [exact (Hcommit _ _) | exact (Hexec _)].
Defined.

Lemma createProposal_succeeds_iff_witness :
  succeeds (createProposal (env deployer t0) "Second" "Another one" st_open)
  /\ ~ succeeds (createProposal (env alice t0) "Third" "By alice"
                   (transact (env deployer t0) (CallSetVoterWeight alice 99) st_open)).
Proof.
  split.
  - apply (createProposal_succeeds_iff (env deployer t0) "Second" "Another one" st_open).
    vm_compute. repeat split; discriminate.
  - intros Hs.
    apply (createProposal_succeeds_iff (env alice t0) "Third" "By alice") in Hs
      as (_ & Hw & _).
    vm_compute in Hw. apply Hw. reflexivity.
Defined.

Lemma created_proposal_reads_back_witness :
  getProposal (transact (env deployer (t0 + 1)) (CallCreateProposal "Second" "Another one")
                 st_committed) 2
  = Ok (2, "Second"%string, "Another one"%string, deployer, t0 + 1, t0 + 1 + 7 * days,
        false, true).
Proof.
  assert (Hr : reachable st_committed).
  { exists (env deployer t0),
      [(env deployer t0, CallSetVoterWeight deployer 100);
       (env deployer t0, CallSetVoterWeight alice (2 ^ 32 + 5));
       (env deployer t0, CallCreateProposal "Raise quorum" "Raise the quorum to 60%");
       (env alice (t0 + 10), CallCommitVote 1 alice_hash)].
    vm_compute. reflexivity. }
  destruct (created_proposal_reads_back (env deployer (t0 + 1)) "Second" "Another one"
              st_committed
              (transact (env deployer (t0 + 1)) (CallCreateProposal "Second" "Another one")
                 st_committed)
              [ProposalCreated 2 "Second" deployer (t0 + 1 + 7 * days)] Hr)
    as (_ & Hget & _).
  - vm_compute. reflexivity.
  - vm_compute in Hget. vm_compute. exact Hget.
Defined.

Lemma commitVote_succeeds_iff_witness :
  succeeds (commitVote (env alice (t0 + 10)) 1 alice_hash st_open)
  /\ voteHash (commitment_at st_committed 1 alice) = alice_hash
  /\ ~ succeeds (commitVote (env 77 (t0 + 10)) 1 alice_hash st_open).
Proof.
  destruct (commitVote_succeeds_iff (env alice (t0 + 10)) 1 alice_hash st_open) as [Hiff Hpost].
  split; [| split].
  - apply Hiff. vm_compute. repeat split; reflexivity.
  - apply (Hpost st_committed [VoteCommitted 1 alice alice_hash]). vm_compute. reflexivity.
  - intros Hs.
    apply (proj1 (commitVote_succeeds_iff (env 77 (t0 + 10)) 1 alice_hash st_open)) in Hs
      as (_ & Hw & _).
    vm_compute in Hw. discriminate Hw.
Defined.

Lemma reveal_at_most_once_witness :
  hasUserRevealed st_executed 1 alice = true
  /\ reverts (revealVote (env alice (t0 + 9 * days)) 1 true 7 st_executed).
Proof.
  assert (Hr : revealVote (env alice (t0 + VOTING_DURATION)) 1 true 7 st_primed
               = Ok (st_revealed, [VoteRevealed 1 alice true (2 ^ 32 + 5)]))
    by (vm_compute; reflexivity).
  destruct (reveal_at_most_once (env alice (t0 + VOTING_DURATION)) 1 true 7 st_primed
              st_revealed [VoteRevealed 1 alice true (2 ^ 32 + 5)] Hr
              [(env deployer (t0 + VOTING_DURATION + days), CallExecuteProposal 1)])
    as [Hflag Hrev].
  split; [exact Hflag | apply Hrev; vm_compute; reflexivity].
Defined.

Lemma revealed_implies_committed_witness : hasUserVoted st_revealed 1 alice = true.
Proof.
  apply revealed_implies_committed.
  - exists (env deployer t0),
      [(env deployer t0, CallSetVoterWeight deployer 100);
       (env deployer t0, CallSetVoterWeight alice (2 ^ 32 + 5));
       (env deployer t0, CallCreateProposal "Raise quorum" "Raise the quorum to 60%");
       (env alice (t0 + 10), CallCommitVote 1 alice_hash);
       (env deployer (t0 + 15), CallSetVoterWeight bob (2 ^ 32));
       (env bob (t0 + 20), CallCommitVote 1 bob_hash);
       (env bob (t0 + VOTING_DURATION), CallRevealVote 1 true 9);
       (env alice (t0 + VOTING_DURATION), CallRevealVote 1 true 7)].
    vm_compute. reflexivity.
  - vm_compute. reflexivity.
Defined.

Lemma reveal_opens_the_commitment_witness :
  generateVoteHash (env alice (t0 + VOTING_DURATION)) true 7 = alice_hash.
Proof.
  assert (Hh : alice_hash <> 0) by (vm_compute; discriminate).
  assert (Hc : commitVote (env alice (t0 + 10)) 1 alice_hash st_open
               = Ok (st_committed, [VoteCommitted 1 alice alice_hash]))
    by (vm_compute; reflexivity).
  apply (reveal_opens_the_commitment (env alice (t0 + 10)) 1 alice_hash st_open st_committed
           [VoteCommitted 1 alice alice_hash] Hh Hc
           [(env deployer (t0 + 15), CallSetVoterWeight bob (2 ^ 32));
            (env bob (t0 + 20), CallCommitVote 1 bob_hash);
            (env bob (t0 + VOTING_DURATION), CallRevealVote 1 true 9)]
           (env alice (t0 + VOTING_DURATION)) true 7).
  - vm_compute. reflexivity.
  - vm_compute. exact I.
Defined.

Lemma batch_weights_is_sequence_witness :
  reverts (setMultipleVoterWeights (env deployer t0) [alice; 3] [7] st_open)
  /\ transact (env deployer t0) (CallSetMultipleVoterWeights [alice; 3] [7; 8]) st_open
     = run [(env deployer t0, CallSetVoterWeight alice 7);
            (env deployer t0, CallSetVoterWeight 3 8)] st_open.
Proof.
  split.
  - apply (batch_weights_is_sequence (env deployer t0) [alice; 3] [7] st_open).
    vm_compute. discriminate.
  - apply (proj2 (batch_weights_is_sequence (env deployer t0) [alice; 3] [7; 8] st_open)
             _ []).
    vm_compute. reflexivity.
Defined.

Lemma batch_weights_read_back_witness :
  weight_of (transact (env deployer t0) (CallSetMultipleVoterWeights [alice; 3] [7; 8]) st_open)
            3 = 8
  /\ weight_of (transact (env deployer t0) (CallSetMultipleVoterWeights [alice; 3] [7; 8])
                  st_open) deployer = 100.
Proof.
  assert (Hc : setMultipleVoterWeights (env deployer t0) [alice; 3] [7; 8] st_open
               = Ok (transact (env deployer t0)
                       (CallSetMultipleVoterWeights [alice; 3] [7; 8]) st_open, []))
    by (vm_compute; reflexivity).
  destruct (batch_weights_read_back (env deployer t0) [alice; 3] [7; 8] st_open
              (transact (env deployer t0) (CallSetMultipleVoterWeights [alice; 3] [7; 8]) st_open)
              [] Hc) as [Hout Hin].
  split.
  - apply (Hin ltac:(apply (bool_decide_unpack _); vm_compute; exact I) 1%nat 3 8);
      reflexivity.
  - rewrite Hout; [vm_compute; reflexivity |].
    vm_compute. intros [H|[H|[]]]; discriminate H.
Defined.

Lemma tally_is_the_sum_of_revealed_weights_witness :
  sample_decrypt
    (tally true
       (proposal_at
          (run [(env deployer t0, CallSetVoterWeight deployer 100);
                (env deployer t0, CallSetVoterWeight alice (2 ^ 32 + 5));
                (env deployer t0, CallCreateProposal "Raise quorum" "Raise the quorum to 60%");
                (env alice (t0 + 10), CallCommitVote 1 alice_hash);
                (env deployer (t0 + 15), CallSetVoterWeight bob (2 ^ 32));
                (env bob (t0 + 20), CallCommitVote 1 bob_hash);
                (env bob (t0 + VOTING_DURATION), CallRevealVote 1 true 9);
                (env alice (t0 + VOTING_DURATION), CallRevealVote 1 true 7);
                (env deployer (t0 + VOTING_DURATION + days), CallExecuteProposal 1)]
             (constructor (env deployer t0))) 1))
  = 5.
Proof.
  assert (Hhom : homomorphic sample_decrypt).
  { split.
    - intros v Hv. unfold sample_decrypt. cbn [FHE_asEuint32 sample_FHE].
      rewrite Z.add_mod, Z.mod_same, Z.add_0_l, !Z.mod_mod by lia.
      apply Z.mod_small. exact Hv.
    - intros a b. unfold sample_decrypt. cbn [FHE_add sample_FHE].
      replace (2 ^ 33) with (2 * 2 ^ 32) by reflexivity.
      rewrite Z.add_comm, Z.mod_add by lia.
      rewrite Z.mod_mod by lia. apply Z.add_mod. lia. }
  rewrite (tally_is_the_sum_of_revealed_weights sample_decrypt (env deployer t0) _ 1 true Hhom)
    by (vm_compute; reflexivity).
  vm_compute. reflexivity.
Defined.

Lemma status_follows_the_calls_witness :
  getVotingStatus (env deployer (t0 + VOTING_DURATION + days)) st_revealed 1
  = Ok "Awaiting execution"%string
  /\ getVotingStatus (env alice t0) st_executed 1 = Ok "Executed"%string
  /\ getVotingStatus (env alice t0)
       (run [(env deployer (t0 + 100 * days), CallPauseProposal 1)] st_executed) 1
     = Ok "Proposal not active"%string
  /\ getVotingStatus (env alice t0) st_open 7 = Ok "Proposal does not exist"%string.
Proof.
  destruct (status_follows_the_calls (env deployer (t0 + VOTING_DURATION + days)) 1 st_revealed)
    as (_ & Hexec & _).
  assert (Hx : executeProposal (env deployer (t0 + VOTING_DURATION + days)) 1 st_revealed
               = Ok (st_executed, [ProposalExecuted 1 true (t0 + VOTING_DURATION + days)]))
    by (vm_compute; reflexivity).
  destruct (Hexec st_executed [ProposalExecuted 1 true (t0 + VOTING_DURATION + days)] Hx)
    as (Hbefore & Hafter & Hlater).
  split; [exact Hbefore | split; [apply Hafter | split]].
  - rewrite (Hlater [(env deployer (t0 + 100 * days), CallPauseProposal 1)] (env alice t0)).
    vm_compute. reflexivity.
  - apply (status_follows_the_calls (env alice t0) 7 st_open).
    + lia.
    + vm_compute. reflexivity.
Defined.

Lemma encodePacked_is_injective_witness :
  length (encodePacked true 7 alice) = 53%nat
  /\ encodePacked true 7 alice <> encodePacked true 7 deployer.
Proof.
  assert (Hn : is_uint256 7) by (unfold is_uint256, MAX_UINT256; lia).
  assert (Ha : 0 <= alice < 2 ^ 160) by (unfold alice; lia).
  assert (Hd : 0 <= deployer < 2 ^ 160) by (unfold deployer; lia).
  destruct (encodePacked_is_injective true 7 alice true 7 deployer Hn Hn Ha Hd)
    as [Hlen Hinj].
  split; [exact Hlen |].
  intros Heq. apply Hinj in Heq as (_ & _ & Hsame). vm_compute in Hsame. discriminate Hsame.
Defined.

End OnTheRun.
End VotingMore.

(* ===================================================================== *)
(** * Further properties of generate-docs.ts                               *)
(* ===================================================================== *)

(** The run of the script is taken as in [DocsSpec]: with the literal of
    line 271 closed. [extractNatSpec] and [extractTestPatterns] do not depend
    on that line. *)

Module DocsMore.
Import JS CreateExample GenerateDocs.
Local Open Scope string_scope.

(** ** Steps that stay inside the examples directory *)

Lemma contained_ret {A} (a : A) : contained (mret a : M A).
Proof. intros w. simpl. repeat split; auto. Qed.

Lemma contained_bind {A B} (m : M A) (f : A -> M B) :
  contained m -> (forall a, contained (f a)) -> contained (m ≫= f).
Proof.
  intros Hm Hf w. unfold mbind, M_bind.
  destruct (Hm w) as (He & Hfr & Hmo).
  destruct (m w) as [w1 [a|c|err]] eqn:Hmw; simpl in *.
  - destruct (Hf a w1) as (He2 & Hfr2 & Hmo2).
    split; [exact He2 | split].
    + intros p Hp. rewrite Hfr2 by exact Hp. apply Hfr. exact Hp.
    + intros p Hp. apply Hmo2. apply Hmo. exact Hp.
  - repeat split; assumption.
  - repeat split; assumption.
Qed.

Lemma contained_console_log line : contained (console_log line).
Proof. intros w. simpl. repeat split; auto. Qed.

Lemma contained_log message color : contained (log message color).
Proof. apply contained_console_log. Qed.

Lemma contained_error {A} message : contained (error message : M A).
Proof.
  unfold error. apply contained_bind; [apply contained_log |].
  intros _ w. simpl. repeat split; auto.
Qed.

Lemma contained_existsSync p : contained (existsSync p).
Proof. intros w. simpl. repeat split; auto. Qed.

Lemma contained_readFileSync p : contained (readFileSync p).
Proof.
  intros w. unfold readFileSync.
  destruct p as [path|]; [destruct (fs w !! path) as [[content|]|] |];
    simpl; repeat split; auto.
Qed.

Lemma insert_keeps_others (m : gmap string node) k v p :
  inside_examples k = true -> inside_examples p = false -> <[k := v]> m !! p = m !! p.
Proof. intros Hk Hp. apply lookup_insert_ne. intros ->. congruence. Qed.

Lemma insert_keeps_present (m : gmap string node) k v p :
  is_Some (m !! p) -> is_Some (<[k := v]> m !! p).
Proof.
  intros Hp. destruct (decide (k = p)) as [->|Hne].
  - rewrite lookup_insert_eq. eauto.
  - rewrite lookup_insert_ne by exact Hne. exact Hp.
Qed.

Lemma contained_mkdirSync path : inside_examples path = true -> contained (mkdirSync path).
Proof.
  intros Hin w. unfold mkdirSync.
  destruct (fs w !! path) as [[content|]|] eqn:Hp; simpl;
    repeat split; auto using insert_keeps_others, insert_keeps_present.
Qed.

Lemma contained_writeFileSync path data :
  inside_examples path = true -> contained (writeFileSync path data).
Proof.
  intros Hin w. unfold writeFileSync.
  destruct (fs w !! path) as [[content|]|] eqn:Hp;
    destruct (parent path) as [d|]; try destruct (fs w !! d) as [[c2|]|];
    simpl; repeat split; auto using insert_keeps_others, insert_keeps_present.
Qed.

Lemma contained_for_each {A} (l : list A) (f : A -> M unit) :
  (forall a, contained (f a)) -> contained (for_each l f).
Proof.
  intros Hf. induction l as [|a l IH]; simpl; [apply contained_ret |].
  apply contained_bind; [apply Hf | intros _; exact IH].
Qed.

Lemma contained_if {A} (c : bool) (m1 m2 : M A) :
  contained m1 -> contained m2 -> contained (if c then m1 else m2).
Proof. destruct c; auto. Qed.

Lemma inside_examples_join file : inside_examples (path_join examplesDir file) = true.
Proof. reflexivity. Qed.

Lemma contained_generateDocumentation exampleName config :
  contained (generateDocumentation exampleName config).
Proof.
  unfold generateDocumentation.
  destruct config; try (intros w; simpl; repeat split; auto; fail);
    (apply contained_bind; [apply contained_existsSync | intros hasContract];
     apply contained_bind;
     [ apply contained_if; [| apply contained_ret];
       apply contained_bind; [apply contained_readFileSync | intros; apply contained_ret]
     | intros doc ];
     apply contained_bind; [apply contained_existsSync | intros hasTest];
     apply contained_bind;
     [ apply contained_if; [| apply contained_ret];
       apply contained_bind; [apply contained_readFileSync | intros; apply contained_ret]
     | intros doc2; apply contained_ret ]).
Qed.

Lemma contained_generate_one exampleName : contained (generate_one exampleName).
Proof.
  unfold generate_one, info, success.
  apply contained_bind; [apply contained_log | intros _].
  apply contained_bind; [apply contained_generateDocumentation | intros documentation].
  apply contained_bind; [apply contained_writeFileSync, inside_examples_join | intros _].
  apply contained_log.
Qed.

Lemma contained_selected_examples args : contained (selected_examples args).
Proof.
  unfold selected_examples, info.
  apply contained_if.
  - apply contained_bind; [apply contained_log | intros _; apply contained_ret].
  - destruct args as [|exampleName rest]; [apply contained_error |].
    apply contained_bind; [| intros _; apply contained_ret].
    apply contained_if; [apply contained_error | apply contained_ret].
Qed.

Lemma contained_generate_all args : contained (generate_all args).
Proof.
  unfold generate_all, success, info.
  apply contained_bind; [apply contained_existsSync | intros dirExists].
  apply contained_bind;
    [apply contained_if; [apply contained_mkdirSync; reflexivity | apply contained_ret] | intros _].
  apply contained_bind; [apply contained_selected_examples | intros exampleNames].
  apply contained_bind;
    [apply contained_for_each; intros; apply contained_generate_one | intros _].
  apply contained_bind; [| intros _].
  - apply contained_if; [| apply contained_ret].
    apply contained_bind; [apply contained_writeFileSync, inside_examples_join | intros _].
    apply contained_log.
  - apply contained_bind; [apply contained_log | intros _; apply contained_log].
Qed.

Lemma prints_only_showHelp : prints_only showHelp.
Proof. intros w. split; reflexivity. Qed.

Lemma prints_only_listExamples : prints_only listExamples.
Proof. intros w. split; reflexivity. Qed.

(** ** The whole run *)

Lemma main_cases args w :
  main args w =
  if wants_help args then (fst (showHelp w), Exit 0%Z)
  else if wants_list args then (fst (listExamples w), Exit 0%Z)
  else try_catch (generate_all args)
         (fun err => error ("Documentation generation failed: " +:+ err)) w.
Proof.
  unfold main, wants_help, wants_list, mbind, M_bind.
  destruct (has_arg "--help" args || has_arg "-h" args).
  - destruct (prints_only_showHelp w) as [Hs _].
    destruct (showHelp w) as [w1 r]; simpl in *. subst r. reflexivity.
  - cbn [mret M_ret].
    destruct (has_arg "--list" args || has_arg "-l" args).
    + destruct (prints_only_listExamples w) as [Hs _].
      destruct (listExamples w) as [w1 r]; simpl in *. subst r. reflexivity.
    + reflexivity.
Qed.

(** Whatever the arguments and the file system, generate-docs ends with exit
    code 0 or 1 and no exception escapes it; it changes nothing outside the
    examples directory, and it removes no file or directory. (The names that
    reach [path.join] passed the guard or are keys of the registry, so each
    is a single path segment.) *)
Theorem main_stays_in_examples args w :
  (exit_code (snd (main args w)) = 0%Z \/ exit_code (snd (main args w)) = 1%Z)
  /\ (forall err, snd (main args w) <> Throw err)
  /\ (forall p, inside_examples p = false -> fs (fst (main args w)) !! p = fs w !! p)
  /\ (forall p, is_Some (fs w !! p) -> is_Some (fs (fst (main args w)) !! p)).
Proof.
  rewrite main_cases.
  destruct (wants_help args); [| destruct (wants_list args)].
  - destruct (prints_only_showHelp w) as [_ Hfs]. cbn [fst snd exit_code]. rewrite Hfs.
    repeat split; auto; discriminate.
  - destruct (prints_only_listExamples w) as [_ Hfs]. cbn [fst snd exit_code]. rewrite Hfs.
    repeat split; auto; discriminate.
  - unfold try_catch.
    destruct (contained_generate_all args w) as (He & Hfr & Hmo).
    destruct (generate_all args w) as [w1 [a|c|err]] eqn:Hg; simpl in *.
    + repeat split; auto; discriminate.
    + subst c. repeat split; auto; discriminate.
    + repeat split; auto; discriminate.
Qed.

Lemma prints_console_log line : prints (console_log line) [line].
Proof. intros w. reflexivity. Qed.

Lemma prints_ret : prints (mret tt) [].
Proof. intros w. unfold mret, M_ret. rewrite app_nil_r. destruct w; reflexivity. Qed.

Lemma prints_bind (m : M unit) (k : unit -> M unit) lines1 lines2 :
  prints m lines1 -> prints (k tt) lines2 -> prints (m ≫= k) (lines1 ++ lines2)%list.
Proof.
  intros Hm Hk w. unfold mbind, M_bind. rewrite Hm, Hk. cbn [fs stdout].
  rewrite app_assoc. reflexivity.
Qed.

Lemma prints_from_empty m lines w :
  prints m lines ->
  snd (m w) = Done tt /\ fs (fst (m w)) = fs w
  /\ stdout (fst (m w)) = (stdout w ++ stdout (fst (m empty_world)))%list.
Proof. intros Hm. rewrite !Hm. cbn. repeat split. Qed.

Lemma prints_showHelp : exists lines, prints showHelp lines.
Proof.
  eexists. unfold showHelp, log, DOCS_CONFIG. cbn [for_each].
  repeat first [apply prints_console_log | apply prints_ret | eapply prints_bind].
Qed.

Lemma prints_listExamples : exists lines, prints listExamples lines.
Proof.
  eexists. unfold listExamples, log, DOCS_CONFIG. cbn [for_each].
  repeat first [apply prints_console_log | apply prints_ret | eapply prints_bind].
Qed.

(** Read with the literal of line 271 closed: a help flag anywhere among the
    arguments wins over everything else, and a list flag over everything but
    help. With a help flag the run prints the help text, and with a list flag
    and no help flag the list of examples, which is a different text; in both
    cases it touches no file and ends with exit code 0. *)
Theorem flags_come_first args w :
  (wants_help args = true ->
     snd (main args w) = Exit 0%Z
     /\ fs (fst (main args w)) = fs w
     /\ stdout (fst (main args w)) = (stdout w ++ stdout (fst (showHelp empty_world)))%list)
  /\ (wants_help args = false -> wants_list args = true ->
     snd (main args w) = Exit 0%Z
     /\ fs (fst (main args w)) = fs w
     /\ stdout (fst (main args w))
        = (stdout w ++ stdout (fst (listExamples empty_world)))%list)
  /\ stdout (fst (showHelp empty_world)) <> stdout (fst (listExamples empty_world)).
Proof.
  split; [| split].
  - intros Hh. rewrite main_cases, Hh. cbn [fst snd].
    destruct prints_showHelp as [lines Hp].
    destruct (prints_from_empty showHelp lines w Hp) as (_ & Hfs & Hout).
    split; [reflexivity | split; [exact Hfs | exact Hout]].
  - intros Hh Hl. rewrite main_cases, Hh, Hl. cbn [fst snd].
    destruct prints_listExamples as [lines Hp].
    destruct (prints_from_empty listExamples lines w Hp) as (_ & Hfs & Hout).
    split; [reflexivity | split; [exact Hfs | exact Hout]].
  - vm_compute. discriminate.
Qed.

Lemma flags_come_first_witness :
  snd (main ["no-such-example"; "--list"; "--all"; "-h"] empty_world) = Exit 0%Z
  /\ fs (fst (main ["no-such-example"; "--list"; "--all"; "-h"] empty_world)) = fs empty_world
  /\ stdout (fst (main ["no-such-example"; "--list"; "--all"; "-h"] empty_world))
     = stdout (fst (showHelp empty_world)).
Proof.
  apply (proj1 (flags_come_first ["no-such-example"; "--list"; "--all"; "-h"] empty_world)).
  vm_compute. reflexivity.
Defined.

(** ** One registered example *)

Lemma bind_done {A B} (m : M A) (f : A -> M B) w w1 a :
  m w = (w1, Done a) -> (m ≫= f) w = f a w1.
Proof. intros Hm. unfold mbind, M_bind. rewrite Hm. reflexivity. Qed.

Lemma bind_throw {A B} (m : M A) (f : A -> M B) w w1 err :
  m w = (w1, Throw err) -> (m ≫= f) w = (w1, Throw err).
Proof. intros Hm. unfold mbind, M_bind. rewrite Hm. reflexivity. Qed.

Lemma registered exampleName c :
  own DOCS_CONFIG exampleName = Some c ->
  exampleName = "fhevm-voting"
  /\ get DOCS_CONFIG exampleName = VConfig c
  /\ contractFile c = "base-template/contracts/FHEMVoting.sol"
  /\ testFile c = "base-template/test/FHEMVoting.ts".
Proof.
  intros Hown. unfold get. rewrite Hown.
  unfold DOCS_CONFIG in Hown. cbn [own] in Hown.
  destruct (String.eqb_spec "fhevm-voting" exampleName) as [<-|]; [| discriminate Hown].
  injection Hown as <-. repeat split; reflexivity.
Qed.

Lemma writeFileSync_ok path data d w :
  parent path = Some d -> fs w !! d = Some Dir -> fs w !! path <> Some Dir ->
  writeFileSync path data w
  = (mkWorld (<[path := File data]> (fs w)) (stdout w), Done tt).
Proof.
  intros Hpar Hd Hp. unfold writeFileSync. rewrite Hpar, Hd.
  destruct (fs w !! path) as [[content|]|]; [reflexivity | contradiction | reflexivity].
Qed.

Lemma writeFileSync_fails path data d w :
  parent path = Some d ->
  fs w !! path = Some Dir \/ (exists content, fs w !! d = Some (File content)) ->
  exists err, writeFileSync path data w = (w, Throw err).
Proof.
  intros Hpar Hbad. unfold writeFileSync. rewrite Hpar.
  destruct (fs w !! path) as [[content|]|] eqn:Hp; [| eauto |];
    (destruct Hbad as [Hbad|[content' Hbad]]; [discriminate Hbad |]; rewrite Hbad; eauto).
Qed.

Lemma generateDocumentation_unreadable exampleName c w :
  unreadable c w ->
  exists err, generateDocumentation exampleName (VConfig c) w = (w, Throw err).
Proof.
  intros Hbad. unfold unreadable in Hbad.
  unfold generateDocumentation, mbind, M_bind, mret, M_ret, existsSync, readFileSync.
  cbn -[doc_header contract_section testing_section doc_footer].
  destruct (fs w !! contractFile c) as [[cc|]|] eqn:Hc;
    repeat (rewrite ?Hc; cbn -[doc_header contract_section testing_section doc_footer]);
    [| eauto |];
    (destruct Hbad as [Hbad|Hbad]; [discriminate Hbad |];
     repeat (rewrite ?Hbad; cbn -[doc_header contract_section testing_section doc_footer]);
     eauto).
Qed.

Lemma generate_one_ok exampleName c w :
  own DOCS_CONFIG exampleName = Some c ->
  absent_or_file w (contractFile c) ->
  absent_or_file w (testFile c) ->
  fs w !! examplesDir = Some Dir ->
  fs w !! page_path exampleName <> Some Dir ->
  exists w', generate_one exampleName w = (w', Done tt)
             /\ fs w' = <[page_path exampleName := File (page c w)]> (fs w).
Proof.
  intros Hown Hc Ht Hd Hp.
  destruct (registered _ _ Hown) as (-> & Hget & _).
  unfold generate_one. rewrite Hget.
  erewrite bind_done by reflexivity.
  erewrite bind_done by (apply DocsSpec.generateDocumentation_total; assumption).
  erewrite bind_done by (apply (writeFileSync_ok _ _ examplesDir); [reflexivity | exact Hd | exact Hp]).
  eexists. split; reflexivity.
Qed.

Lemma readable_or_not c w :
  (absent_or_file w (contractFile c) /\ absent_or_file w (testFile c)) \/ unreadable c w.
Proof.
  unfold absent_or_file, unreadable.
  destruct (fs w !! contractFile c) as [[cc|]|]; destruct (fs w !! testFile c) as [[tc|]|];
    first [ right; left; reflexivity
          | right; right; reflexivity
          | left; split; eauto ].
Qed.

Lemma generate_one_fails exampleName c w :
  own DOCS_CONFIG exampleName = Some c ->
  unreadable c w \/ unwritable exampleName w ->
  exists w' err, generate_one exampleName w = (w', Throw err) /\ fs w' = fs w.
Proof.
  intros Hown Hbad.
  destruct (registered _ _ Hown) as (-> & Hget & _).
  unfold generate_one. rewrite Hget.
  erewrite bind_done by reflexivity.
  destruct (readable_or_not c w) as [[Hc Ht]|Hr].
  - destruct Hbad as [Hr|Hwr].
    + destruct Hc as [Hc|[cc Hc]], Ht as [Ht|[tc Ht]], Hr as [Hr|Hr]; congruence.
    + erewrite bind_done by (apply DocsSpec.generateDocumentation_total; assumption).
      match goal with
      | |- context [writeFileSync ?p ?d] =>
          destruct (writeFileSync_fails p d examplesDir
                      (mkWorld (fs w)
                         (stdout w ++ [color_code Blue +:+
                            ("ℹ️  " +:+ "Generating documentation for: " +:+ "fhevm-voting")
                            +:+ color_code Reset])))
            as [err Herr]
      end.
      * reflexivity.
      * destruct Hwr as [Hwr|Hwr]; [right | left]; exact Hwr.
      * erewrite bind_throw by exact Herr. eexists _, _. split; reflexivity.
  - destruct (generateDocumentation_unreadable "fhevm-voting" c
                (mkWorld (fs w)
                   (stdout w ++ [color_code Blue +:+
                      ("ℹ️  " +:+ "Generating documentation for: " +:+ "fhevm-voting")
                      +:+ color_code Reset])) Hr) as [err Herr].
    erewrite bind_throw by exact Herr. eexists _, _. split; reflexivity.
Qed.

Lemma ensure_dir w :
  exists w1,
    (if negb (bool_decide (is_Some (fs w !! examplesDir)))
     then mkdirSync examplesDir else mret tt) w = (w1, Done tt)
    /\ (forall p, p <> examplesDir -> fs w1 !! p = fs w !! p)
    /\ fs w1 !! examplesDir
       = Some (match fs w !! examplesDir with Some n => n | None => Dir end).
Proof.
  unfold mkdirSync.
  destruct (fs w !! examplesDir) as [n|] eqn:Hd; cbn.
  - exists w. rewrite Hd. auto.
  - rewrite Hd. eexists. split; [reflexivity |]. cbn. split.
    + intros p Hp. apply lookup_insert_ne. congruence.
    + apply lookup_insert_eq.
Qed.

Lemma absent_or_file_frame w w1 path :
  fs w1 !! path = fs w !! path -> absent_or_file w path -> absent_or_file w1 path.
Proof. unfold absent_or_file. intros ->. trivial. Qed.

Lemma page_frame c w w1 :
  fs w1 !! contractFile c = fs w !! contractFile c ->
  fs w1 !! testFile c = fs w !! testFile c ->
  page c w1 = page c w.
Proof. unfold page, section_of. intros -> ->. reflexivity. Qed.

Lemma for_each_one {A} (a : A) (f : A -> M unit) w w1 :
  f a w = (w1, Done tt) -> for_each [a] f w = (w1, Done tt).
Proof. intros Hf. cbn [for_each]. rewrite (bind_done _ _ _ _ _ Hf). reflexivity. Qed.

Lemma for_each_throws {A} (a : A) (l : list A) (f : A -> M unit) w w1 err :
  f a w = (w1, Throw err) -> for_each (a :: l) f w = (w1, Throw err).
Proof. intros Hf. cbn [for_each]. apply bind_throw. exact Hf. Qed.

(** With the name of a registered example as its only argument, and a file
    system in which the two source files are absent or regular files, the
    examples directory is absent or a directory and no directory stands where
    the page goes, the run ends normally and changes the file system in two
    places only: the examples directory exists, and the page of the example
    holds the header, the section of each source file that is there, and the
    footer. The summary is not written. *)
Theorem registered_example_is_documented exampleName c w :
  own DOCS_CONFIG exampleName = Some c ->
  absent_or_file w (contractFile c) ->
  absent_or_file w (testFile c) ->
  (fs w !! examplesDir = None \/ fs w !! examplesDir = Some Dir) ->
  fs w !! page_path exampleName <> Some Dir ->
  snd (main [exampleName] w) = Done tt
  /\ fs (fst (main [exampleName] w))
     = <[page_path exampleName := File (page c w)]> (<[examplesDir := Dir]> (fs w)).
Proof.
  intros Hown Hc Ht Hd Hp.
  destruct (registered _ _ Hown) as (Hn & Hget & Hcf & Htf).
  destruct (ensure_dir w) as (w1 & Hm & Hfr & Hdir).
  assert (Hd1 : fs w1 !! examplesDir = Some Dir).
  { rewrite Hdir. destruct Hd as [-> | ->]; reflexivity. }
  assert (Hc1 : fs w1 !! contractFile c = fs w !! contractFile c).
  { apply Hfr. rewrite Hcf. discriminate. }
  assert (Ht1 : fs w1 !! testFile c = fs w !! testFile c).
  { apply Hfr. rewrite Htf. discriminate. }
  assert (Hp1 : fs w1 !! page_path exampleName = fs w !! page_path exampleName).
  { apply Hfr. rewrite Hn. discriminate. }
  destruct (generate_one_ok exampleName c w1 Hown) as (w2 & Hg & Hfs2);
    [ eapply absent_or_file_frame; eassumption
    | eapply absent_or_file_frame; eassumption
    | exact Hd1
    | rewrite Hp1; exact Hp |].
  rewrite (page_frame c w w1 Hc1 Ht1) in Hfs2.
  assert (Hfs1 : fs w1 = <[examplesDir := Dir]> (fs w)).
  { apply map_eq. intros p. destruct (decide (p = examplesDir)) as [->|Hne].
    - rewrite Hd1, lookup_insert_eq. reflexivity.
    - rewrite lookup_insert_ne by congruence. apply Hfr. exact Hne. }
  rewrite <- Hfs1, <- Hfs2. clear Hfs1 Hfs2 Hfr Hdir.
  subst exampleName.
  rewrite main_cases.
  change (wants_help ["fhevm-voting"]) with false.
  change (wants_list ["fhevm-voting"]) with false.
  cbv iota. unfold try_catch, generate_all.
  erewrite bind_done by reflexivity.
  rewrite (bind_done _ _ _ _ _ Hm).
  erewrite bind_done by reflexivity.
  rewrite (bind_done _ _ _ _ _ (for_each_one _ _ _ _ Hg)).
  split; reflexivity.
Qed.

Lemma registered_example_is_documented_witness :
  snd (main ["fhevm-voting"] empty_world) = Done tt
  /\ exists c,
       fs (fst (main ["fhevm-voting"] empty_world))
       = <[page_path "fhevm-voting" := File (page c empty_world)]>
           (<[examplesDir := Dir]> (fs empty_world)).
Proof.
  assert (Hown : own DOCS_CONFIG "fhevm-voting"
                 = Some (mkDocConfig "FHEVM Voting System"
                           "Privacy-preserving voting using Fully Homomorphic Encryption"
                           "base-template/contracts/FHEMVoting.sol"
                           "base-template/test/FHEMVoting.ts" "Advanced Examples"))
    by reflexivity.
  destruct (registered_example_is_documented _ _ empty_world Hown) as [Hr Hfs].
  - left. reflexivity.
  - left. reflexivity.
  - left. reflexivity.
  - vm_compute. discriminate.
  - split; [exact Hr | eexists; exact Hfs].
Defined.

(** With the name of a registered example as its only argument, a directory
    in the place of a source file or of the page, or a regular file in the
    place of the examples directory, ends the run with exit code 1, and what
    is at the path of the page stays as it was. *)
Theorem registered_example_io_failure exampleName c w :
  own DOCS_CONFIG exampleName = Some c ->
  unreadable c w \/ unwritable exampleName w ->
  exit_code (snd (main [exampleName] w)) = 1%Z
  /\ fs (fst (main [exampleName] w)) !! page_path exampleName
     = fs w !! page_path exampleName.
Proof.
  intros Hown Hbad.
  destruct (registered _ _ Hown) as (Hn & Hget & Hcf & Htf).
  destruct (ensure_dir w) as (w1 & Hm & Hfr & Hdir).
  assert (Hc1 : fs w1 !! contractFile c = fs w !! contractFile c).
  { apply Hfr. rewrite Hcf. discriminate. }
  assert (Ht1 : fs w1 !! testFile c = fs w !! testFile c).
  { apply Hfr. rewrite Htf. discriminate. }
  assert (Hp1 : fs w1 !! page_path exampleName = fs w !! page_path exampleName).
  { apply Hfr. rewrite Hn. discriminate. }
  assert (Hbad1 : unreadable c w1 \/ unwritable exampleName w1).
  { unfold unreadable, unwritable in *. rewrite Hc1, Ht1, Hp1, Hdir.
    destruct Hbad as [Hr|[[content Hf]|Hpg]]; [tauto | | tauto].
    right. left. exists content. rewrite Hf. reflexivity. }
  destruct (generate_one_fails exampleName c w1 Hown Hbad1) as (w2 & err & Hg & Hfs2).
  rewrite <- Hp1, <- Hfs2. clear Hbad Hbad1 Hp1 Hfs2 Hfr Hdir Hc1 Ht1.
  subst exampleName.
  rewrite main_cases.
  change (wants_help ["fhevm-voting"]) with false.
  change (wants_list ["fhevm-voting"]) with false.
  cbv iota. unfold try_catch, generate_all.
  erewrite bind_done by reflexivity.
  rewrite (bind_done _ _ _ _ _ Hm).
  erewrite bind_done by reflexivity.
  rewrite (bind_throw _ _ _ _ _ (for_each_throws _ _ _ _ _ _ Hg)).
  split; reflexivity.
Qed.

Lemma registered_example_io_failure_witness :
  exit_code (snd (main ["fhevm-voting"]
                    (mkWorld (<["base-template/test/FHEMVoting.ts" := Dir]> ∅) []))) = 1%Z.
Proof.
  assert (Hown : own DOCS_CONFIG "fhevm-voting"
                 = Some (mkDocConfig "FHEVM Voting System"
                           "Privacy-preserving voting using Fully Homomorphic Encryption"
                           "base-template/contracts/FHEMVoting.sol"
                           "base-template/test/FHEMVoting.ts" "Advanced Examples"))
    by reflexivity.
  apply (registered_example_io_failure _ _
           (mkWorld (<["base-template/test/FHEMVoting.ts" := Dir]> ∅) []) Hown).
  left. right. vm_compute. reflexivity.
Defined.

Lemma bind_exit {A B} (m : M A) (f : A -> M B) w w1 code :
  m w = (w1, Exit code) -> (m ≫= f) w = (w1, Exit code).
Proof. intros Hm. unfold mbind, M_bind. rewrite Hm. reflexivity. Qed.

(** Read with the literal of line 271 closed: without a flag, and with no
    argument at all or with a first argument for which the registry gives
    undefined, the run ends with exit code 1. By
    then it has made sure that something is at the path of the examples
    directory, creating the directory if nothing was there; every other path
    is as it was. *)
Theorem rejected_arguments args w :
  wants_help args = false ->
  wants_list args = false ->
  has_arg "--all" args = false ->
  match args with
  | [] => True
  | exampleName :: _ => get DOCS_CONFIG exampleName = VUndefined
  end ->
  exit_code (snd (main args w)) = 1%Z
  /\ (forall p, p <> examplesDir -> fs (fst (main args w)) !! p = fs w !! p)
  /\ fs (fst (main args w)) !! examplesDir
     = Some (match fs w !! examplesDir with Some n => n | None => Dir end).
Proof.
  intros Hhelp Hlist Hall Hargs.
  destruct (ensure_dir w) as (w1 & Hm & Hfr & Hdir).
  assert (Hsel : exists w2, selected_examples args w1 = (w2, Exit 1%Z) /\ fs w2 = fs w1).
  { unfold selected_examples. rewrite Hall.
    destruct args as [|exampleName rest].
    - eexists. split; reflexivity.
    - rewrite Hargs. eexists. split; reflexivity. }
  destruct Hsel as (w2 & Hsel & Hfs2).
  rewrite <- Hfs2 in Hfr, Hdir.
  rewrite main_cases, Hhelp, Hlist.
  unfold try_catch, generate_all.
  erewrite bind_done by reflexivity.
  rewrite (bind_done _ _ _ _ _ Hm).
  rewrite (bind_exit _ _ _ _ _ Hsel).
  split; [reflexivity | split; [exact Hfr | exact Hdir]].
Qed.

Lemma rejected_arguments_witness :
  exit_code (snd (main [] empty_world)) = 1%Z
  /\ fs (fst (main [] empty_world)) !! examplesDir = Some Dir.
Proof.
  destruct (rejected_arguments [] empty_world) as (Hc & _ & Hd);
    [reflexivity | reflexivity | reflexivity | exact I |].
  split; [exact Hc | exact Hd].
Defined.

(** ** All examples *)

(** With --all among the arguments and no help or list flag, whatever else
    the arguments hold, and a file system in which the source files of every
    registered example are absent or regular files, the examples directory is
    absent or a directory and no directory stands where a page or the summary
    goes, the run ends normally; afterwards the examples directory exists,
    every registered example has its page, and SUMMARY.md holds the summary
    of the registered examples. *)
Theorem all_writes_pages_and_summary args w :
  has_arg "--all" args = true ->
  wants_help args = false ->
  wants_list args = false ->
  (forall exampleName c, own DOCS_CONFIG exampleName = Some c ->
     absent_or_file w (contractFile c) /\ absent_or_file w (testFile c)
     /\ fs w !! page_path exampleName <> Some Dir) ->
  (fs w !! examplesDir = None \/ fs w !! examplesDir = Some Dir) ->
  fs w !! summary_path <> Some Dir ->
  snd (main args w) = Done tt
  /\ fs (fst (main args w)) !! examplesDir = Some Dir
  /\ fs (fst (main args w)) !! summary_path
     = Some (File (generateSummary (keys DOCS_CONFIG)))
  /\ (forall exampleName c, own DOCS_CONFIG exampleName = Some c ->
        fs (fst (main args w)) !! page_path exampleName = Some (File (page c w)))
  /\ (forall p, inside_examples p = false -> fs (fst (main args w)) !! p = fs w !! p).
Proof.
  intros Hall Hhelp Hlist Hsrc Hd Hs.
  pose (c0 := mkDocConfig "FHEVM Voting System"
                "Privacy-preserving voting using Fully Homomorphic Encryption"
                "base-template/contracts/FHEMVoting.sol"
                "base-template/test/FHEMVoting.ts" "Advanced Examples").
  assert (Hown : own DOCS_CONFIG "fhevm-voting" = Some c0) by reflexivity.
  destruct (Hsrc _ _ Hown) as (Hc & Ht & Hp).
  destruct (ensure_dir w) as (w1 & Hm & Hfr & Hdir).
  assert (Hd1 : fs w1 !! examplesDir = Some Dir).
  { rewrite Hdir. destruct Hd as [-> | ->]; reflexivity. }
  assert (Hc1 : fs w1 !! contractFile c0 = fs w !! contractFile c0).
  { apply Hfr. discriminate. }
  assert (Ht1 : fs w1 !! testFile c0 = fs w !! testFile c0).
  { apply Hfr. discriminate. }
  assert (Hp1 : fs w1 !! page_path "fhevm-voting" = fs w !! page_path "fhevm-voting").
  { apply Hfr. discriminate. }
  assert (Hs1 : fs w1 !! summary_path = fs w !! summary_path).
  { apply Hfr. discriminate. }
  set (w1' := mkWorld (fs w1)
                (stdout w1 ++ [color_code Blue +:+
                   ("ℹ️  " +:+ "Generating documentation for all examples...")
                   +:+ color_code Reset])).
  destruct (generate_one_ok "fhevm-voting" c0 w1' Hown) as (w2 & Hg & Hfs2);
    [ eapply absent_or_file_frame; [exact Hc1 | exact Hc]
    | eapply absent_or_file_frame; [exact Ht1 | exact Ht]
    | exact Hd1
    | change (fs w1') with (fs w1); rewrite Hp1; exact Hp |].
  change (fs w1') with (fs w1) in Hfs2.
  rewrite (page_frame c0 w w1' Hc1 Ht1) in Hfs2.
  assert (Hw : writeFileSync summary_path (generateSummary (keys DOCS_CONFIG)) w2
               = (mkWorld (<[summary_path := File (generateSummary (keys DOCS_CONFIG))]> (fs w2))
                    (stdout w2), Done tt)).
  { apply (writeFileSync_ok _ _ examplesDir); [reflexivity | |].
    - rewrite Hfs2, lookup_insert_ne by discriminate. exact Hd1.
    - rewrite Hfs2, lookup_insert_ne by discriminate. rewrite Hs1. exact Hs. }
  assert (Hfinal : main args w
                   = (fst (main args w), Done tt)
                     /\ fs (fst (main args w))
                        = <[summary_path := File (generateSummary (keys DOCS_CONFIG))]> (fs w2)).
  { rewrite main_cases, Hhelp, Hlist.
    unfold try_catch, generate_all, selected_examples. rewrite Hall.
    erewrite bind_done by reflexivity.
    rewrite (bind_done _ _ _ _ _ Hm).
    erewrite bind_done by reflexivity.
    change (keys DOCS_CONFIG) with ["fhevm-voting"] in *.
    rewrite (bind_done _ _ _ _ _ (for_each_one _ _ _ _ Hg)).
    cbn [orb].
    erewrite bind_done by (erewrite bind_done by exact Hw; reflexivity).
    split; reflexivity. }
  destruct Hfinal as [Hrun Hfs]. rewrite Hrun at 1. rewrite Hfs, Hfs2.
  split; [reflexivity |]. split; [| split; [| split]].
  - rewrite !lookup_insert_ne by discriminate. exact Hd1.
  - apply lookup_insert_eq.
  - intros exampleName c Hown'.
    destruct (registered _ _ Hown') as (-> & _).
    assert (c = c0) by congruence. subst c.
    rewrite lookup_insert_ne by discriminate. apply lookup_insert_eq.
  - intros p Hin.
    rewrite !insert_keeps_others by (reflexivity || exact Hin).
    apply Hfr. intros ->. discriminate Hin.
Qed.

Lemma all_writes_pages_and_summary_witness :
  snd (main ["--all"] empty_world) = Done tt
  /\ fs (fst (main ["--all"] empty_world)) !! summary_path
     = Some (File (generateSummary (keys DOCS_CONFIG))).
Proof.
  destruct (all_writes_pages_and_summary ["--all"] empty_world) as (Hr & _ & Hs & _).
  - reflexivity.
  - reflexivity.
  - reflexivity.
  - intros exampleName c _. split; [left; reflexivity |].
    split; [left; reflexivity | vm_compute; discriminate].
  - left. reflexivity.
  - vm_compute. discriminate.
  - split; [exact Hr | exact Hs].
Defined.

(** ** Strings *)

Lemma append_cons c (s x : string) : String c s +:+ x = String c (s +:+ x).
Proof. reflexivity. Qed.

Lemma append_assoc (s1 s2 s3 : string) : (s1 +:+ s2) +:+ s3 = s1 +:+ (s2 +:+ s3).
Proof.
  induction s1 as [|c s1 IH]; [reflexivity |].
  rewrite !append_cons. f_equal. exact IH.
Qed.

Lemma length_append (s1 s2 : string) :
  String.length (s1 +:+ s2) = (String.length s1 + String.length s2)%nat.
Proof.
  induction s1 as [|c s1 IH]; [reflexivity |].
  rewrite append_cons. cbn [String.length]. rewrite IH. reflexivity.
Qed.

Lemma strip_prefix_app p x : strip_prefix p (p +:+ x) = Some x.
Proof.
  induction p as [|c p IH]; [destruct x; reflexivity |].
  rewrite append_cons. cbn [strip_prefix]. rewrite Ascii.eqb_refl. exact IH.
Qed.

Lemma strip_prefix_app_r p s r x :
  strip_prefix p s = Some r -> strip_prefix p (s +:+ x) = Some (r +:+ x).
Proof.
  revert s. induction p as [|a p IH]; intros s Hs.
  - destruct s; cbn in Hs; injection Hs as <-; destruct x; reflexivity.
  - destruct s as [|b s]; [discriminate Hs |].
    rewrite append_cons. cbn [strip_prefix] in *.
    destruct (Ascii.eqb a b); [apply IH; exact Hs | discriminate Hs].
Qed.

(** A prefix that does not hold the character [q] is found at the head of
    [t] followed by [q] only if it is found at the head of [t]. *)
Lemma startsWith_before p t q x :
  (forall a, In a (list_ascii_of_string p) -> a <> q) ->
  startsWith p (t +:+ String q x) = startsWith p t.
Proof.
  unfold startsWith. revert t. induction p as [|a p IH]; intros t Hq.
  - destruct t; reflexivity.
  - destruct t as [|b t].
    + change ("" +:+ String q x) with (String q x). cbn [strip_prefix].
      destruct (Ascii.eqb_spec a q) as [->|_]; [| reflexivity].
      exfalso. apply (Hq q); [left; reflexivity | reflexivity].
    + rewrite append_cons. cbn [strip_prefix].
      destruct (Ascii.eqb a b); [| reflexivity].
      apply IH. intros a' Ha'. apply Hq. right. exact Ha'.
Qed.

Lemma line_terminator_before c t x :
  line_terminator (String c (t +:+ String "034"%char x)) = line_terminator (String c t).
Proof.
  unfold line_terminator.
  rewrite <- !append_cons.
  rewrite !startsWith_before; [reflexivity | |];
    cbn; intros a [<-|[<-|[<-|[]]]]; discriminate.
Qed.

(** ** extractTestPatterns *)

Lemma lazy_title_plain t rest :
  plain_title t = true ->
  lazy_title (t +:+ dquote +:+ "," +:+ rest) = Some (t, rest).
Proof.
  induction t as [|c t IH]; intros Hp.
  - change ("" +:+ dquote +:+ "," +:+ rest) with ((dquote +:+ ",") +:+ rest).
    destruct rest; reflexivity.
  - cbn [plain_title] in Hp.
    apply andb_prop in Hp as [Hp Hrest]. apply andb_prop in Hp as [Hq Hlt].
    apply negb_true_iff in Hq, Hlt.
    rewrite append_cons.
    change (lazy_title (String c (t +:+ dquote +:+ "," +:+ rest)))
      with (match strip_prefix (dquote +:+ ",") (String c (t +:+ dquote +:+ "," +:+ rest)) with
            | Some rest' => Some (EmptyString, rest')
            | None =>
                if line_terminator (String c (t +:+ dquote +:+ "," +:+ rest)) then None
                else match lazy_title (t +:+ dquote +:+ "," +:+ rest) with
                     | Some (cap, rest') => Some (String c cap, rest')
                     | None => None
                     end
            end).
    replace (strip_prefix (dquote +:+ ",") (String c (t +:+ dquote +:+ "," +:+ rest)))
      with (@None string).
    2:{ change (dquote +:+ ",") with (String "034"%char ","). cbn [strip_prefix].
        rewrite Ascii.eqb_sym, Hq. reflexivity. }
    change (dquote +:+ "," +:+ rest) with (String "034"%char ("," +:+ rest)) at 1.
    rewrite line_terminator_before, Hlt, (IH Hrest). reflexivity.
Qed.

Lemma test_at_declaration t rest :
  t <> "" -> plain_title t = true ->
  test_at (test_declaration t +:+ rest) = Some (t, rest).
Proof.
  intros Hne Hp. destruct t as [|c t]; [contradiction |].
  unfold test_declaration, test_at.
  replace (("it(" +:+ dquote +:+ String c t +:+ dquote +:+ ",") +:+ rest)
    with (("it(" +:+ dquote) +:+ String c (t +:+ dquote +:+ "," +:+ rest)).
  2:{ rewrite !append_assoc. reflexivity. }
  rewrite strip_prefix_app.
  cbn [plain_title] in Hp.
  apply andb_prop in Hp as [Hp Hrest]. apply andb_prop in Hp as [Hq Hlt].
  apply negb_true_iff in Hlt.
  change (dquote +:+ "," +:+ rest) with (String "034"%char ("," +:+ rest)) at 1.
  rewrite line_terminator_before, Hlt, (lazy_title_plain t rest Hrest). reflexivity.
Qed.

Lemma scan_tests_skip x rest :
  scan_tests (String.length x) (x +:+ rest) = scan_tests 0 rest.
Proof.
  induction x as [|c x IH]; [reflexivity |].
  rewrite append_cons. cbn [String.length scan_tests]. exact IH.
Qed.

Lemma scan_tests_absent skip content :
  includes ("it(" +:+ dquote) content = false -> scan_tests skip content = [].
Proof.
  revert skip. induction content as [|c r IH]; intros skip Hno; [reflexivity |].
  cbn [includes] in Hno. apply orb_false_iff in Hno as [Hhead Hrest].
  cbn [scan_tests]. destruct skip as [|k]; [| apply IH; exact Hrest].
  unfold test_at. unfold startsWith in Hhead.
  destruct (strip_prefix ("it(" +:+ dquote) (String c r)); [discriminate Hhead |].
  apply IH. exact Hrest.
Qed.

(** A test declaration with a non-empty title that holds no double quote and
    no line terminator is found at the head of the text: its title is the
    first pattern, and the search goes on after the comma that follows the
    title. *)
Theorem extractTestPatterns_declaration t rest :
  t <> "" -> plain_title t = true ->
  extractTestPatterns (test_declaration t +:+ rest) = t :: extractTestPatterns rest.
Proof.
  intros Hne Hp. unfold extractTestPatterns.
  pose proof (test_at_declaration t rest Hne Hp) as Hat.
  unfold test_declaration in *.
  change ("it(" +:+ dquote +:+ t +:+ dquote +:+ ",")
    with (String "i" ("t(" +:+ dquote +:+ t +:+ dquote +:+ ",")) in *.
  rewrite append_cons in *.
  cbn [scan_tests]. rewrite Hat. f_equal.
  rewrite <- scan_tests_skip with (x := "t(" +:+ dquote +:+ t +:+ dquote +:+ ",").
  f_equal. cbn [String.length]. rewrite !length_append. lia.
Qed.

Lemma extractTestPatterns_declaration_witness :
  extractTestPatterns
    (test_declaration "reverts for a stranger" +:+ " async () => {});"
     +:+ test_declaration "counts a vote" +:+ " async () => {});")
  = ["reverts for a stranger"; "counts a vote"].
Proof.
  rewrite extractTestPatterns_declaration by (discriminate || reflexivity).
  vm_compute. reflexivity.
Defined.

(** A text that nowhere holds the opening of a test declaration has no test
    patterns. *)
Theorem extractTestPatterns_without_declarations content :
  includes ("it(" +:+ dquote) content = false -> extractTestPatterns content = [].
Proof. apply scan_tests_absent. Qed.

Lemma extractTestPatterns_without_declarations_witness :
  extractTestPatterns "describe('FHEMVoting', function () {});" = [].
Proof.
  apply extractTestPatterns_without_declarations. reflexivity.
Defined.

(** ** extractNatSpec *)

Lemma take_word_all_word s : all_word (take_word s) = true.
Proof.
  induction s as [|c s IH]; [reflexivity |].
  cbn [take_word]. destruct (word_char c) eqn:Hc; [| reflexivity].
  cbn [all_word]. rewrite Hc. exact IH.
Qed.

Lemma declaration_at_word s w :
  declaration_at s = Some w -> w <> "" /\ all_word w = true.
Proof.
  unfold declaration_at.
  destruct (match strip_prefix "function" s with
            | Some r => Some r
            | None => match strip_prefix "modifier" s with
                      | Some r => Some r
                      | None => strip_prefix "contract" s
                      end
            end) as [r|]; [| discriminate].
  destruct (space_len r); [discriminate |].
  pose proof (take_word_all_word (skip_spaces r)) as Hw.
  destruct (take_word (skip_spaces r)) as [|a t]; [discriminate |].
  intros [= <-]. split; [discriminate | exact Hw].
Qed.

Lemma declaration_name_word s w :
  declaration_name s = Some w -> w <> "" /\ all_word w = true.
Proof.
  induction s as [|c s IH]; cbn [declaration_name].
  - destruct (declaration_at "") as [w'|] eqn:Hat; [| discriminate].
    intros [= <-]. exact (declaration_at_word _ _ Hat).
  - destruct (declaration_at (String c s)) as [w'|] eqn:Hat; [| exact IH].
    intros [= <-]. exact (declaration_at_word _ _ Hat).
Qed.

Lemma documented_bind line docBlock body m :
  docBlock = body +:+ nl -> documented m -> documented (bind_declaration line docBlock m).
Proof.
  intros Hd Hm. unfold bind_declaration.
  destruct (declaration_name line) as [w|] eqn:Hn; [| exact Hm].
  intros k v Hk. destruct (decide (w = k)) as [<-|Hne].
  - rewrite lookup_insert_eq in Hk. injection Hk as <-.
    destruct (declaration_name_word _ _ Hn) as [Hw1 Hw2]. eauto.
  - rewrite lookup_insert_ne in Hk by exact Hne. exact (Hm k v Hk).
Qed.

Lemma documented_scan lines :
  (forall m, documented m -> documented (scan lines m))
  /\ (forall body m, documented m -> documented (collect lines (body +:+ nl) m))
  /\ (forall body m, documented m -> documented (find_declaration lines (body +:+ nl) m)).
Proof.
  induction lines as [|l rest (IHs & IHc & IHf)].
  { split; [| split]; [intros m Hm | intros body m Hm ..]; exact Hm. }
  split; [| split].
  - intros m Hm. cbn [scan]. destruct (includes "///" l); [apply IHc | apply IHs]; exact Hm.
  - intros body m Hm. cbn [collect]. destruct (includes "///" l).
    + rewrite <- append_assoc. apply IHc. exact Hm.
    + destruct (has_declaration l); [| apply IHf; exact Hm].
      apply IHs. eapply documented_bind; [reflexivity | exact Hm].
  - intros body m Hm. cbn [find_declaration].
    destruct (has_declaration l); [| apply IHf; exact Hm].
    apply IHs. eapply documented_bind; [reflexivity | exact Hm].
Qed.

(** Every name under which extractNatSpec records a block is a non-empty
    string of letters, digits and underscores, and every block ends with a
    line feed. *)
Theorem extractNatSpec_documented content k v :
  extractNatSpec content !! k = Some v ->
  k <> "" /\ all_word k = true /\ exists body, v = body +:+ nl.
Proof.
  revert k v. change (documented (extractNatSpec content)).
  unfold extractNatSpec. apply documented_scan. intros k v Hk.
  rewrite lookup_empty in Hk. discriminate Hk.
Qed.

Lemma extractNatSpec_documented_witness :
  all_word "createProposal" = true
  /\ exists body, "Opens a proposal" +:+ nl = body +:+ nl.
Proof.
  apply (extractNatSpec_documented
           ("/// Opens a proposal" +:+ nl +:+ "function createProposal(")
           "createProposal" ("Opens a proposal" +:+ nl)).
  vm_compute. reflexivity.
Defined.

Lemma split_lines_nonempty s : split_lines s <> [].
Proof.
  destruct s as [|c s]; cbn [split_lines]; [discriminate |].
  destruct (Ascii.eqb c "010"%char); [discriminate |].
  destruct (split_lines s); discriminate.
Qed.

Lemma split_lines_first s l ls : split_lines s = l :: ls -> exists r, s = l +:+ r.
Proof.
  revert l ls. induction s as [|c s IH]; intros l ls Hs.
  - injection Hs as <- _. exists "". reflexivity.
  - cbn [split_lines] in Hs. destruct (Ascii.eqb c "010"%char).
    + injection Hs as <- _. eexists. reflexivity.
    + destruct (split_lines s) as [|l' ls'] eqn:Hl.
      * injection Hs as <- _. exists s. reflexivity.
      * injection Hs as <- _. destruct (IH _ _ eq_refl) as [r ->].
        exists r. reflexivity.
Qed.

Lemma startsWith_app_r p s x : startsWith p s = true -> startsWith p (s +:+ x) = true.
Proof.
  unfold startsWith. intros Hs.
  destruct (strip_prefix p s) as [r|] eqn:Hp; [| discriminate Hs].
  rewrite (strip_prefix_app_r _ _ _ x Hp). reflexivity.
Qed.

Lemma includes_nil sub : sub <> "" -> includes sub "" = false.
Proof. destruct sub; [contradiction | reflexivity]. Qed.

Lemma lines_without sub s :
  includes sub s = false -> Forall (fun l => includes sub l = false) (split_lines s).
Proof.
  induction s as [|c s IH]; intros Hno.
  - constructor; [exact Hno | constructor].
  - cbn [includes] in Hno. apply orb_false_iff in Hno as [Hhead Hrest].
    specialize (IH Hrest). cbn [split_lines].
    destruct (Ascii.eqb c "010"%char).
    + constructor; [| exact IH]. apply includes_nil. intros ->. discriminate Hhead.
    + destruct (split_lines s) as [|l' ls'] eqn:Hl;
        [exfalso; exact (split_lines_nonempty _ Hl) |].
      destruct (split_lines_first _ _ _ Hl) as [r ->].
      inversion IH as [|? ? Hl' Hls']; subst.
      constructor; [| exact Hls'].
      cbn [includes]. rewrite Hl', orb_false_r.
      destruct (startsWith sub (String c l')) eqn:Hsw; [| reflexivity].
      apply (startsWith_app_r _ _ r) in Hsw. rewrite append_cons in Hsw. congruence.
Qed.

Lemma scan_without lines m :
  Forall (fun l => includes "///" l = false) lines -> scan lines m = m.
Proof.
  induction 1 as [|l rest Hl _ IH]; [reflexivity |].
  cbn [scan]. rewrite Hl. exact IH.
Qed.

(** A text that nowhere holds three slashes in a row gives the empty map,
    whatever declarations it holds. *)
Theorem extractNatSpec_without_comments content :
  includes "///" content = false -> extractNatSpec content = ∅.
Proof.
  intros Hno. unfold extractNatSpec. apply scan_without, lines_without, Hno.
Qed.

Lemma extractNatSpec_without_comments_witness :
  extractNatSpec ("// Opens a proposal" +:+ nl +:+ "function createProposal(") = ∅.
Proof.
  apply extractNatSpec_without_comments. reflexivity.
Defined.

(** *** A comment above a declaration *)

Lemma includes_app_l p x s : includes p s = true -> includes p (x +:+ s) = true.
Proof.
  intros Hs. induction x as [|c x IH]; [exact Hs |].
  rewrite append_cons. cbn [includes]. rewrite IH. apply orb_true_r.
Qed.

Lemma includes_head p x : includes p (p +:+ x) = true.
Proof.
  assert (Hs : startsWith p (p +:+ x) = true).
  { unfold startsWith. rewrite strip_prefix_app. reflexivity. }
  destruct (p +:+ x); cbn [includes]; rewrite Hs; reflexivity.
Qed.

Lemma includes_char_app q a b :
  includes (String q "") (a +:+ b)
  = includes (String q "") a || includes (String q "") b.
Proof.
  induction a as [|c a IH]; [reflexivity |].
  rewrite append_cons. cbn [includes]. rewrite IH, orb_assoc. f_equal.
  unfold startsWith. cbn [strip_prefix]. destruct (Ascii.eqb q c); reflexivity.
Qed.

Lemma includes_char_cons q c a :
  includes (String q "") (String c a) = Ascii.eqb q c || includes (String q "") a.
Proof.
  cbn [includes]. f_equal. unfold startsWith. cbn [strip_prefix].
  destruct (Ascii.eqb q c); reflexivity.
Qed.

Lemma includes_doc_after a x :
  includes "/" a = false -> includes "///" (a +:+ x) = includes "///" x.
Proof.
  induction a as [|c a IH]; intros Hno; [reflexivity |].
  rewrite includes_char_cons in Hno. apply orb_false_iff in Hno as [Hc Ha].
  rewrite append_cons. cbn [includes]. rewrite (IH Ha).
  unfold startsWith. cbn [strip_prefix]. rewrite Hc. reflexivity.
Qed.

Lemma all_word_without q fname :
  word_char q = false -> all_word fname = true -> includes (String q "") fname = false.
Proof.
  intros Hq. induction fname as [|c f IH]; intros Hw; [reflexivity |].
  cbn [all_word] in Hw. apply andb_prop in Hw as [Hc Hf].
  rewrite includes_char_cons, (IH Hf), orb_false_r.
  destruct (Ascii.eqb_spec q c) as [->|_]; [congruence | reflexivity].
Qed.

Lemma indent_S n : indent (S n) = String " " (indent n).
Proof. reflexivity. Qed.

Lemma indent_without q n : Ascii.eqb q " " = false -> includes (String q "") (indent n) = false.
Proof.
  intros Hq. induction n as [|n IH]; [reflexivity |].
  rewrite indent_S, includes_char_cons, Hq, IH. reflexivity.
Qed.

Lemma skip_spaces_indent n s : space_len s = 0%nat -> skip_spaces (indent n +:+ s) = s.
Proof.
  intros Hs. unfold skip_spaces. induction n as [|n IH].
  - change (indent 0 +:+ s) with s. destruct s as [|c s]; [reflexivity |].
    cbn [skip_spaces_from]. rewrite Hs. reflexivity.
  - rewrite indent_S, append_cons. cbn [skip_spaces_from].
    replace (space_len (String " " (indent n +:+ s))) with 1%nat by reflexivity.
    exact IH.
Qed.

Lemma space_len_word c r : word_char c = true -> space_len (String c r) = 0%nat.
Proof.
  destruct c as [[] [] [] [] [] [] [] []]; intros Hc;
    first [discriminate Hc | reflexivity].
Qed.

Lemma take_word_app fname q x :
  all_word fname = true -> word_char q = false -> take_word (fname +:+ String q x) = fname.
Proof.
  intros Hw Hq. induction fname as [|c f IH].
  - change ("" +:+ String q x) with (String q x). cbn [take_word]. rewrite Hq. reflexivity.
  - cbn [all_word] in Hw. apply andb_prop in Hw as [Hc Hf].
    rewrite append_cons. cbn [take_word]. rewrite Hc, (IH Hf). reflexivity.
Qed.

Lemma declaration_at_keyword keyword fname tail :
  In keyword ["function"; "modifier"; "contract"] ->
  fname <> "" -> all_word fname = true ->
  declaration_at (keyword +:+ " " +:+ fname +:+ "(" +:+ tail) = Some fname.
Proof.
  intros Hk Hne Hw.
  assert (Hname : match space_len (" " +:+ fname +:+ "(" +:+ tail) with
                  | O => None
                  | S _ => match take_word (skip_spaces (" " +:+ fname +:+ "(" +:+ tail)) with
                           | EmptyString => None
                           | w => Some w
                           end
                  end = Some fname).
  { replace (space_len (" " +:+ fname +:+ "(" +:+ tail)) with 1%nat by reflexivity.
    change (" " +:+ fname +:+ "(" +:+ tail) with (indent 1 +:+ fname +:+ "(" +:+ tail).
    destruct fname as [|c f]; [contradiction |].
    rewrite skip_spaces_indent.
    2:{ rewrite append_cons. apply space_len_word.
        cbn [all_word] in Hw. apply andb_prop in Hw as [Hc _]. exact Hc. }
    change ("(" +:+ tail) with (String "("%char tail).
    rewrite take_word_app by (exact Hw || reflexivity). reflexivity. }
  unfold declaration_at.
  destruct Hk as [<-|[<-|[<-|[]]]].
  - rewrite strip_prefix_app. exact Hname.
  - replace (strip_prefix "function" ("modifier" +:+ " " +:+ fname +:+ "(" +:+ tail))
      with (@None string) by reflexivity.
    rewrite strip_prefix_app. exact Hname.
  - replace (strip_prefix "function" ("contract" +:+ " " +:+ fname +:+ "(" +:+ tail))
      with (@None string) by reflexivity.
    replace (strip_prefix "modifier" ("contract" +:+ " " +:+ fname +:+ "(" +:+ tail))
      with (@None string) by reflexivity.
    rewrite strip_prefix_app. exact Hname.
Qed.

Lemma declaration_name_at s w : declaration_at s = Some w -> declaration_name s = Some w.
Proof. intros Hat. destruct s; cbn [declaration_name]; rewrite Hat; reflexivity. Qed.

Lemma declaration_name_indent n s :
  declaration_name (indent n +:+ s) = declaration_name s.
Proof.
  induction n as [|n IH]; [reflexivity |].
  rewrite indent_S, append_cons. cbn [declaration_name].
  replace (declaration_at (String " " (indent n +:+ s))) with (@None string) by reflexivity.
  exact IH.
Qed.

Lemma split_lines_single b : includes nl b = false -> split_lines b = [b].
Proof.
  induction b as [|c b IH]; intros Hno; [reflexivity |].
  unfold nl in *. rewrite includes_char_cons in Hno.
  apply orb_false_iff in Hno as [Hc Hb].
  cbn [split_lines]. rewrite Ascii.eqb_sym, Hc, (IH Hb). reflexivity.
Qed.

Lemma split_lines_app a b :
  includes nl a = false -> split_lines (a +:+ nl +:+ b) = a :: split_lines b.
Proof.
  induction a as [|c a IH]; intros Hno; [reflexivity |].
  unfold nl in *. rewrite includes_char_cons in Hno.
  apply orb_false_iff in Hno as [Hc Ha].
  rewrite append_cons. cbn [split_lines]. rewrite Ascii.eqb_sym, Hc, (IH Ha). reflexivity.
Qed.

(** A one-line [///] comment directly above a function, modifier or contract
    declaration, each indented by any number of spaces, is recorded under the
    declared name: the block is the text of the comment after the marker and
    one space, followed by a line feed, and it is the only entry. *)
Theorem extractNatSpec_comment_above_declaration n1 n2 text keyword fname tail :
  In keyword ["function"; "modifier"; "contract"] ->
  includes nl text = false ->
  fname <> "" -> all_word fname = true ->
  includes nl tail = false -> includes "///" tail = false ->
  extractNatSpec (indent n1 +:+ "/// " +:+ text +:+ nl
                  +:+ indent n2 +:+ keyword +:+ " " +:+ fname +:+ "(" +:+ tail)
  = {[ fname := text +:+ nl ]}.
Proof.
  intros Hk Htext Hne Hw Htail Hdoc.
  set (line1 := indent n1 +:+ "/// " +:+ text).
  set (decl := keyword +:+ " " +:+ fname +:+ "(" +:+ tail).
  assert (Hkw : includes nl keyword = false /\ includes "/" keyword = false
                /\ has_declaration (indent n2 +:+ decl) = true).
  { unfold decl, has_declaration. destruct Hk as [<-|[<-|[<-|[]]]];
      (split; [reflexivity | split; [reflexivity |]]).
    - change ("function" +:+ " " +:+ fname +:+ "(" +:+ tail)
        with ("function " +:+ fname +:+ "(" +:+ tail).
      rewrite (includes_app_l "function " (indent n2) _
                 (includes_head "function " (fname +:+ "(" +:+ tail))).
      reflexivity.
    - change ("modifier" +:+ " " +:+ fname +:+ "(" +:+ tail)
        with ("modifier " +:+ fname +:+ "(" +:+ tail).
      rewrite (includes_app_l "modifier " (indent n2) _
                 (includes_head "modifier " (fname +:+ "(" +:+ tail))).
      rewrite orb_true_r. reflexivity.
    - change ("contract" +:+ " " +:+ fname +:+ "(" +:+ tail)
        with ("contract " +:+ fname +:+ "(" +:+ tail).
      rewrite (includes_app_l "contract " (indent n2) _
                 (includes_head "contract " (fname +:+ "(" +:+ tail))).
      apply orb_true_r. }
  destruct Hkw as (Hk1 & Hk2 & Hhas).
  assert (Hl1 : includes nl line1 = false).
  { unfold line1, nl in *. rewrite !includes_char_app, Htext.
    rewrite indent_without by reflexivity. reflexivity. }
  assert (Hl2 : includes nl (indent n2 +:+ decl) = false).
  { unfold decl, nl in *. rewrite !includes_char_app, Hk1, Htail.
    rewrite indent_without by reflexivity.
    rewrite (all_word_without _ fname) by (reflexivity || exact Hw). reflexivity. }
  assert (Hd1 : includes "///" line1 = true).
  { unfold line1. apply includes_app_l. apply (includes_head "///"). }
  assert (Hd2 : includes "///" (indent n2 +:+ decl) = false).
  { unfold decl.
    replace (indent n2 +:+ keyword +:+ " " +:+ fname +:+ "(" +:+ tail)
      with ((indent n2 +:+ keyword +:+ " " +:+ fname +:+ "(") +:+ tail)
      by (rewrite !append_assoc; reflexivity).
    rewrite includes_doc_after; [exact Hdoc |].
    rewrite !includes_char_app, Hk2.
    rewrite indent_without by reflexivity.
    rewrite (all_word_without _ fname) by (reflexivity || exact Hw). reflexivity. }
  assert (Hname : declaration_name (indent n2 +:+ decl) = Some fname).
  { rewrite declaration_name_indent. apply declaration_name_at.
    apply declaration_at_keyword; assumption. }
  assert (Hline : doc_line line1 = text).
  { unfold doc_line, line1. rewrite skip_spaces_indent by reflexivity. reflexivity. }
  unfold extractNatSpec.
  replace (indent n1 +:+ "/// " +:+ text +:+ nl +:+ indent n2 +:+ decl)
    with (line1 +:+ nl +:+ indent n2 +:+ decl)
    by (unfold line1; rewrite !append_assoc; reflexivity).
  rewrite (split_lines_app _ _ Hl1), (split_lines_single _ Hl2).
  cbn [scan collect]. rewrite Hd1, Hd2, Hhas.
  unfold bind_declaration. rewrite Hname, Hline.
  apply insert_empty.
Qed.

Lemma extractNatSpec_comment_above_declaration_witness :
  extractNatSpec (indent 4 +:+ "/// " +:+ "@notice Opens a proposal" +:+ nl
                  +:+ indent 4 +:+ "function" +:+ " " +:+ "createProposal" +:+ "("
                  +:+ "string memory title) external onlyOwner {")
  = {[ "createProposal" := "@notice Opens a proposal" +:+ nl ]}.
Proof.
  apply extractNatSpec_comment_above_declaration.
  - left. reflexivity.
  - reflexivity.
  - discriminate.
  - reflexivity.
  - reflexivity.
  - reflexivity.
Defined.

End DocsMore.
